(** * edx-archive: the download orchestrator of [src/index.ts]

    A shallow embedding of the command-line entry point: the configuration
    step ([clone], [parseFormat], [getConfiguration]), the retry policy handed
    to [retryBackoff], and the three awaited pipelines of [main] (login,
    task discovery, bounded-concurrency downloads) followed by the report and
    the shutdown of the browser.

    Conventions.
    - JavaScript objects live in a store ([Heap]); [Object.assign] updates
      its target in place, references are locations.
    - A number that comes out of [parseInt] is an integer or [NaN] ([num]).
    - The outside world (the prompt, puppeteer, the [Downloader]) is an
      [Environment]: each capability is a function of its invocation number.
    - The order in which the in-flight downloads settle is not fixed by the
      program; it is an explicit schedule (a list of choices), and every
      statement about the download phase is for all schedules. *)

From Stdlib Require Import Ascii String ZArith Lia.
From stdpp Require Import gmap strings list pretty.

(** ** Numbers and values *)

(** The result of [parseInt]: an integer, or [NaN]. *)
Inductive num :=
| NaN
| Int (z : Z).

(** JavaScript [a < b] on numbers: any comparison with [NaN] is false. *)
Definition num_lt (a b : num) : bool :=
  match a, b with
  | Int x, Int y => bool_decide (x < y)%Z
  | _, _ => false
  end.

Inductive Value :=
| VUndefined
| VBool (b : bool)
| VNum (n : num)
| VStr (s : string).

#[global] Instance num_eq_dec : EqDecision num.
Proof. solve_decision. Defined.

#[global] Instance Value_eq_dec : EqDecision Value.
Proof. solve_decision. Defined.

(** ToBoolean, as used by [if (configuration.debug)] and [!configuration.user]. *)
Definition truthy (v : Value) : bool :=
  match v with
  | VUndefined => false
  | VBool b => b
  | VNum NaN => false
  | VNum (Int z) => negb (z =? 0)%Z
  | VStr s => negb (String.eqb s "")
  end.

(** The numeric reading of an option value.  The two options read this way,
    [retries] and [concurrency], always hold numbers
    (see [getConfiguration_numeric]). *)
Definition toNum (v : Value) : num :=
  match v with
  | VNum n => n
  | _ => NaN
  end.

(** ** The object store *)

Abbreviation Obj := (gmap string Value).
Abbreviation loc := nat (only parsing).

(** The store: object number [l] is the [l]-th element. *)
Abbreviation Heap := (list Obj).

(** An object literal: a new object at a new location. *)
Definition alloc (o : Obj) (h : Heap) : loc * Heap := (length h, h ++ [o]).

(** [Object.assign(target, source)]: copies the properties of [source] over
    those of [target], in place, and returns [target]. *)
Definition Object_assign (target source : loc) (h : Heap) : loc * Heap :=
  match h !! target, h !! source with
  | Some t, Some s => (target, <[target := s ∪ t]> h)
  | _, _ => (target, h)
  end.

(** [o.k]; a missing property reads [undefined]. *)
Definition get (h : Heap) (l : loc) (k : string) : Value :=
  match h !! l with
  | Some o => default VUndefined (o !! k)
  | None => VUndefined
  end.

(** [o.k = v] *)
Definition set (l : loc) (k : string) (v : Value) (h : Heap) : Heap :=
  match h !! l with
  | Some o => <[l := <[k := v]> o]> h
  | None => h
  end.

(** [function clone(object, overwtite = {})]:
    [Object.assign(Object.assign({}, object), overwtite)]. *)
Definition clone (object : loc) (overwtite : option loc) (h : Heap) : loc * Heap :=
  let '(ow, h) := match overwtite with
                  | Some l => (l, h)
                  | None => alloc ∅ h
                  end in
  let '(fresh, h) := alloc ∅ h in
  let '(inner, h) := Object_assign fresh object h in
  Object_assign inner ow h.

(** ** Tasks, results, events *)

(** A download task: the orchestrator reads its [name] only. *)
Record Task := { name : string; page : string }.

Record DownloadResult := { task : Task; file : string }.

#[global] Instance Task_eq_dec : EqDecision Task.
Proof. solve_decision. Defined.

#[global] Instance DownloadResult_eq_dec : EqDecision DownloadResult.
Proof. solve_decision. Defined.

(** What [console.log] is given. *)
Inductive Message :=
| Text (s : string)
| Dump (o : Obj)
| DumpTask (t : Task)
| DumpTasks (ts : list Task)
| DumpResult (r : DownloadResult).

(** The three awaited pipelines of [main]. *)
Inductive Stage :=
| Authenticating
| Discovering
| Downloading.

#[global] Instance Stage_eq_dec : EqDecision Stage.
Proof. solve_decision. Defined.

(** What happens during a run, in the order it happens. *)
Inductive Event :=
| Log (m : Message)                        (* console.log *)
| Help                                     (* program.help() output *)
| Prompt (label : string)                  (* prompt / prompt.password *)
| Launch (ok : bool)                       (* puppeteer.launch() settled *)
| Login (ok : bool)                        (* downloader.login called and settled *)
| Wait (ms : Z)                            (* a backoff timer *)
| Discover (emitted : list Task) (ok : bool) (* downloader.getDownloadTasks *)
| Perform (position : nat) (t : Task)      (* downloader.performDownload called *)
| Performed (position : nat) (ok : bool)   (* ... and settled *)
| Report (results : list DownloadResult)   (* downloader.reportResults *)
| Awaited (stage : Stage) (ok : bool)      (* an awaited pipeline returned / threw *)
| Close                                    (* browser.close() *)
| ConsoleError.                            (* console.error(e) *)

(** How far a run got. *)
Inductive Outcome :=
| Exit (code : Z)      (* process.exit(code) *)
| Done                 (* main returned after "Done." *)
| Pending.             (* main is still awaiting a pipeline *)

(** ** The command line and [getConfiguration] *)

(** What commander holds after [.parse(process.argv)]: the positional
    arguments and, for each option given, its value; the three numeric
    options hold what [parseInteger] (that is, [parseInt]) returned. *)
Record CommandLine := {
  args : list string;
  opt_user : option string;
  opt_password : option string;
  opt_output : option string;
  opt_format : option string;
  opt_retries : option num;
  opt_delay : option num;
  opt_concurrency : option num;
  opt_debug : bool }.

(** [["pdf", "png"].includes(value)] *)
Definition parseFormat_ok (value : string) : bool :=
  bool_decide (value ∈ ["pdf"; "png"]).

(** One position of [courseUrlPattern]: a literal character or [.]. *)
Inductive Atom :=
| Lit (c : ascii)
| Dot.

Definition lineTerminator (c : ascii) : bool :=
  bool_decide (c = "010"%char) || bool_decide (c = "013"%char).

Definition literal (s : string) : list Atom := Lit <$> list_ascii_of_string s.

Fixpoint matchAtoms (p : list Atom) (s : string) : option string :=
  match p with
  | [] => Some s
  | a :: p' =>
      match s with
      | EmptyString => None
      | String c s' =>
          let here := match a with
                      | Lit d => bool_decide (c = d)
                      | Dot => negb (lineTerminator c)
                      end in
          if here then matchAtoms p' s' else None
      end
  end.

(** [/^https:\/\/courses.edx.org\/courses\/.*\/course\/$/] on strings of
    one-byte characters; the two dots of the host name are unescaped. *)
Definition courseUrlPattern (s : string) : bool :=
  match matchAtoms (literal "https://courses" ++ [Dot] ++ literal "edx" ++ [Dot]
                      ++ literal "org/courses/") s with
  | Some rest =>
      let n := String.length rest in
      bool_decide (8 ≤ n)%nat
      && String.eqb (substring (n - 8) 8 rest) "/course/"
      && forallb (λ c, negb (lineTerminator c))
                 (list_ascii_of_string (substring 0 (n - 8) rest))
  | None => false
  end.

Definition optional (v : option string) : Value :=
  match v with
  | Some s => VStr s
  | None => VUndefined
  end.

(** [program.opts()]: one property per declared option, with the declared
    defaults ('Archive', 'pdf', 3, 1, 4, false). *)
Definition opts (cl : CommandLine) : Obj :=
  <["user" := optional (opt_user cl)]>
  (<["password" := optional (opt_password cl)]>
  (<["output" := VStr (default "Archive"%string (opt_output cl))]>
  (<["format" := VStr (default "pdf"%string (opt_format cl))]>
  (<["retries" := VNum (default (Int 3) (opt_retries cl))]>
  (<["delay" := VNum (default (Int 1) (opt_delay cl))]>
  (<["concurrency" := VNum (default (Int 4) (opt_concurrency cl))]>
  (<["debug" := VBool (opt_debug cl)]> ∅))))))).

(** The prompt, puppeteer and the site, as seen by [main]. *)

(** Modelled from the spec: the [Downloader] interface is declared in
    [./Core], which is not under src/.  Section 6 gives its four
    capabilities; each is a function of the invocation number (from 0):
    [login] fulfils or fails; [getDownloadTasks] emits tasks and then
    completes ([true]) or fails ([false]); [performDownload], for the task at
    a position of the task array, yields one result or fails;
    [reportResults] returns ([true]) or throws. *)
Record Downloader := {
  login : nat → bool;
  getDownloadTasks : nat → list Task * bool;
  performDownload : nat → nat → option DownloadResult;
  reportResults : list DownloadResult → bool }.

Record Environment := {
  answerUser : string;          (* what is typed at 'User: ' *)
  answerPassword : string;      (* what is typed at 'Password: ' *)
  launch : bool;                (* puppeteer.launch() fulfils *)
  downloader : Downloader;
  close : bool }.               (* browser.close() fulfils *)

(** The result of the configuration step. *)
Inductive Startup :=
| Exited (code : Z)
| Configured (configuration : loc).

(** [async function getConfiguration()].  [parseFormat] runs inside
    [.parse] on the value given to [--format]; then the argument count, the
    URL pattern, the clone of [program.opts()] and the two prompts. *)
Definition getConfiguration (cl : CommandLine) (env : Environment) (h : Heap)
  : list Event * Startup * Heap :=
  if bool_decide (from_option parseFormat_ok true (opt_format cl) = false) then
    ([Log (Text ("invalid format: " +:+ default "" (opt_format cl)))], Exited 1, h)
  else
    match args cl with
    | [course_url] =>
        if courseUrlPattern course_url then
          let '(o, h) := alloc (opts cl) h in
          let '(configuration, h) := clone o None h in
          let h := set configuration "courseUrl" (VStr course_url) h in
          let '(t1, h) :=
            if truthy (get h configuration "user") then ([], h)
            else ([Prompt "User: "],
                  set configuration "user" (VStr (answerUser env)) h) in
          let '(t2, h) :=
            if truthy (get h configuration "password") then ([], h)
            else ([Prompt "Password: "],
                  set configuration "password" (VStr (answerPassword env)) h) in
          (t1 ++ t2, Configured configuration, h)
        else
          ([Log (Text "Invalid course url.
Course url should look like: https://courses.edx.org/<course_id>/course/")],
           Exited 1, h)
    | _ => ([Help], Exited 0, h)
    end.

(** ** The retry policy *)

(** [backoffConfig] (index.ts, lines 79-83). *)
Record BackoffConfig := {
  initialInterval : Z;
  maxInterval : Z;
  maxRetries : num }.

Definition backoffConfig (retries : num) : BackoffConfig :=
  {| initialInterval := 5000; maxInterval := 60000; maxRetries := retries |}%Z.

Inductive Decision :=
| Delay (ms : Z)
| Exhausted.

(** Modelled from the spec: [retryBackoff] belongs to the backoff-rxjs
    package, which is not under src/.  Section 4.1: the delay grows
    exponentially from [initial] and is capped at [max]; the budget is
    [maxRetries].  The package counts failures from 0: the failure number
    [iteration] is retried when [iteration < maxRetries], after
    [min (2^iteration * initialInterval) maxInterval] milliseconds. *)
Definition exponentialBackoffDelay (iteration : nat) (initial : Z) : Z :=
  (2 ^ Z.of_nat iteration * initial)%Z.

Definition getDelay (backoffDelay maxInterval : Z) : Z :=
  Z.min backoffDelay maxInterval.

Definition retryDecision (cfg : BackoffConfig) (iteration : nat) : Decision :=
  if num_lt (Int (Z.of_nat iteration)) (maxRetries cfg)
  then Delay (getDelay (exponentialBackoffDelay iteration (initialInterval cfg))
                       (maxInterval cfg))
  else Exhausted.

(** The policy with attempts counted from 1, as section 4.1 counts them:
    the decision after the [attempt]-th failed attempt. *)
Definition backoffPolicy (cfg : BackoffConfig) (attempt : nat) : Decision :=
  retryDecision cfg (attempt - 1).

(** The largest number of subscriptions [retryBackoff] can make to its
    source: the first one and one per retry. *)
Definition attempts (cfg : BackoffConfig) : nat :=
  S (match maxRetries cfg with
     | Int z => Z.to_nat z
     | NaN => 0
     end).

(** ** The awaited pipelines *)

(** How an awaited promise ends; [Unsettled] when it has not ended within
    the steps that were given. *)
Inductive Settled (A : Type) :=
| Fulfilled (a : A)
| Rejected
| Unsettled.
Arguments Fulfilled {A} a.
Arguments Rejected {A}.
Arguments Unsettled {A}.

(** [source.pipe(retryBackoff(cfg)).toPromise()] for a source that settles
    before anything else runs.  [subscribe k] is subscription number [k] to
    the source: what it does, and the value it produced or [None] for an
    error.  After an error the package asks [retryDecision] with its failure
    counter, waits and subscribes again, or rethrows. *)
Fixpoint retryBackoff {A} (cfg : BackoffConfig)
    (subscribe : nat → list Event * option A) (fuel index : nat)
  : list Event * Settled A :=
  match fuel with
  | 0 => ([], Unsettled)
  | S fuel' =>
      let '(t, r) := subscribe index in
      match r with
      | Some a => (t, Fulfilled a)
      | None =>
          match retryDecision cfg index with
          | Delay ms =>
              let '(t', r') := retryBackoff cfg subscribe fuel' (S index) in
              (t ++ Wait ms :: t', r')
          | Exhausted => (t, Rejected)
          end
      end
  end.

Definition when {A} (b : bool) (l : list A) : list A := if b then l else [].

(** Lines 100-106.  The first [tap] sits above [shareReplay()], so it runs
    for the first subscription only; [flatMap(downloader.login)] runs for
    every subscription. *)
Definition loginOnce (d : Downloader) (k : nat) : list Event * option () :=
  let ok := login d k in
  (when (bool_decide (k = 0)) [Log (Text "Logging in...")]
   ++ [Login ok]
   ++ when ok [Log (Text "Logged in.")],
   if ok then Some () else None).

(** Lines 109-118.  [toArray] starts from an empty array in each
    subscription. *)
Definition discoverOnce (d : Downloader) (debug : bool) (k : nat)
  : list Event * option (list Task) :=
  let '(emitted, ok) := getDownloadTasks d k in
  (when (bool_decide (k = 0)) [Log (Text "Getting download tasks...")]
   ++ [Discover emitted ok]
   ++ when debug (emitted ≫= λ t, [Log (Text "Created download task:"); Log (DumpTask t)])
   ++ when ok (Log (Text ("Scheduled " +:+ pretty (length emitted) +:+ " download tasks."))
               :: when debug [Log (DumpTasks emitted)]),
   if ok then Some emitted else None).

(** *** The download phase: [mergeMap(project, configuration.concurrency)] *)

(** One inner subscription of [mergeMap]: the task it was projected from,
    with its place in the task array, and the state of its own
    [retryBackoff]: the failure counter and whether the backoff timer is
    running ([true]) or [performDownload] is ([false]). *)
Record Inner := {
  in_position : nat;
  in_task : Task;
  in_index : nat;
  in_waiting : bool }.

(** The merge subscriber: the inner subscriptions it counts as active, the
    values it holds back, and the array [toArray] is filling. *)
Record MergeMap := {
  active : list Inner;
  buffer : list (nat * Task);
  collected : list DownloadResult }.

(** The first subscription to the inner pipeline of a task: the trace line,
    then [performDownload]. *)
Definition project (debug : bool) (v : nat * Task) : list Event * Inner :=
  (Log (Text ("Downloading task: " +:+ name v.2))
   :: when debug [Log (DumpTask v.2)] ++ [Perform v.1 v.2],
   {| in_position := v.1; in_task := v.2; in_index := 0; in_waiting := false |}).

(** [_next(value)]: subscribe while [active < concurrent], else hold the
    value back. *)
Definition next (concurrent : num) (debug : bool) (v : nat * Task) (s : MergeMap)
  : list Event * MergeMap :=
  if num_lt (Int (Z.of_nat (length (active s)))) concurrent then
    let '(t, i) := project debug v in
    (t, {| active := active s ++ [i]; buffer := buffer s; collected := collected s |})
  else
    ([], {| active := active s; buffer := buffer s ++ [v]; collected := collected s |}).

(** [from(tasks)] hands every task to [_next] as soon as it is subscribed. *)
Fixpoint feed (concurrent : num) (debug : bool) (vs : list (nat * Task)) (s : MergeMap)
  : list Event * MergeMap :=
  match vs with
  | [] => ([], s)
  | v :: vs' =>
      let '(t, s) := next concurrent debug v s in
      let '(t', s) := feed concurrent debug vs' s in
      (t ++ t', s)
  end.

Inductive Step :=
| Continue (s : MergeMap)
| Failed.

(** [notifyComplete]: the inner subscription number [i] is removed; the
    first held-back value, if any, is handed to [_next]. *)
Definition notifyComplete (concurrent : num) (debug : bool) (i : nat) (s : MergeMap)
  : list Event * MergeMap :=
  match buffer s with
  | v :: held =>
      next concurrent debug v
           {| active := delete i (active s); buffer := held; collected := collected s |}
  | [] =>
      ([], {| active := delete i (active s); buffer := []; collected := collected s |})
  end.

(** The timer of an inner subscription fires: it subscribes to its source
    again. *)
Definition resume (inner : Inner) : Inner :=
  {| in_position := in_position inner; in_task := in_task inner;
     in_index := in_index inner; in_waiting := false |}.

(** The download of an inner subscription failed and is to be retried:
    [index++], and the timer starts. *)
Definition backoff (inner : Inner) : Inner :=
  {| in_position := in_position inner; in_task := in_task inner;
     in_index := S (in_index inner); in_waiting := true |}.

(** One thing happens to the active inner subscription number
    [choice mod active]: its timer fires and it calls [performDownload]
    again; or its download is fulfilled, the result goes to [toArray] and
    the inner completes; or its download fails and its own [retryBackoff]
    starts a timer or gives up, which is an error of the whole merge. *)
Definition settle (cfg : BackoffConfig) (concurrent : num) (debug : bool)
    (d : Downloader) (choice : nat) (s : MergeMap) : list Event * Step :=
  let i := choice `mod` length (active s) in
  match active s !! i with
  | None => ([], Continue s)
  | Some inner =>
      let pos := in_position inner in
      if in_waiting inner then
        ([Perform pos (in_task inner)],
         Continue {| active := <[i := resume inner]> (active s);
                     buffer := buffer s; collected := collected s |})
      else
        match performDownload d pos (in_index inner) with
        | Some result =>
            let '(t, s') :=
              notifyComplete concurrent debug i
                {| active := active s; buffer := buffer s;
                   collected := collected s ++ [result] |} in
            (Performed pos true
             :: Log (Text ("Download complete: " +:+ name (task result)))
             :: when debug [Log (DumpResult result)] ++ t,
             Continue s')
        | None =>
            match retryDecision cfg (in_index inner) with
            | Delay ms =>
                ([Performed pos false; Wait ms],
                 Continue {| active := <[i := backoff inner]> (active s);
                             buffer := buffer s; collected := collected s |})
            | Exhausted => ([Performed pos false], Failed)
            end
        end
  end.

(** Where the download pipeline stands. *)
Inductive Phase :=
| Completed (results : list DownloadResult)   (* toArray emitted, promise fulfilled *)
| Errored                                     (* promise rejected *)
| Running (s : MergeMap).                     (* promise not settled *)

(** The merge completes when its source has and nothing is active or held
    back.  Otherwise the next element of the schedule says which active
    inner subscription moves. *)
Fixpoint drive (cfg : BackoffConfig) (concurrent : num) (debug : bool)
    (d : Downloader) (schedule : list nat) (s : MergeMap) : list Event * Phase :=
  match active s, buffer s with
  | [], [] => ([], Completed (collected s))
  | [], _ :: _ => ([], Running s)
  | _ :: _, _ =>
      match schedule with
      | [] => ([], Running s)
      | choice :: schedule' =>
          let '(t, r) := settle cfg concurrent debug d choice s in
          match r with
          | Continue s' =>
              let '(t', p) := drive cfg concurrent debug d schedule' s' in
              (t ++ t', p)
          | Failed => (t, Errored)
          end
      end
  end.

Definition enumerate (tasks : list Task) : list (nat * Task) :=
  zip (seq 0 (length tasks)) tasks.

(** The merge subscriber before its source is subscribed. *)
Definition initial : MergeMap := {| active := []; buffer := []; collected := [] |}.

(** Lines 121-136. *)
Definition downloads (cfg : BackoffConfig) (concurrent : num) (debug : bool)
    (d : Downloader) (tasks : list Task) (schedule : list nat) : list Event * Phase :=
  let '(t0, s0) := feed concurrent debug (enumerate tasks) initial in
  let '(t1, p) := drive cfg concurrent debug d schedule s0 in
  (Log (Text "Downloading...") :: t0 ++ t1, p).

(** ** [main] *)

Definition after (t : list Event) (r : list Event * Outcome) : list Event * Outcome :=
  (t ++ r.1, r.2).

(** Lines 75-78. *)
Definition debugDump (configuration : loc) (h : Heap) : list Event * Heap :=
  if truthy (get h configuration "debug") then
    let '(overwrite, h) :=
      alloc (<["user" := VStr "<censored>"]> (<["password" := VStr "<censored>"]> ∅)) h in
    let '(copy, h) := clone configuration (Some overwrite) h in
    ([Log (Text "Configuration:"); Log (Dump (default ∅ (h !! copy)))], h)
  else ([], h).

(** The [catch] block: [console.error(e); browser?.close(); process.exit(1)]. *)
Definition catch (browser : bool) : list Event * Outcome :=
  (ConsoleError :: when browser [Close], Exit 1).

(** Lines 138-143. *)
Definition finish (env : Environment) (results : list DownloadResult)
  : list Event * Outcome :=
  if reportResults (downloader env) results then
    if close env then ([Report results; Close; Log (Text "Done.")], Done)
    else after [Report results; Close] (catch true)
  else after [Report results] (catch true).

(** Lines 95-143, for the values read from the configuration: the retry
    policy, [configuration.concurrency] and [configuration.debug]. *)
Definition orchestrate (cfg : BackoffConfig) (concurrent : num) (debug : bool)
    (env : Environment) (schedule : list nat) : list Event * Outcome :=
  let d := downloader env in
  if launch env then
    after [Launch true]
      (let '(t1, r1) := retryBackoff cfg (loginOnce d) (attempts cfg) 0 in
       after t1
         match r1 with
         | Fulfilled _ =>
             after [Awaited Authenticating true]
               (let '(t2, r2) :=
                  retryBackoff cfg (discoverOnce d debug) (attempts cfg) 0 in
                after t2
                  match r2 with
                  | Fulfilled tasks =>
                      after [Awaited Discovering true]
                        (let '(t3, r3) :=
                           downloads cfg concurrent debug d tasks schedule in
                         after t3
                           match r3 with
                           | Completed results =>
                               after [Awaited Downloading true] (finish env results)
                           | Errored =>
                               after [Awaited Downloading false] (catch true)
                           | Running _ => ([], Pending)
                           end)
                  | Rejected => after [Awaited Discovering false] (catch true)
                  | Unsettled => ([], Pending)
                  end)
         | Rejected => after [Awaited Authenticating false] (catch true)
         | Unsettled => ([], Pending)
         end)
  else after [Launch false] (catch false).

(** Lines 79-143, with the configuration object at [configuration] in [h]. *)
Definition pipeline (h : Heap) (configuration : loc) (env : Environment)
    (schedule : list nat) : list Event * Outcome :=
  orchestrate (backoffConfig (toNum (get h configuration "retries")))
              (toNum (get h configuration "concurrency"))
              (truthy (get h configuration "debug"))
              env schedule.

(** [async function main()], started on an empty store. *)
Definition main (cl : CommandLine) (env : Environment) (schedule : list nat)
  : list Event * Outcome :=
  let '(t0, r, h) := getConfiguration cl env [] in
  match r with
  | Exited code => (t0, Exit code)
  | Configured configuration =>
      let '(t1, h) := debugDump configuration h in
      after (t0 ++ t1) (pipeline h configuration env schedule)
  end.

(** ** Notions used in the statements *)

(** The credentials the run works with: the option when it is a non-empty
    string, else what was typed at the prompt. *)
Definition credential (option : option string) (typed : string) : string :=
  if truthy (optional option) then default ""%string option else typed.

(** The configuration object [getConfiguration] returns for a course URL. *)
Definition configured (cl : CommandLine) (env : Environment) (course_url : string) : Obj :=
  let o := <["courseUrl" := VStr course_url]> (opts cl) in
  let o := if truthy (optional (opt_user cl)) then o
           else <["user" := VStr (answerUser env)]> o in
  if truthy (optional (opt_password cl)) then o
  else <["password" := VStr (answerPassword env)]> o.

(** The stage an event belongs to; console output, timers, the browser
    and the report belong to none. *)
Definition stageOf (e : Event) : option Stage :=
  match e with
  | Login _ => Some Authenticating
  | Discover _ _ => Some Discovering
  | Perform _ _ | Performed _ _ => Some Downloading
  | Awaited stage _ => Some stage
  | _ => None
  end.

(** Readings of a trace: the outcomes of the [login] calls, the
    [getDownloadTasks] calls, the arguments of [reportResults], the timers. *)
Definition logins (t : list Event) : list bool :=
  omap (λ e, match e with Login ok => Some ok | _ => None end) t.

Definition discoveries (t : list Event) : list (list Task * bool) :=
  omap (λ e, match e with Discover ts ok => Some (ts, ok) | _ => None end) t.

Definition reports (t : list Event) : list (list DownloadResult) :=
  omap (λ e, match e with Report rs => Some rs | _ => None end) t.

Definition waits (t : list Event) : list Z :=
  omap (λ e, match e with Wait ms => Some ms | _ => None end) t.

(** Console lines other than an object dump. *)
Definition console (e : Event) : Prop :=
  match e with
  | Log (Dump _) => False
  | Log _ => True
  | _ => False
  end.

(** The events each part of a run is made of. *)
Definition ofStartup (e : Event) : Prop :=
  match e with
  | Log _ | Help | Prompt _ => True
  | _ => False
  end.

Definition ofLogin (e : Event) : Prop :=
  match e with
  | Login _ | Wait _ => True
  | _ => console e
  end.

Definition ofDiscovery (e : Event) : Prop :=
  match e with
  | Discover _ _ | Wait _ => True
  | _ => console e
  end.

Definition ofDownload (e : Event) : Prop :=
  match e with
  | Perform _ _ | Performed _ _ | Wait _ => True
  | _ => console e
  end.

(** The moves of the merge subscriber, one per case of [settle]. *)
Inductive Move (cfg : BackoffConfig) (concurrent : num) (debug : bool)
    (d : Downloader) (s : MergeMap) : Step → Prop :=
| move_resume i inner :
    active s !! i = Some inner → in_waiting inner = true →
    Move cfg concurrent debug d s
      (Continue {| active := <[i := resume inner]> (active s);
                   buffer := buffer s; collected := collected s |})
| move_fulfil i inner result :
    active s !! i = Some inner → in_waiting inner = false →
    performDownload d (in_position inner) (in_index inner) = Some result →
    Move cfg concurrent debug d s
      (Continue (notifyComplete concurrent debug i
                   {| active := active s; buffer := buffer s;
                      collected := collected s ++ [result] |}).2)
| move_backoff i inner ms :
    active s !! i = Some inner → in_waiting inner = false →
    performDownload d (in_position inner) (in_index inner) = None →
    retryDecision cfg (in_index inner) = Delay ms →
    Move cfg concurrent debug d s
      (Continue {| active := <[i := backoff inner]> (active s);
                   buffer := buffer s; collected := collected s |})
| move_exhaust i inner :
    active s !! i = Some inner → in_waiting inner = false →
    performDownload d (in_position inner) (in_index inner) = None →
    retryDecision cfg (in_index inner) = Exhausted →
    Move cfg concurrent debug d s Failed.

(** The states the merge subscriber can get to. *)
Inductive reachable (cfg : BackoffConfig) (concurrent : num) (debug : bool)
    (d : Downloader) : MergeMap → MergeMap → Prop :=
| reach_here s : reachable cfg concurrent debug d s s
| reach_move s s1 s' :
    Move cfg concurrent debug d s (Continue s1) →
    reachable cfg concurrent debug d s1 s' →
    reachable cfg concurrent debug d s s'.

(** What the retry sequence of the task at position [p] comes to, taken on
    its own from failure counter [index] on; [fate] is from its start. *)
Definition fateFrom (cfg : BackoffConfig) (d : Downloader) (p index : nat)
  : Settled DownloadResult :=
  (retryBackoff cfg (λ k, ([], performDownload d p k)) (attempts cfg - index) index).2.

Definition fate (cfg : BackoffConfig) (d : Downloader) (p : nat) : Settled DownloadResult :=
  fateFrom cfg d p 0.

(** The sliding window: never more than [n] active, and nothing held back
    while a slot is free. *)
Definition windowed (n : Z) (s : MergeMap) : Prop :=
  (Z.of_nat (length (active s)) ≤ n)%Z
  ∧ (buffer s ≠ [] → Z.of_nat (length (active s)) = n).

(** Every value in the subscriber is a task of the array, at its place. *)
Definition placed (tasks : list Task) (s : MergeMap) : Prop :=
  Forall (λ i, tasks !! in_position i = Some (in_task i)) (active s)
  ∧ Forall (λ v : nat * Task, tasks !! v.1 = Some v.2) (buffer s).

(** An inner subscription is within its budget and its past attempts all
    failed. *)
Definition onTrack (cfg : BackoffConfig) (d : Downloader) (i : Inner) : Prop :=
  in_index i < attempts cfg
  ∧ fateFrom cfg d (in_position i) (in_index i) = fate cfg d (in_position i).

(** The fates of everything the subscriber holds: results, active inner
    subscriptions, held-back values. *)
Definition fates (cfg : BackoffConfig) (d : Downloader) (s : MergeMap)
  : list (Settled DownloadResult) :=
  (Fulfilled <$> collected s)
  ++ ((λ i, fate cfg d (in_position i)) <$> active s)
  ++ ((λ v : nat * Task, fate cfg d v.1) <$> buffer s).

(** Nothing is lost and nothing is counted twice. *)
Definition accounted (cfg : BackoffConfig) (d : Downloader) (total : nat) (s : MergeMap)
  : Prop :=
  Forall (onTrack cfg d) (active s)
  ∧ fates cfg d s ≡ₚ fate cfg d <$> seq 0 total.

(** An upper bound on the moves an inner subscription, and the whole
    subscriber, can still make. *)
Definition weight (cfg : BackoffConfig) (i : Inner) : nat :=
  2 * (attempts cfg - in_index i) - (if in_waiting i then 0 else 1).

Definition load (cfg : BackoffConfig) (s : MergeMap) : nat :=
  sum_list (weight cfg <$> active s) + length (buffer s) * (2 * attempts cfg - 1).

(** A download is only ever called for a task of the array, at its
    place. *)
Definition fromArray (tasks : list Task) (e : Event) : Prop :=
  match e with
  | Perform p t => tasks !! p = Some t
  | _ => True
  end.

(** The events of the pipeline part of a run: anything but the startup's
    help, prompts and object dump. *)
Definition ofPipeline (e : Event) : Prop :=
  match e with
  | Help | Prompt _ | Log (Dump _) => False
  | _ => True
  end.

(** The ways [orchestrate] can go, with the trace and the outcome of
    each. *)
Inductive Orchestrated (cfg : BackoffConfig) (concurrent : num) (debug : bool)
    (env : Environment) (schedule : list nat) : list Event → Outcome → Prop :=
| no_browser :
    launch env = false →
    Orchestrated cfg concurrent debug env schedule [Launch false; ConsoleError] (Exit 1)
| login_rejected auth :
    launch env = true →
    retryBackoff cfg (loginOnce (downloader env)) (attempts cfg) 0 = (auth, Rejected) →
    Orchestrated cfg concurrent debug env schedule
      (Launch true :: auth ++ [Awaited Authenticating false; ConsoleError; Close])
      (Exit 1)
| discovery_rejected auth disc :
    launch env = true →
    retryBackoff cfg (loginOnce (downloader env)) (attempts cfg) 0
    = (auth, Fulfilled ()) →
    retryBackoff cfg (discoverOnce (downloader env) debug) (attempts cfg) 0
    = (disc, Rejected) →
    Orchestrated cfg concurrent debug env schedule
      (Launch true :: auth ++ Awaited Authenticating true
         :: disc ++ [Awaited Discovering false; ConsoleError; Close])
      (Exit 1)
| downloads_running auth disc tasks down s :
    launch env = true →
    retryBackoff cfg (loginOnce (downloader env)) (attempts cfg) 0
    = (auth, Fulfilled ()) →
    retryBackoff cfg (discoverOnce (downloader env) debug) (attempts cfg) 0
    = (disc, Fulfilled tasks) →
    downloads cfg concurrent debug (downloader env) tasks schedule = (down, Running s) →
    Orchestrated cfg concurrent debug env schedule
      (Launch true :: auth ++ Awaited Authenticating true
         :: disc ++ Awaited Discovering true :: down)
      Pending
| downloads_rejected auth disc tasks down :
    launch env = true →
    retryBackoff cfg (loginOnce (downloader env)) (attempts cfg) 0
    = (auth, Fulfilled ()) →
    retryBackoff cfg (discoverOnce (downloader env) debug) (attempts cfg) 0
    = (disc, Fulfilled tasks) →
    downloads cfg concurrent debug (downloader env) tasks schedule = (down, Errored) →
    Orchestrated cfg concurrent debug env schedule
      (Launch true :: auth ++ Awaited Authenticating true
         :: disc ++ Awaited Discovering true
         :: down ++ [Awaited Downloading false; ConsoleError; Close])
      (Exit 1)
| downloads_completed auth disc tasks down results :
    launch env = true →
    retryBackoff cfg (loginOnce (downloader env)) (attempts cfg) 0
    = (auth, Fulfilled ()) →
    retryBackoff cfg (discoverOnce (downloader env) debug) (attempts cfg) 0
    = (disc, Fulfilled tasks) →
    downloads cfg concurrent debug (downloader env) tasks schedule
    = (down, Completed results) →
    Orchestrated cfg concurrent debug env schedule
      (Launch true :: auth ++ Awaited Authenticating true
         :: disc ++ Awaited Discovering true
         :: down ++ Awaited Downloading true :: (finish env results).1)
      (finish env results).2.

(** A call that did not succeed, or no call at all. *)
Definition unsuccessful (e : Event) : Prop :=
  match e with
  | Login ok | Discover _ ok => ok = false
  | _ => True
  end.

(** The options [main] reads, as the command line gives them. *)
Definition retriesOf (cl : CommandLine) : num := default (Int 3) (opt_retries cl).
Definition concurrencyOf (cl : CommandLine) : num := default (Int 4) (opt_concurrency cl).

(** The object [main] prints in debug mode. *)
Definition censor : Obj :=
  <["user" := VStr "<censored>"]> (<["password" := VStr "<censored>"]> ∅).

(** A question at the terminal. *)
Definition isPrompt (e : Event) : Prop :=
  match e with
  | Prompt _ => True
  | _ => False
  end.

(** The browser is acquired: [puppeteer.launch()] was called. *)
Definition isLaunch (e : Event) : Prop :=
  match e with
  | Launch _ => True
  | _ => False
  end.

(** ** Further notions *)

(** The nine properties of a configuration object. *)
Definition configurationKeys : list string :=
  ["user"; "password"; "output"; "format"; "retries"; "delay"; "concurrency";
   "debug"; "courseUrl"]%string.

(** No character of the string is a line terminator. *)
Definition sameLine (s : string) : Prop :=
  forallb (λ c, negb (lineTerminator c)) (list_ascii_of_string s) = true.

(** What the three pipelines of [main] put on the trace, for a retry
    policy and a debug flag: the fixed console lines, the calls of the
    capabilities, the timers the policy prescribes and, in debug mode,
    the values [trace] prints. *)
Inductive Emitted (cfg : BackoffConfig) (debug : bool) : Event → Prop :=
| emit_logging_in : Emitted cfg debug (Log (Text "Logging in..."))
| emit_login ok : Emitted cfg debug (Login ok)
| emit_logged_in : Emitted cfg debug (Log (Text "Logged in."))
| emit_wait k ms : retryDecision cfg k = Delay ms → Emitted cfg debug (Wait ms)
| emit_getting : Emitted cfg debug (Log (Text "Getting download tasks..."))
| emit_discover ts ok : Emitted cfg debug (Discover ts ok)
| emit_created : debug = true → Emitted cfg debug (Log (Text "Created download task:"))
| emit_dump_task t : debug = true → Emitted cfg debug (Log (DumpTask t))
| emit_scheduled (n : nat) :
    Emitted cfg debug (Log (Text ("Scheduled " +:+ pretty n +:+ " download tasks.")))
| emit_dump_tasks ts : debug = true → Emitted cfg debug (Log (DumpTasks ts))
| emit_downloading : Emitted cfg debug (Log (Text "Downloading..."))
| emit_task task_name :
    Emitted cfg debug (Log (Text ("Downloading task: " +:+ task_name)))
| emit_perform p t : Emitted cfg debug (Perform p t)
| emit_performed p ok : Emitted cfg debug (Performed p ok)
| emit_complete task_name :
    Emitted cfg debug (Log (Text ("Download complete: " +:+ task_name)))
| emit_dump_result r : debug = true → Emitted cfg debug (Log (DumpResult r)).

(** What [main] itself puts on the trace around the pipelines. *)
Definition ofMain (e : Event) : Prop :=
  match e with
  | Launch _ | Awaited _ _ | Report _ | Close | ConsoleError => True
  | Log (Text s) => s = "Done."%string
  | _ => False
  end.

(** What a run that gets past [getConfiguration] puts on the trace before
    the browser is launched: the prompts and, in debug mode, the dump. *)
Definition ofConfigured (debug : bool) (e : Event) : Prop :=
  match e with
  | Prompt _ => True
  | Log (Text s) => s = "Configuration:"%string ∧ debug = true
  | Log (Dump _) => debug = true
  | _ => False
  end.

(** A console line that prints a value rather than a text. *)
Definition dumps (e : Event) : bool :=
  match e with
  | Log (Text _) => false
  | Log _ => true
  | _ => false
  end.

(** The browser is launched, an awaited pipeline returns or throws. *)
Definition ofAwait (e : Event) : Prop :=
  match e with
  | Launch _ | Awaited _ _ => True
  | _ => False
  end.

(** How a run that got to [puppeteer.launch()] ends: still waiting for a
    pipeline; in the [catch] block, without a browser or with one; or
    after [reportResults], which returned or threw, and [browser.close()],
    which was fulfilled or rejected. *)
Inductive Ending (env : Environment) : list Event → Outcome → Prop :=
| end_pending : Ending env [] Pending
| end_no_browser : launch env = false → Ending env [ConsoleError] (Exit 1)
| end_rejected : Ending env [ConsoleError; Close] (Exit 1)
| end_done results :
    reportResults (downloader env) results = true → close env = true →
    Ending env [Report results; Close; Log (Text "Done.")] Done
| end_close_rejected results :
    reportResults (downloader env) results = true → close env = false →
    Ending env [Report results; Close; ConsoleError; Close] (Exit 1)
| end_report_throws results :
    reportResults (downloader env) results = false →
    Ending env [Report results; ConsoleError; Close] (Exit 1).

(** The number of [browser.close()] calls of a trace. *)
Definition closes (t : list Event) : nat :=
  length (omap (λ e, match e with Close => Some () | _ => None end) t).

(** The delay the policy prescribes after failure number [i]. *)
Definition delayOf (cfg : BackoffConfig) (i : nat) : Z :=
  getDelay (exponentialBackoffDelay i (initialInterval cfg)) (maxInterval cfg).

(** The trace of a retry sequence whose subscriptions number [index] to
    [index + k - 1] fail and are retried: each is followed by its timer,
    and subscription number [index + k] comes last. *)
Fixpoint tries {A} (cfg : BackoffConfig) (subscribe : nat → list Event * option A)
    (index k : nat) : list Event :=
  match k with
  | 0 => (subscribe index).1
  | S k' =>
      (subscribe index).1 ++ Wait (delayOf cfg index) :: tries cfg subscribe (S index) k'
  end.

(** What is left of [s] after the prefix [p], when [s] starts with it. *)
Fixpoint after_prefix (p s : string) : option string :=
  match p with
  | EmptyString => Some s
  | String a p' =>
      match s with
      | String b s' => if Ascii.eqb a b then after_prefix p' s' else None
      | EmptyString => None
      end
  end.

(** The task names of the "Downloading task" lines of a trace. *)
Definition started (t : list Event) : list string :=
  omap (λ e, match e with
             | Log (Text s) => after_prefix "Downloading task: " s
             | _ => None
             end) t.

(** The number of [performDownload] calls for the task at position [p]. *)
Definition calls (p : nat) (t : list Event) : nat :=
  length (omap (λ e, match e with
                     | Perform q _ => if bool_decide (q = p) then Some () else None
                     | _ => None
                     end) t).

(** An inner subscription belongs to one of the first [k] tasks, is
    within its budget, and its failure counter bounds the calls made for
    its task. *)
Definition tracked (cfg : BackoffConfig) (k : nat) (t : list Event) (i : Inner) : Prop :=
  in_position i < k ∧ in_index i < attempts cfg
  ∧ calls (in_position i) t ≤ in_index i + (if in_waiting i then 0 else 1).

(** The trace [t] and the merge subscriber [s] when [j] tasks were handed
    to the merge and the first [k] of them were started, in the order of
    the array. *)
Definition coupled (cfg : BackoffConfig) (n : Z) (tasks : list Task) (j k : nat)
    (t : list Event) (s : MergeMap) : Prop :=
  k ≤ j
  ∧ started t = name <$> take k tasks
  ∧ buffer s = drop k (take j (enumerate tasks))
  ∧ windowed n s
  ∧ Forall (tracked cfg k t) (active s)
  ∧ NoDup (in_position <$> active s)
  ∧ (∀ p, k ≤ p → calls p t = 0)
  ∧ (∀ p, calls p t ≤ attempts cfg).

(** One download at a time: at most one inner subscription, within its
    budget, and the results, the active task and the held-back tasks
    follow one another in the order of the task array. *)
Definition inOrder (cfg : BackoffConfig) (d : Downloader) (total : nat) (s : MergeMap)
  : Prop :=
  length (active s) ≤ 1
  ∧ Forall (onTrack cfg d) (active s)
  ∧ fates cfg d s = fate cfg d <$> seq 0 total.

(** ** Sample inputs *)

Definition sampleTasks : list Task :=
  [ {| name := "intro"; page := "/intro" |};
    {| name := "week1"; page := "/week1" |};
    {| name := "week2"; page := "/week2" |} ].

Definition saved (t : Task) : DownloadResult :=
  {| task := t; file := name t +:+ ".pdf" |}.

(** A site where everything works at once. *)
Definition reliable : Downloader :=
  {| login := λ _, true;
     getDownloadTasks := λ _, (sampleTasks, true);
     performDownload := λ p _, saved <$> sampleTasks !! p;
     reportResults := λ _, true |}.

(** The same site, but the page at position 1 can never be saved. *)
Definition brokenPage : Downloader :=
  {| login := λ _, true;
     getDownloadTasks := λ _, (sampleTasks, true);
     performDownload := λ p _, if bool_decide (p = 1) then None
                               else saved <$> sampleTasks !! p;
     reportResults := λ _, true |}.

(** The same site, but the first login fails. *)
Definition slowLogin : Downloader :=
  {| login := λ k, bool_decide (k ≠ 0);
     getDownloadTasks := λ _, (sampleTasks, true);
     performDownload := λ p _, saved <$> sampleTasks !! p;
     reportResults := λ _, true |}.

(** The same site, but the task list can never be read. *)
Definition noTaskList : Downloader :=
  {| login := λ _, true;
     getDownloadTasks := λ _, ([], false);
     performDownload := λ p _, saved <$> sampleTasks !! p;
     reportResults := λ _, true |}.

Definition world (d : Downloader) : Environment :=
  {| answerUser := "student@example.org"; answerPassword := "hunter2";
     launch := true; downloader := d; close := true |}.

(** [edx-archive -r 1 -c N --debug URL], credentials typed at the prompt. *)
Definition commandLine (N : num) : CommandLine :=
  {| args := ["https://courses.edx.org/courses/course-v1:X+1+2020/course/"%string];
     opt_user := None; opt_password := None; opt_output := None;
     opt_format := None; opt_retries := Some (Int 1); opt_delay := None;
     opt_concurrency := Some N; opt_debug := true |}.

(** * Properties *)

(** ** The retry policy *)

Lemma num_lt_Int (x y : Z) : num_lt (Int x) (Int y) = bool_decide (x < y)%Z.
Proof. reflexivity. Qed.

Lemma retryDecision_Delay (cfg : BackoffConfig) (r : Z) (k : nat) :
  maxRetries cfg = Int r → (Z.of_nat k < r)%Z →
  retryDecision cfg k
  = Delay (Z.min (2 ^ Z.of_nat k * initialInterval cfg) (maxInterval cfg)).
Proof.
  intros Hr Hk. unfold retryDecision, getDelay, exponentialBackoffDelay.
  rewrite Hr, num_lt_Int, bool_decide_eq_true_2; done.
Qed.

Lemma retryDecision_Exhausted (cfg : BackoffConfig) (r : Z) (k : nat) :
  maxRetries cfg = Int r → (r ≤ Z.of_nat k)%Z → retryDecision cfg k = Exhausted.
Proof.
  intros Hr Hk. unfold retryDecision.
  rewrite Hr, num_lt_Int, bool_decide_eq_false_2; [done | lia].
Qed.

(** C3.  With [maxRetries = r >= 0] and a non-negative initial interval:
    after each failed attempt number [a] in [1, r] the policy answers with
    the delay [min (initial * 2^(a-1)) max]; for attempts [a <= b] of that
    range the delay of [a] is at most the delay of [b], which is at most
    [max]; after failed attempt number [r + 1] it answers [Exhausted]. *)
Theorem backoffPolicy_delays (cfg : BackoffConfig) (r : Z) :
  maxRetries cfg = Int r → (0 ≤ r)%Z → (0 ≤ initialInterval cfg)%Z →
  (∀ a b : nat, 1 ≤ a → a ≤ b → (Z.of_nat b ≤ r)%Z →
     ∃ da db,
       backoffPolicy cfg a = Delay da ∧ backoffPolicy cfg b = Delay db
       ∧ da = Z.min (initialInterval cfg * 2 ^ (Z.of_nat a - 1)) (maxInterval cfg)
       ∧ (da ≤ db)%Z ∧ (db ≤ maxInterval cfg)%Z)
  ∧ backoffPolicy cfg (Z.to_nat r + 1) = Exhausted.
Proof.
  intros Hr Hr0 Hi. split.
  - intros a b Ha Hab Hb. unfold backoffPolicy.
    rewrite !(retryDecision_Delay cfg r) by (done || lia).
    eexists _, _. split_and!; [done | done | | | lia].
    + rewrite Nat2Z.inj_sub by lia. f_equal. lia.
    + apply Z.min_le_compat_r, Z.mul_le_mono_nonneg_r; [done |].
      apply Z.pow_le_mono_r; lia.
  - unfold backoffPolicy. apply (retryDecision_Exhausted cfg r); [done | lia].
Qed.

Lemma backoffPolicy_delays_witness :
  (∀ a b : nat, 1 ≤ a → a ≤ b → (Z.of_nat b ≤ 3)%Z →
     ∃ da db,
       backoffPolicy (backoffConfig (Int 3)) a = Delay da
       ∧ backoffPolicy (backoffConfig (Int 3)) b = Delay db
       ∧ da = Z.min (5000 * 2 ^ (Z.of_nat a - 1)) 60000
       ∧ (da ≤ db)%Z ∧ (db ≤ 60000)%Z)
  ∧ backoffPolicy (backoffConfig (Int 3)) 4 = Exhausted.
Proof.
  apply (backoffPolicy_delays (backoffConfig (Int 3)) 3); [reflexivity | lia | simpl; lia].
Defined.

(** ** The store, [clone] and the configuration *)

Lemma Object_assign_spec (target source : loc) (t s : Obj) (h : Heap) :
  h !! target = Some t → h !! source = Some s →
  Object_assign target source h = (target, <[target := s ∪ t]> h).
Proof. intros Ht Hs. unfold Object_assign. by rewrite Ht, Hs. Qed.

Lemma lookup_snoc_old (h : Heap) (o : Obj) (l : loc) (x : Obj) :
  h !! l = Some x → (h ++ [o]) !! l = Some x.
Proof. intros H. by apply lookup_app_l_Some. Qed.

Lemma lookup_snoc_new (h : Heap) (o : Obj) : (h ++ [o]) !! length h = Some o.
Proof. by rewrite list_lookup_middle. Qed.

Lemma insert_snoc (h : Heap) (o o' : Obj) : <[length h := o']> (h ++ [o]) = h ++ [o'].
Proof.
  replace (length h) with (length h + 0) at 1 by lia. by rewrite insert_app_r.
Qed.

(** [clone(object, overwrite)] leaves every existing object as it is and
    returns a new object: [object]'s properties, overridden by
    [overwrite]'s. *)
Lemma clone_overwrite (object ow : loc) (o w : Obj) (h : Heap) :
  h !! object = Some o → h !! ow = Some w →
  clone object (Some ow) h = (length h, h ++ [w ∪ o]).
Proof.
  intros Ho Hw. unfold clone, alloc.
  rewrite (Object_assign_spec _ _ ∅ o)
    by (apply lookup_snoc_new || by apply lookup_snoc_old).
  rewrite insert_snoc.
  rewrite (Object_assign_spec _ _ (o ∪ ∅) w)
    by (apply lookup_snoc_new || by apply lookup_snoc_old).
  by rewrite insert_snoc, (right_id_L ∅ (∪)).
Qed.

Lemma clone_default (object : loc) (o : Obj) (h : Heap) :
  h !! object = Some o → clone object None h = (S (length h), h ++ [∅; o]).
Proof.
  intros Ho. unfold clone, alloc.
  replace (length (h ++ [∅])) with (S (length h)) by (rewrite length_app; simpl; lia).
  assert (Hlen : S (length h) = length (h ++ [∅ : Obj]))
    by (rewrite length_app; simpl; lia).
  rewrite (Object_assign_spec _ _ ∅ o);
    [| rewrite Hlen; apply lookup_snoc_new | by do 2 apply lookup_snoc_old].
  rewrite Hlen at 2. rewrite insert_snoc.
  rewrite (Object_assign_spec _ _ (o ∪ ∅) ∅);
    [| rewrite Hlen; apply lookup_snoc_new
     | apply lookup_snoc_old, lookup_snoc_new].
  rewrite Hlen at 2. rewrite insert_snoc.
  by rewrite (right_id_L ∅ (∪)), (left_id_L ∅ (∪)), <- app_assoc.
Qed.

Local Arguments opts : simpl never.
Local Arguments attempts : simpl never.
Local Arguments loginOnce : simpl never.
Local Arguments discoverOnce : simpl never.

Lemma getConfiguration_Configured cl env t c h :
  getConfiguration cl env [] = (t, Configured c, h) →
  ∃ course_url,
    args cl = [course_url] ∧ courseUrlPattern course_url = true
    ∧ c = 2 ∧ h = [opts cl; ∅; configured cl env course_url].
Proof.
  unfold getConfiguration. case_bool_decide; [done |].
  destruct (args cl) as [| course_url [|]]; [done | | done].
  destruct (courseUrlPattern course_url) eqn:Hurl; [| done].
  unfold alloc. simpl app.
  rewrite (clone_default 0 (opts cl)) by done. simpl app.
  assert (Hu : opts cl !! "user" = Some (optional (opt_user cl))) by done.
  assert (Hp : opts cl !! "password" = Some (optional (opt_password cl))) by done.
  unfold configured, set, get. simpl.
  rewrite lookup_insert_ne, Hu by done. simpl.
  destruct (truthy (optional (opt_user cl))); simpl;
    rewrite ?lookup_insert_ne by done; rewrite Hp; simpl;
    destruct (truthy (optional (opt_password cl))); simpl;
    intros [= <- <- <-]; by exists course_url.
Qed.

(** ** What each pipeline emits *)

Lemma retryBackoff_Forall {A} (P : Event → Prop) cfg
    (subscribe : nat → list Event * option A) fuel index :
  (∀ k, Forall P (subscribe k).1) → (∀ ms, P (Wait ms)) →
  Forall P (retryBackoff cfg subscribe fuel index).1.
Proof.
  intros Hsub Hwait. revert index.
  induction fuel as [| fuel IH]; intros index; simpl; [done |].
  specialize (Hsub index). destruct (subscribe index) as [t [a |]]; [done |].
  destruct (retryDecision cfg index); [| done].
  specialize (IH (S index)).
  destruct (retryBackoff cfg subscribe fuel (S index)) as [t' r']. simpl in *.
  apply Forall_app. split; [done |]. by constructor.
Qed.

Lemma login_events cfg d fuel index :
  Forall ofLogin (retryBackoff cfg (loginOnce d) fuel index).1.
Proof.
  apply retryBackoff_Forall; [| done].
  intros k. unfold loginOnce, when. simpl.
  case_bool_decide; destruct (login d k); simpl; repeat constructor.
Qed.

Lemma discovery_events cfg d debug fuel index :
  Forall ofDiscovery (retryBackoff cfg (discoverOnce d debug) fuel index).1.
Proof.
  apply retryBackoff_Forall; [| done].
  intros k. unfold discoverOnce, when.
  destruct (getDownloadTasks d k) as [emitted ok]. simpl.
  apply Forall_app. split; [case_bool_decide; repeat constructor |].
  constructor; [done |]. apply Forall_app. split.
  - destruct debug; [| done]. induction emitted; simpl; repeat constructor; done.
  - destruct ok, debug; repeat constructor.
Qed.

Lemma project_events debug v : Forall ofDownload (project debug v).1.
Proof. unfold project, when. simpl. destruct debug; repeat constructor. Qed.

Lemma next_events concurrent debug v s : Forall ofDownload (next concurrent debug v s).1.
Proof.
  unfold next. destruct (num_lt _ _); [| done].
  pose proof (project_events debug v) as H.
  by destruct (project debug v).
Qed.

Lemma feed_events concurrent debug vs s : Forall ofDownload (feed concurrent debug vs s).1.
Proof.
  revert s. induction vs as [| v vs IH]; intros s; simpl; [done |].
  pose proof (next_events concurrent debug v s) as H.
  destruct (next concurrent debug v s) as [t s1].
  specialize (IH s1). destruct (feed concurrent debug vs s1). simpl in *.
  by apply Forall_app.
Qed.

Lemma notifyComplete_events concurrent debug i s :
  Forall ofDownload (notifyComplete concurrent debug i s).1.
Proof.
  unfold notifyComplete. destruct (buffer s); [done |]. apply next_events.
Qed.

Lemma settle_events cfg concurrent debug d choice s :
  Forall ofDownload (settle cfg concurrent debug d choice s).1.
Proof.
  unfold settle. destruct (active s !! _) as [inner |]; [| done].
  destruct (in_waiting inner); [repeat constructor |].
  destruct (performDownload d _ _) as [result |].
  - match goal with |- context [notifyComplete ?c ?b ?i ?s] =>
      pose proof (notifyComplete_events c b i s) as H;
      destruct (notifyComplete c b i s) end.
    simpl in *. do 2 constructor; try done.
    apply Forall_app. split; [| done]. unfold when. destruct debug; repeat constructor.
  - destruct (retryDecision cfg _); repeat constructor.
Qed.

Lemma drive_events cfg concurrent debug d schedule s :
  Forall ofDownload (drive cfg concurrent debug d schedule s).1.
Proof.
  revert s. induction schedule as [| choice schedule IH]; intros s; simpl.
  - by destruct (active s), (buffer s).
  - destruct (active s) eqn:Ha; [by destruct (buffer s) |].
    pose proof (settle_events cfg concurrent debug d choice s) as H.
    destruct (settle cfg concurrent debug d choice s) as [t [s' |]]; [| done].
    specialize (IH s'). destruct (drive cfg concurrent debug d schedule s').
    simpl in *. by apply Forall_app.
Qed.

Lemma downloads_events cfg concurrent debug d tasks schedule :
  Forall ofDownload (downloads cfg concurrent debug d tasks schedule).1.
Proof.
  unfold downloads.
  match goal with |- context [feed ?c ?b ?v ?s] =>
    pose proof (feed_events c b v s) as H; destruct (feed c b v s) as [t0 s0] end.
  pose proof (drive_events cfg concurrent debug d schedule s0) as H'.
  destruct (drive cfg concurrent debug d schedule s0). simpl in *.
  constructor; [done |]. by apply Forall_app.
Qed.

(** ** The merge subscriber *)

Section merge.
Context (cfg : BackoffConfig) (concurrent : num) (debug : bool) (d : Downloader).

Lemma settle_Move choice s :
  active s ≠ [] → Move cfg concurrent debug d s (settle cfg concurrent debug d choice s).2.
Proof.
  intros Hne. unfold settle.
  assert (Hi : choice `mod` length (active s) < length (active s)).
  { apply Nat.mod_upper_bound. by destruct (active s). }
  destruct (lookup_lt_is_Some_2 _ _ Hi) as [inner Hinner]. rewrite Hinner.
  destruct (in_waiting inner) eqn:Hw; [by eapply move_resume |].
  destruct (performDownload d _ _) as [result |] eqn:Hp.
  - pose proof (move_fulfil cfg concurrent debug d s _ _ _ Hinner Hw Hp) as H.
    by destruct (notifyComplete _ _ _ _).
  - destruct (retryDecision cfg _) eqn:Hd;
      [by eapply move_backoff | by eapply move_exhaust].
Qed.

Lemma drive_Running schedule s t s' :
  drive cfg concurrent debug d schedule s = (t, Running s') →
  reachable cfg concurrent debug d s s'.
Proof.
  revert s t. induction schedule as [| choice schedule IH]; intros s t; simpl.
  - destruct (active s), (buffer s); intros; simplify_eq; constructor.
  - destruct (active s) as [| i0 l] eqn:Ha.
    { destruct (buffer s); intros; simplify_eq; constructor. }
    pose proof (settle_Move choice s) as Hm. rewrite Ha in Hm.
    specialize (Hm ltac:(done)).
    destruct (settle cfg concurrent debug d choice s) as [t0 [s1 |]]; [| done].
    simpl in Hm.
    destruct (drive cfg concurrent debug d schedule s1) as [t1 p] eqn:Hd.
    intros [= <- ->]. eapply reach_move; [done | by eapply IH].
Qed.

Lemma drive_Completed schedule s t results :
  drive cfg concurrent debug d schedule s = (t, Completed results) →
  ∃ s', reachable cfg concurrent debug d s s'
        ∧ active s' = [] ∧ buffer s' = [] ∧ collected s' = results.
Proof.
  revert s t. induction schedule as [| choice schedule IH]; intros s t; simpl.
  - destruct (active s) eqn:Ha, (buffer s) eqn:Hb; intros [=].
    exists s. split_and!; [constructor | done..].
  - destruct (active s) as [| i0 l] eqn:Ha.
    { destruct (buffer s) eqn:Hb; intros [=].
      exists s. split_and!; [constructor | done..]. }
    pose proof (settle_Move choice s) as Hm. rewrite Ha in Hm.
    specialize (Hm ltac:(done)).
    destruct (settle cfg concurrent debug d choice s) as [t0 [s1 |]]; [| done].
    simpl in Hm.
    destruct (drive cfg concurrent debug d schedule s1) as [t1 p] eqn:Hd.
    intros [= <- ->]. destruct (IH _ _ Hd) as (s' & Hr & H).
    exists s'. split; [| done]. by eapply reach_move.
Qed.

Lemma drive_Errored schedule s t :
  drive cfg concurrent debug d schedule s = (t, Errored) →
  ∃ s', reachable cfg concurrent debug d s s' ∧ Move cfg concurrent debug d s' Failed.
Proof.
  revert s t. induction schedule as [| choice schedule IH]; intros s t; simpl.
  - destruct (active s), (buffer s); intros [=].
  - destruct (active s) as [| i0 l] eqn:Ha.
    { destruct (buffer s); intros [=]. }
    pose proof (settle_Move choice s) as Hm. rewrite Ha in Hm.
    specialize (Hm ltac:(done)).
    destruct (settle cfg concurrent debug d choice s) as [t0 [s1 |]]; simpl in Hm.
    + destruct (drive cfg concurrent debug d schedule s1) as [t1 p] eqn:Hd.
      intros [= <- ->]. destruct (IH _ _ Hd) as (s' & Hr & H).
      exists s'. split; [| done]. by eapply reach_move.
    + intros _. exists s. split; [constructor | done].
Qed.

(** An invariant of the moves holds in every reachable state. *)
Lemma reachable_invariant (I : MergeMap → Prop) s s' :
  (∀ s s', I s → Move cfg concurrent debug d s (Continue s') → I s') →
  reachable cfg concurrent debug d s s' → I s → I s'.
Proof. intros Hstep. induction 1; eauto. Qed.

End merge.

Section window.
Context (cfg : BackoffConfig) (n : Z) (debug : bool) (d : Downloader).

Lemma next_room v s :
  (Z.of_nat (length (active s)) < n)%Z →
  (next (Int n) debug v s).2
  = {| active := active s ++ [(project debug v).2];
       buffer := buffer s; collected := collected s |}.
Proof.
  intros H. unfold next. rewrite num_lt_Int, bool_decide_eq_true_2 by done.
  by destruct (project debug v).
Qed.

Lemma next_full v s :
  (n ≤ Z.of_nat (length (active s)))%Z →
  (next (Int n) debug v s).2
  = {| active := active s; buffer := buffer s ++ [v]; collected := collected s |}.
Proof.
  intros H. unfold next. by rewrite num_lt_Int, bool_decide_eq_false_2 by lia.
Qed.

Lemma next_windowed v s : windowed n s → windowed n (next (Int n) debug v s).2.
Proof.
  intros [Hle Hfull].
  destruct (decide (Z.of_nat (length (active s)) < n)%Z) as [Hlt | Hge].
  - rewrite next_room by done. unfold windowed. simpl.
    rewrite length_app. simpl. split; [lia |].
    intros Hb. specialize (Hfull Hb). lia.
  - rewrite next_full by lia. unfold windowed. simpl. split; [done | lia].
Qed.

Lemma feed_windowed vs s : windowed n s → windowed n (feed (Int n) debug vs s).2.
Proof.
  revert s. induction vs as [| v vs IH]; intros s Hs; simpl; [done |].
  pose proof (next_windowed v s Hs) as H.
  destruct (next (Int n) debug v s) as [t s1].
  specialize (IH s1 H). by destruct (feed (Int n) debug vs s1).
Qed.

Lemma windowed_Move s s' :
  windowed n s → Move cfg (Int n) debug d s (Continue s') → windowed n s'.
Proof.
  intros [Hle Hfull] Hm. inversion Hm as [i inner Hi Hw | i inner result Hi Hw Hp
                                          | i inner ms Hi Hw Hp Hd |]; subst.
  - unfold windowed. simpl. by rewrite length_insert.
  - pose proof (lookup_lt_Some _ _ _ Hi) as Hlt.
    unfold notifyComplete. simpl. destruct (buffer s) as [| v held] eqn:Hb.
    + unfold windowed. simpl. rewrite length_delete by eauto. split; [lia | done].
    + specialize (Hfull ltac:(done)).
      rewrite next_room by (simpl; rewrite length_delete by eauto; lia).
      unfold windowed. simpl. rewrite length_app, length_delete by eauto.
      simpl. split; [lia |]. intros _. lia.
  - unfold windowed. simpl. by rewrite length_insert.
Qed.

Lemma reachable_windowed s s' :
  windowed n s → reachable cfg (Int n) debug d s s' → windowed n s'.
Proof.
  intros Hs Hr. eapply (reachable_invariant cfg (Int n) debug d (windowed n)); [| done..].
  intros ? ?. apply windowed_Move.
Qed.

End window.

Section accounting.
Context (cfg : BackoffConfig) (concurrent : num) (debug : bool) (d : Downloader).

Lemma retryDecision_Delay_lt k ms :
  retryDecision cfg k = Delay ms → S k < attempts cfg.
Proof.
  unfold retryDecision, attempts. destruct (maxRetries cfg) as [| z]; [done |].
  rewrite num_lt_Int. case_bool_decide; [lia | done].
Qed.

Lemma retryDecision_Exhausted_ge k :
  retryDecision cfg k = Exhausted → attempts cfg ≤ S k.
Proof.
  unfold retryDecision, attempts. destruct (maxRetries cfg) as [| z]; [lia |].
  rewrite num_lt_Int. case_bool_decide; [done | lia].
Qed.

Lemma fateFrom_fulfilled p k result :
  k < attempts cfg → performDownload d p k = Some result →
  fateFrom cfg d p k = Fulfilled result.
Proof.
  intros Hk Hp. unfold fateFrom.
  destruct (attempts cfg - k) as [| fuel] eqn:Hf; [lia |]. simpl. by rewrite Hp.
Qed.

Lemma fateFrom_retry p k ms :
  performDownload d p k = None → retryDecision cfg k = Delay ms →
  fateFrom cfg d p k = fateFrom cfg d p (S k).
Proof.
  intros Hp Hd. pose proof (retryDecision_Delay_lt _ _ Hd) as Hk. unfold fateFrom.
  replace (attempts cfg - k) with (S (attempts cfg - S k)) by lia.
  simpl. rewrite Hp, Hd. by destruct (retryBackoff _ _ _ _).
Qed.

Lemma fateFrom_exhausted p k :
  k < attempts cfg → performDownload d p k = None →
  retryDecision cfg k = Exhausted → fateFrom cfg d p k = Rejected.
Proof.
  intros Hk Hp Hd. unfold fateFrom.
  destruct (attempts cfg - k) as [| fuel] eqn:Hf; [lia |]. simpl. by rewrite Hp, Hd.
Qed.

(** The fate of a task in terms of [performDownload]: the first
    fulfilled attempt within the budget, or none. *)
Lemma fateFrom_cases p index :
  index < attempts cfg →
  (∃ k result,
      index ≤ k < attempts cfg ∧ performDownload d p k = Some result
      ∧ (∀ j, index ≤ j < k → performDownload d p j = None)
      ∧ fateFrom cfg d p index = Fulfilled result)
  ∨ ((∀ j, index ≤ j < attempts cfg → performDownload d p j = None)
     ∧ fateFrom cfg d p index = Rejected).
Proof.
  remember (attempts cfg - index) as fuel eqn:Hf. revert index Hf.
  induction fuel as [| fuel IH]; intros index Hf Hlt; [lia |].
  destruct (performDownload d p index) as [result |] eqn:Hp.
  - left. exists index, result. split_and!; [lia | lia | done | intros; lia |].
    by apply fateFrom_fulfilled.
  - destruct (retryDecision cfg index) as [ms |] eqn:Hd.
    + pose proof (retryDecision_Delay_lt _ _ Hd) as Hk.
      rewrite (fateFrom_retry _ _ _ Hp Hd).
      destruct (IH (S index)) as [(k & result & Hk' & Hs & Hn & Hfate) | [Hn Hfate]];
        [lia | lia | |].
      * left. exists k, result. split_and!; [lia | lia | done | | done].
        intros j Hj. destruct (decide (j = index)) as [-> |]; [done |].
        apply Hn. lia.
      * right. split; [| done].
        intros j Hj. destruct (decide (j = index)) as [-> |]; [done |].
        apply Hn. lia.
    + pose proof (retryDecision_Exhausted_ge _ Hd) as Hk. right. split.
      * intros j Hj. by replace j with index by lia.
      * by apply fateFrom_exhausted.
Qed.

Lemma attempts_pos : 0 < attempts cfg.
Proof. unfold attempts. lia. Qed.

Lemma fate_Fulfilled p :
  (∃ k result, k < attempts cfg ∧ performDownload d p k = Some result) →
  ∃ result, fate cfg d p = Fulfilled result.
Proof.
  intros (k & result & Hk & Hp).
  destruct (fateFrom_cases p 0 attempts_pos) as [(? & r & ? & ? & ? & Hf) | [Hn _]];
    [by exists r |].
  rewrite Hn in Hp by lia. done.
Qed.

Lemma fate_Rejected p :
  (∀ k, k < attempts cfg → performDownload d p k = None) → fate cfg d p = Rejected.
Proof.
  intros Hn.
  destruct (fateFrom_cases p 0 attempts_pos) as [(k & r & ? & Hp & _) | [_ Hf]];
    [| done].
  rewrite Hn in Hp by lia. done.
Qed.

Lemma project_onTrack v : onTrack cfg d (project debug v).2.
Proof. split; [apply attempts_pos | done]. Qed.

Lemma next_either v s (P : MergeMap → Prop) :
  P {| active := active s ++ [(project debug v).2];
       buffer := buffer s; collected := collected s |} →
  P {| active := active s; buffer := buffer s ++ [v]; collected := collected s |} →
  P (next concurrent debug v s).2.
Proof.
  intros H1 H2. unfold next. destruct (num_lt _ _); [| done].
  by destruct (project debug v).
Qed.

Lemma next_fates v s :
  fates cfg d (next concurrent debug v s).2 ≡ₚ fates cfg d s ++ [fate cfg d v.1].
Proof.
  apply next_either; unfold fates; simpl; rewrite fmap_app; simpl; solve_Permutation.
Qed.

Lemma next_onTrack v s :
  Forall (onTrack cfg d) (active s) →
  Forall (onTrack cfg d) (active (next concurrent debug v s).2).
Proof.
  intros H. apply next_either; simpl; [| done].
  apply Forall_app. split; [done |]. constructor; [| done]. apply project_onTrack.
Qed.

Lemma next_placed tasks v s :
  tasks !! v.1 = Some v.2 → placed tasks s → placed tasks (next concurrent debug v s).2.
Proof.
  intros Hv [Ha Hb]. apply next_either; split; simpl; try done.
  - apply Forall_app. split; [done |]. by constructor.
  - apply Forall_app. split; [done |]. by constructor.
Qed.

Lemma next_load v s :
  load cfg (next concurrent debug v s).2 = load cfg s + (2 * attempts cfg - 1).
Proof.
  apply next_either; unfold load; simpl.
  - rewrite fmap_app, sum_list_with_app || rewrite fmap_app. simpl.
    unfold weight at 2. simpl. rewrite ?sum_list_app. simpl. lia.
  - rewrite length_app. simpl. lia.
Qed.

End accounting.

Section moves.
Context (cfg : BackoffConfig) (concurrent : num) (debug : bool) (d : Downloader).

Lemma fmap_insert_same {A B} (f : A → B) (l : list A) i x y :
  l !! i = Some x → f y = f x → f <$> <[i := y]> l = f <$> l.
Proof.
  intros Hi Hf. rewrite list_fmap_insert. apply list_insert_id.
  by rewrite list_lookup_fmap, Hi, Hf.
Qed.

Lemma sum_list_fmap_insert {A} (f : A → nat) (l : list A) i x y :
  l !! i = Some x →
  sum_list (f <$> <[i := y]> l) + f x = sum_list (f <$> l) + f y.
Proof.
  revert i. induction l as [| a l IH]; intros [| i] Hi; simplify_eq/=; [lia |].
  specialize (IH _ Hi). lia.
Qed.

Lemma sum_list_fmap_delete {A} (f : A → nat) (l : list A) i x :
  l !! i = Some x → sum_list (f <$> delete i l) + f x = sum_list (f <$> l).
Proof.
  revert i. induction l as [| a l IH]; intros [| i] Hi; simplify_eq/=; [lia |].
  specialize (IH _ Hi). lia.
Qed.

Lemma placed_Move tasks s s' :
  placed tasks s → Move cfg concurrent debug d s (Continue s') → placed tasks s'.
Proof.
  intros [Ha Hb] Hm.
  inversion Hm as [i inner Hi Hw | i inner result Hi Hw Hp
                   | i inner ms Hi Hw Hp Hd |]; subst.
  - split; simpl; [| done]. apply Forall_insert; [done |].
    exact (Forall_lookup_1 _ _ _ _ Ha Hi).
  - unfold notifyComplete. simpl. destruct (buffer s) as [| v held] eqn:Hbuf.
    + split; simpl; [by apply Forall_delete | done].
    + apply Forall_cons in Hb as [Hv Hheld].
      apply next_placed; [done |]. split; simpl; [by apply Forall_delete | done].
  - split; simpl; [| done]. apply Forall_insert; [done |].
    exact (Forall_lookup_1 _ _ _ _ Ha Hi).
Qed.

Lemma accounted_Move total s s' :
  accounted cfg d total s → Move cfg concurrent debug d s (Continue s') →
  accounted cfg d total s'.
Proof.
  intros [Ha Hf] Hm.
  inversion Hm as [i inner Hi Hw | i inner result Hi Hw Hp
                   | i inner ms Hi Hw Hp Hd |]; subst;
    pose proof (Forall_lookup_1 _ _ _ _ Ha Hi) as [Hk Hfate].
  - split; simpl.
    + apply Forall_insert; [done |]. by split.
    + rewrite <- Hf. unfold fates. simpl. by erewrite fmap_insert_same.
  - assert (Hr : fate cfg d (in_position inner) = Fulfilled result).
    { rewrite <- Hfate. by apply fateFrom_fulfilled. }
    assert (Hperm : ∀ b,
      fates cfg d {| active := delete i (active s); buffer := b;
                     collected := collected s ++ [result] |}
      ≡ₚ fates cfg d {| active := active s; buffer := b; collected := collected s |}).
    { intros b. unfold fates. simpl.
      rewrite (delete_Permutation (active s) i inner) at 2 by done.
      rewrite fmap_app. simpl. rewrite Hr. solve_Permutation. }
    unfold notifyComplete. simpl. destruct (buffer s) as [| v held] eqn:Hbuf.
    + split; simpl; [by apply Forall_delete |].
      rewrite Hperm, <- Hf. unfold fates. by rewrite Hbuf.
    + split.
      * apply next_onTrack. simpl. by apply Forall_delete.
      * rewrite next_fates, Hperm, <- Hf. unfold fates. rewrite Hbuf. simpl.
        solve_Permutation.
  - split; simpl.
    + apply Forall_insert; [done |]. split; simpl.
      * by eapply retryDecision_Delay_lt.
      * by erewrite <- fateFrom_retry.
    + rewrite <- Hf. unfold fates. simpl. by erewrite fmap_insert_same.
Qed.

Lemma load_Move total s s' :
  accounted cfg d total s → Move cfg concurrent debug d s (Continue s') →
  load cfg s' < load cfg s.
Proof.
  intros [Ha _] Hm.
  inversion Hm as [i inner Hi Hw | i inner result Hi Hw Hp
                   | i inner ms Hi Hw Hp Hd |]; subst;
    pose proof (Forall_lookup_1 _ _ _ _ Ha Hi) as [Hk _].
  - unfold load. simpl.
    pose proof (sum_list_fmap_insert (weight cfg) _ _ _ (resume inner) Hi) as H.
    revert H. generalize (sum_list (weight cfg <$> active s)).
    generalize (sum_list (weight cfg <$> <[i:=resume inner]> (active s))).
    unfold weight. cbn [resume in_index in_waiting]. rewrite Hw. lia.
  - assert (Hpos : 0 < weight cfg inner) by (unfold weight; rewrite Hw; lia).
    pose proof (sum_list_fmap_delete (weight cfg) _ _ _ Hi) as H.
    unfold notifyComplete. simpl. destruct (buffer s) as [| v held] eqn:Hbuf.
    + unfold load. simpl. rewrite Hbuf. simpl. lia.
    + rewrite next_load. unfold load. cbn [active buffer]. rewrite Hbuf.
      generalize (2 * attempts cfg - 1). intros W. cbn [length]. lia.
  - pose proof (retryDecision_Delay_lt _ _ _ Hd) as Hlt.
    unfold load. simpl.
    pose proof (sum_list_fmap_insert (weight cfg) _ _ _ (backoff inner) Hi) as H.
    revert H. generalize (sum_list (weight cfg <$> active s)).
    generalize (sum_list (weight cfg <$> <[i:=backoff inner]> (active s))).
    unfold weight. cbn [backoff in_index in_waiting]. rewrite Hw. lia.
Qed.

Lemma reachable_placed tasks s s' :
  placed tasks s → reachable cfg concurrent debug d s s' → placed tasks s'.
Proof.
  intros Hs Hr.
  eapply (reachable_invariant cfg concurrent debug d (placed tasks)); [| done..].
  intros ? ?. apply placed_Move.
Qed.

Lemma reachable_accounted total s s' :
  accounted cfg d total s → reachable cfg concurrent debug d s s' →
  accounted cfg d total s'.
Proof.
  intros Hs Hr.
  eapply (reachable_invariant cfg concurrent debug d (accounted cfg d total));
    [| done..].
  intros ? ?. apply accounted_Move.
Qed.

(** Feeding the source into the subscriber. *)

Lemma feed_placed tasks vs s :
  Forall (λ v : nat * Task, tasks !! v.1 = Some v.2) vs →
  placed tasks s → placed tasks (feed concurrent debug vs s).2.
Proof.
  revert s. induction vs as [| v vs IH]; intros s Hvs Hs; simpl; [done |].
  apply Forall_cons in Hvs as [Hv Hvs].
  pose proof (next_placed concurrent debug tasks v s Hv Hs) as H.
  destruct (next concurrent debug v s) as [t s1].
  specialize (IH s1 Hvs H). by destruct (feed concurrent debug vs s1).
Qed.

Lemma feed_onTrack vs s :
  Forall (onTrack cfg d) (active s) →
  Forall (onTrack cfg d) (active (feed concurrent debug vs s).2).
Proof.
  revert s. induction vs as [| v vs IH]; intros s Hs; simpl; [done |].
  pose proof (next_onTrack cfg concurrent debug d v s Hs) as H.
  destruct (next concurrent debug v s) as [t s1].
  specialize (IH s1 H). by destruct (feed concurrent debug vs s1).
Qed.

Lemma feed_fates vs s :
  fates cfg d (feed concurrent debug vs s).2
  ≡ₚ fates cfg d s ++ ((λ v : nat * Task, fate cfg d v.1) <$> vs).
Proof.
  revert s. induction vs as [| v vs IH]; intros s; simpl.
  - by rewrite app_nil_r.
  - pose proof (next_fates cfg concurrent debug d v s) as H.
    destruct (next concurrent debug v s) as [t s1].
    specialize (IH s1). destruct (feed concurrent debug vs s1). simpl in *.
    rewrite IH, H. by rewrite <- app_assoc.
Qed.

Lemma feed_load vs s :
  load cfg (feed concurrent debug vs s).2
  = load cfg s + length vs * (2 * attempts cfg - 1).
Proof.
  revert s. induction vs as [| v vs IH]; intros s; simpl; [lia |].
  pose proof (next_load cfg concurrent debug v s) as H.
  destruct (next concurrent debug v s) as [t s1].
  specialize (IH s1). destruct (feed concurrent debug vs s1). simpl in *. lia.
Qed.

End moves.

(** ** The download phase as a whole *)

Lemma downloads_phase cfg concurrent debug d tasks schedule :
  (downloads cfg concurrent debug d tasks schedule).2
  = (drive cfg concurrent debug d schedule
       (feed concurrent debug (enumerate tasks) initial).2).2.
Proof.
  unfold downloads. destruct (feed _ _ _ _) as [t0 s0]. simpl.
  by destruct (drive _ _ _ _ _ _).
Qed.

Lemma enumerate_positions tasks : (enumerate tasks).*1 = seq 0 (length tasks).
Proof. unfold enumerate. apply fst_zip. by rewrite length_seq. Qed.

Lemma enumerate_placed tasks :
  Forall (λ v : nat * Task, tasks !! v.1 = Some v.2) (enumerate tasks).
Proof.
  apply Forall_lookup. intros i [p t] Hi. simpl.
  apply lookup_zip_Some in Hi as [Hp Ht]. apply lookup_seq in Hp as [-> _]. done.
Qed.

Lemma start_placed concurrent debug tasks :
  placed tasks (feed concurrent debug (enumerate tasks) initial).2.
Proof. apply feed_placed; [apply enumerate_placed | by split]. Qed.

Lemma start_accounted cfg concurrent debug d tasks :
  accounted cfg d (length tasks) (feed concurrent debug (enumerate tasks) initial).2.
Proof.
  split; [by apply feed_onTrack |].
  rewrite feed_fates. unfold fates. simpl.
  by rewrite <- enumerate_positions, <- list_fmap_compose.
Qed.

Lemma start_load cfg concurrent debug tasks :
  load cfg (feed concurrent debug (enumerate tasks) initial).2
  = length tasks * (2 * attempts cfg - 1).
Proof.
  rewrite feed_load. unfold load. simpl.
  by rewrite <- (length_fmap fst (enumerate tasks)), enumerate_positions, length_seq.
Qed.

Lemma start_windowed n debug tasks :
  (0 ≤ n)%Z → windowed n (feed (Int n) debug (enumerate tasks) initial).2.
Proof. intros Hn. apply feed_windowed. split; simpl; [lia | done]. Qed.

(** With a positive limit the merge settles: a schedule as long as the
    load leaves nothing running. *)
Lemma drive_settled cfg n debug d total schedule s :
  (1 ≤ n)%Z → windowed n s → accounted cfg d total s →
  load cfg s ≤ length schedule →
  ∀ s', (drive cfg (Int n) debug d schedule s).2 ≠ Running s'.
Proof.
  intros Hn. revert s.
  induction schedule as [| choice schedule IH]; intros s Hw Ha Hl s'; simpl.
  - destruct (active s) as [| i l] eqn:Hact, (buffer s) as [| v b] eqn:Hbuf; simpl;
      [done | | |].
    + destruct Hw as [_ Hfull]. rewrite Hact, Hbuf in Hfull.
      specialize (Hfull ltac:(done)). simpl in Hfull. lia.
    + destruct Ha as [Ha _]. rewrite Hact in Ha. apply Forall_cons in Ha as [[Hk _] _].
      unfold load in Hl. rewrite Hact in Hl. simpl in Hl. unfold weight in Hl.
      destruct (in_waiting i); simpl in Hl; lia.
    + destruct Ha as [Ha _]. rewrite Hact in Ha. apply Forall_cons in Ha as [[Hk _] _].
      unfold load in Hl. rewrite Hact in Hl. simpl in Hl. unfold weight in Hl.
      destruct (in_waiting i); simpl in Hl; lia.
  - destruct (active s) as [| i l] eqn:Hact.
    { destruct (buffer s) as [| v b] eqn:Hbuf; simpl; [done |].
      destruct Hw as [_ Hfull]. rewrite Hact, Hbuf in Hfull.
      specialize (Hfull ltac:(done)). simpl in Hfull. lia. }
    pose proof (settle_Move cfg (Int n) debug d choice s) as Hm.
    rewrite Hact in Hm. specialize (Hm ltac:(done)).
    destruct (settle cfg (Int n) debug d choice s) as [t0 [s1 |]]; simpl in Hm; [| done].
    pose proof (load_Move _ _ _ _ _ _ _ Ha Hm) as Hlt.
    specialize (IH s1 (windowed_Move _ _ _ _ _ _ Hw Hm)
                  (accounted_Move _ _ _ _ _ _ _ Ha Hm) ltac:(simpl in Hl; lia) s').
    by destruct (drive cfg (Int n) debug d schedule s1).
Qed.

(** A completed merge holds one result per task, each the fate of its
    task. *)
Lemma completed_accounted cfg concurrent debug d total s s' :
  accounted cfg d total s → reachable cfg concurrent debug d s s' →
  active s' = [] → buffer s' = [] →
  Fulfilled <$> collected s' ≡ₚ fate cfg d <$> seq 0 total.
Proof.
  intros Ha Hr Hact Hbuf.
  destruct (reachable_accounted _ _ _ _ _ _ _ Ha Hr) as [_ Hf].
  unfold fates in Hf. rewrite Hact, Hbuf in Hf. simpl in Hf.
  by rewrite app_nil_r in Hf.
Qed.

(** A failed merge has a task whose every attempt failed. *)
Lemma failed_accounted cfg concurrent debug d total s s' :
  accounted cfg d total s → reachable cfg concurrent debug d s s' →
  Move cfg concurrent debug d s' Failed →
  ∃ p, p < total ∧ fate cfg d p = Rejected.
Proof.
  intros Ha Hr Hm.
  destruct (reachable_accounted _ _ _ _ _ _ _ Ha Hr) as [Htrack Hf].
  inversion Hm as [| | | i inner Hi Hw Hp Hd]; subst.
  pose proof (Forall_lookup_1 _ _ _ _ Htrack Hi) as [Hk Hfate].
  rewrite (fateFrom_exhausted _ _ _ _ Hk Hp Hd) in Hfate.
  assert (Hin : fate cfg d (in_position inner) ∈ fates cfg d s').
  { unfold fates. apply elem_of_app. right. apply elem_of_app. left.
    apply list_elem_of_fmap. exists inner. split; [done |].
    by eapply list_elem_of_lookup_2. }
  rewrite Hf in Hin. apply list_elem_of_fmap in Hin as (p & Hp' & Hin).
  apply elem_of_seq in Hin. exists p. split; [lia | congruence].
Qed.

(** C2.  With a concurrency limit [n >= 1], for every task array and every
    schedule: while the download pipeline runs, at most [n] inner
    subscriptions (a download with its own retry sequence each) are active;
    a task is held back only while all [n] slots are taken, so a freed slot
    is refilled in the very move that frees it; and with [n] at least the
    number of tasks nothing is ever held back. *)
Theorem downloads_window cfg n debug d tasks schedule s :
  (1 ≤ n)%Z →
  (downloads cfg (Int n) debug d tasks schedule).2 = Running s →
  (Z.of_nat (length (active s)) ≤ n)%Z
  ∧ (buffer s ≠ [] → Z.of_nat (length (active s)) = n)
  ∧ ((Z.of_nat (length tasks) ≤ n)%Z → buffer s = []).
Proof.
  intros Hn. rewrite downloads_phase. intros Hrun.
  destruct (drive _ _ _ _ _ _) as [t p] eqn:Hd. simpl in Hrun. subst p.
  apply drive_Running in Hd.
  destruct (reachable_windowed _ _ _ _ _ _ (start_windowed n debug tasks ltac:(lia)) Hd)
    as [Hle Hfull].
  split; [done |]. split; [done |]. intros Hall.
  destruct (reachable_accounted _ _ _ _ _ _ _
              (start_accounted cfg (Int n) debug d tasks) Hd) as [_ Hf].
  apply Permutation_length in Hf. unfold fates in Hf.
  rewrite !length_app, !length_fmap, length_seq in Hf.
  destruct (buffer s) as [| v b] eqn:Hbuf; [done |].
  specialize (Hfull ltac:(done)). simpl in Hf. lia.
Qed.

Lemma downloads_window_witness :
  ∃ s, (downloads (backoffConfig (Int 1)) (Int 2) false reliable sampleTasks [0]).2
       = Running s
       ∧ (Z.of_nat (length (active s)) ≤ 2)%Z
       ∧ (buffer s ≠ [] → Z.of_nat (length (active s)) = 2%Z)
       ∧ ((Z.of_nat (length sampleTasks) ≤ 2)%Z → buffer s = []).
Proof.
  eexists. split; [reflexivity |].
  apply (downloads_window (backoffConfig (Int 1)) 2 false reliable sampleTasks [0]);
    [lia | reflexivity].
Defined.

(** C1, as the code has it.  With a concurrency limit [n >= 1] and a
    schedule long enough for every retry sequence to end: when every task
    has an attempt within its budget that is fulfilled, the download
    pipeline completes with exactly one result per task, the result of the
    first fulfilled attempt of each; when some task fails on every attempt
    of its budget, the pipeline is rejected and there is no array of
    results at all. *)
Theorem downloads_all_or_nothing cfg n debug d tasks schedule :
  (1 ≤ n)%Z → length tasks * (2 * attempts cfg) ≤ length schedule →
  ((∀ p, p < length tasks →
      ∃ k result, k < attempts cfg ∧ performDownload d p k = Some result) →
   ∃ results,
     (downloads cfg (Int n) debug d tasks schedule).2 = Completed results
     ∧ Fulfilled <$> results ≡ₚ fate cfg d <$> seq 0 (length tasks)
     ∧ length results = length tasks)
  ∧ ((∃ p, p < length tasks ∧ ∀ k, k < attempts cfg → performDownload d p k = None) →
     (downloads cfg (Int n) debug d tasks schedule).2 = Errored).
Proof.
  intros Hn Hlen. rewrite downloads_phase.
  pose proof (start_accounted cfg (Int n) debug d tasks) as Ha.
  pose proof (drive_settled cfg n debug d (length tasks) schedule _ Hn
                (start_windowed n debug tasks ltac:(lia)) Ha) as Hset.
  rewrite start_load in Hset. specialize (Hset ltac:(nia)).
  destruct (drive _ _ _ _ _ _) as [t [results | | s']] eqn:Hd; simpl in *.
  - apply drive_Completed in Hd as (s' & Hr & Hact & Hbuf & <-).
    pose proof (completed_accounted _ _ _ _ _ _ _ Ha Hr Hact Hbuf) as Hperm.
    split.
    + intros _. eexists. split_and!; [done | done |].
      apply Permutation_length in Hperm.
      by rewrite !length_fmap, length_seq in Hperm.
    + intros (p & Hp & Hnone). exfalso.
      assert (Hin : fate cfg d p ∈ fate cfg d <$> seq 0 (length tasks)).
      { apply list_elem_of_fmap. exists p. split; [done |]. apply elem_of_seq. lia. }
      rewrite <- Hperm, (fate_Rejected _ _ _ Hnone) in Hin.
      by apply list_elem_of_fmap in Hin as (? & ? & _).
  - split; [| done]. intros Hall. exfalso.
    apply drive_Errored in Hd as (s' & Hr & Hm).
    destruct (failed_accounted _ _ _ _ _ _ _ Ha Hr Hm) as (p & Hp & Hrej).
    destruct (fate_Fulfilled cfg d p (Hall p Hp)) as [r Hr']. congruence.
  - by destruct (Hset s').
Qed.

Lemma downloads_all_or_nothing_witness :
  (∃ results,
     (downloads (backoffConfig (Int 1)) (Int 2) false reliable sampleTasks
                [0; 0; 0; 0; 0; 0; 0; 0; 0; 0; 0; 0]).2 = Completed results
     ∧ Fulfilled <$> results
       ≡ₚ fate (backoffConfig (Int 1)) reliable <$> seq 0 (length sampleTasks)
     ∧ length results = length sampleTasks)
  ∧ (downloads (backoffConfig (Int 1)) (Int 2) false brokenPage sampleTasks
               [0; 0; 0; 0; 0; 0; 0; 0; 0; 0; 0; 0]).2 = Errored.
Proof.
  split.
  - apply (downloads_all_or_nothing (backoffConfig (Int 1)) 2 false reliable
             sampleTasks [0; 0; 0; 0; 0; 0; 0; 0; 0; 0; 0; 0]); [lia | simpl; lia |].
    intros p Hp. exists 0. simpl in Hp.
    destruct p as [| [| [| p]]];
      [eexists; (split; [unfold attempts; simpl; lia | reflexivity]).. | lia].
  - apply (downloads_all_or_nothing (backoffConfig (Int 1)) 2 false brokenPage
             sampleTasks [0; 0; 0; 0; 0; 0; 0; 0; 0; 0; 0; 0]); [lia | simpl; lia |].
    exists 1. split; [simpl; lia | done].
Defined.

(** C1, as the spec words it, fails: the page at position 1 uses up its
    retries and the download pipeline is rejected, whether that happens
    before or after the other pages were saved; no array of results
    exists, and the run ends in the [catch] block without a report. *)
Lemma exhausted_task_aborts_batch :
  (downloads (backoffConfig (Int 1)) (Int 4) false brokenPage sampleTasks [1; 1; 1]).2
  = Errored
  ∧ (downloads (backoffConfig (Int 1)) (Int 4) false brokenPage sampleTasks
               [0; 1; 1; 1; 0]).2 = Errored
  ∧ reports (main (commandLine (Int 4)) (world brokenPage) [0; 1; 1; 1; 0]).1 = []
  ∧ (main (commandLine (Int 4)) (world brokenPage) [0; 1; 1; 1; 0]).2 = Exit 1.
Proof. by vm_compute. Qed.

(** ** The shape of a run *)

Lemma retryBackoff_settles {A} cfg (subscribe : nat → list Event * option A) fuel index :
  attempts cfg ≤ fuel + index → 0 < fuel →
  (retryBackoff cfg subscribe fuel index).2 ≠ Unsettled.
Proof.
  revert index. induction fuel as [| fuel IH]; intros index Hle Hpos; [lia |].
  simpl. destruct (subscribe index) as [t [a |]]; [done |].
  destruct (retryDecision cfg index) as [ms |] eqn:Hd; [| done].
  apply retryDecision_Delay_lt in Hd.
  specialize (IH (S index) ltac:(lia) ltac:(lia)).
  by destruct (retryBackoff cfg subscribe fuel (S index)).
Qed.

Lemma orchestrate_Orchestrated cfg concurrent debug env schedule :
  Orchestrated cfg concurrent debug env schedule
    (orchestrate cfg concurrent debug env schedule).1
    (orchestrate cfg concurrent debug env schedule).2.
Proof.
  unfold orchestrate, catch, after, when.
  destruct (launch env) eqn:Hlaunch; [| by constructor].
  pose proof (retryBackoff_settles cfg (loginOnce (downloader env)) (attempts cfg) 0
                ltac:(lia) (attempts_pos cfg)) as Hs1.
  destruct (retryBackoff cfg (loginOnce _) _ _) as [auth [[] | |]] eqn:Hauth;
    cbn [fst snd app] in *; [| by apply login_rejected | done].
  pose proof (retryBackoff_settles cfg (discoverOnce (downloader env) debug)
                (attempts cfg) 0 ltac:(lia) (attempts_pos cfg)) as Hs2.
  destruct (retryBackoff cfg (discoverOnce _ _) _ _) as [disc [tasks | |]] eqn:Hdisc;
    cbn [fst snd app] in *; [| by apply discovery_rejected | done].
  destruct (downloads cfg concurrent debug (downloader env) tasks schedule)
    as [down [results | | s]] eqn:Hdown; cbn [fst snd app].
  - by eapply downloads_completed.
  - by eapply downloads_rejected.
  - rewrite app_nil_r. by eapply downloads_running.
Qed.

Lemma loginOnce_eq d k :
  loginOnce d k
  = (when (bool_decide (k = 0)) [Log (Text "Logging in...")]
     ++ [Login (login d k)] ++ when (login d k) [Log (Text "Logged in.")],
     if login d k then Some () else None).
Proof. reflexivity. Qed.

Lemma discoverOnce_eq d debug k :
  discoverOnce d debug k
  = (when (bool_decide (k = 0)) [Log (Text "Getting download tasks...")]
     ++ [Discover (getDownloadTasks d k).1 (getDownloadTasks d k).2]
     ++ when debug ((getDownloadTasks d k).1
                    ≫= λ t, [Log (Text "Created download task:"); Log (DumpTask t)])
     ++ when (getDownloadTasks d k).2
          (Log (Text ("Scheduled " +:+ pretty (length (getDownloadTasks d k).1)
                      +:+ " download tasks."))
           :: when debug [Log (DumpTasks (getDownloadTasks d k).1)]),
     if (getDownloadTasks d k).2 then Some (getDownloadTasks d k).1 else None).
Proof. unfold discoverOnce. by destruct (getDownloadTasks d k). Qed.

Lemma created_console (emitted : list Task) :
  Forall console
    (emitted ≫= λ t, [Log (Text "Created download task:"); Log (DumpTask t)]).
Proof. induction emitted as [| t l IH]; [done |]. by do 2 constructor. Qed.

Lemma console_unsuccessful l :
  Forall console l → Forall (λ e, ofDiscovery e ∧ unsuccessful e) l.
Proof.
  intros H. eapply Forall_impl; [exact H |]. by intros [[] | | | | | | | | | | | |].
Qed.

Lemma login_chunk cfg d fuel index auth r :
  retryBackoff cfg (loginOnce d) fuel index = (auth, r) →
  match r with
  | Fulfilled _ =>
      ∃ auth', auth = auth' ++ [Login true; Log (Text "Logged in.")]
               ∧ Forall (λ e, ofLogin e ∧ unsuccessful e) auth'
  | _ => Forall (λ e, ofLogin e ∧ unsuccessful e) auth
  end.
Proof.
  revert index auth r.
  induction fuel as [| fuel IH]; intros index auth r; cbn [retryBackoff].
  { intros [= <- <-]. done. }
  rewrite loginOnce_eq. destruct (login d index) eqn:Hok; simpl.
  - intros [= <- <-]. exists (when (bool_decide (index = 0)) [Log (Text "Logging in...")]).
    split; [done |]. unfold when. case_bool_decide; repeat constructor.
  - assert (Hhead : Forall (λ e, ofLogin e ∧ unsuccessful e)
                      (when (bool_decide (index = 0)) [Log (Text "Logging in...")]
                       ++ [Login false])).
    { unfold when. case_bool_decide; repeat constructor. }
    destruct (retryDecision cfg index) as [ms |].
    + destruct (retryBackoff cfg (loginOnce d) fuel (S index)) as [t' r'] eqn:Hrec.
      intros [= <- <-]. specialize (IH _ _ _ Hrec). destruct r' as [[] | |].
      * destruct IH as (auth' & -> & Hauth').
        exists ((when (bool_decide (index = 0)) [Log (Text "Logging in...")]
                 ++ [Login false]) ++ Wait ms :: auth').
        split; [by rewrite <- ?app_assoc |].
        apply Forall_app. split; [done |]. by constructor.
      * apply Forall_app. split; [done |]. by constructor.
      * apply Forall_app. split; [done |]. by constructor.
    + intros [= <- <-]. done.
Qed.

Lemma discovery_chunk cfg d debug fuel index disc r :
  retryBackoff cfg (discoverOnce d debug) fuel index = (disc, r) →
  match r with
  | Fulfilled tasks =>
      ∃ disc' logs, disc = disc' ++ Discover tasks true :: logs
                    ∧ Forall (λ e, ofDiscovery e ∧ unsuccessful e) disc'
                    ∧ Forall console logs
  | _ => Forall (λ e, ofDiscovery e ∧ unsuccessful e) disc
  end.
Proof.
  revert index disc r.
  induction fuel as [| fuel IH]; intros index disc r; cbn [retryBackoff].
  { intros [= <- <-]. done. }
  rewrite discoverOnce_eq. destruct (getDownloadTasks d index) as [emitted ok] eqn:Hg.
  cbn [fst snd].
  assert (Hlogs : Forall (λ e, ofDiscovery e ∧ unsuccessful e)
                    (when debug (emitted ≫= λ t, [Log (Text "Created download task:");
                                                  Log (DumpTask t)]))).
  { unfold when. destruct debug; [| done].
    apply console_unsuccessful, created_console. }
  destruct ok; simpl.
  - intros [= <- <-].
    exists (when (bool_decide (index = 0)) [Log (Text "Getting download tasks...")]),
           (when debug (emitted ≫= λ t, [Log (Text "Created download task:");
                                         Log (DumpTask t)])
            ++ Log (Text ("Scheduled " +:+ pretty (length emitted) +:+ " download tasks."))
               :: when debug [Log (DumpTasks emitted)]).
    split_and!; [done | unfold when; case_bool_decide; repeat constructor |].
    apply Forall_app. split.
    + unfold when. destruct debug; [apply created_console | done].
    + unfold when. destruct debug; repeat constructor.
  - assert (Hhead : Forall (λ e, ofDiscovery e ∧ unsuccessful e)
                      (when (bool_decide (index = 0))
                            [Log (Text "Getting download tasks...")]
                       ++ Discover emitted false
                       :: when debug (emitted ≫= λ t, [Log (Text "Created download task:");
                                                       Log (DumpTask t)]) ++ [])).
    { apply Forall_app. split; [unfold when; case_bool_decide; repeat constructor |].
      constructor; [done |]. by rewrite app_nil_r. }
    destruct (retryDecision cfg index) as [ms |].
    + destruct (retryBackoff cfg (discoverOnce d debug) fuel (S index)) as [t' r'] eqn:Hrec.
      intros [= <- <-]. specialize (IH _ _ _ Hrec). destruct r' as [tasks | |].
      * destruct IH as (disc' & logs & -> & Hdisc' & Hlogs').
        exists ((when (bool_decide (index = 0)) [Log (Text "Getting download tasks...")]
                 ++ Discover emitted false
                 :: when debug (emitted ≫= λ t, [Log (Text "Created download task:");
                                                 Log (DumpTask t)]) ++ [])
                ++ Wait ms :: disc'), logs.
        split_and!; [by rewrite <- !app_assoc | | done].
        apply Forall_app. split; [exact Hhead |]. by constructor.
      * apply Forall_app. split; [done |]. by constructor.
      * apply Forall_app. split; [done |]. by constructor.
    + intros [= <- <-]. done.
Qed.

Lemma next_fromArray tasks concurrent debug v s :
  tasks !! v.1 = Some v.2 → Forall (fromArray tasks) (next concurrent debug v s).1.
Proof.
  intros Hv. unfold next, project, when. destruct (num_lt _ _); [| done].
  simpl. destruct debug; repeat constructor; done.
Qed.

Lemma feed_fromArray tasks concurrent debug vs s :
  Forall (λ v : nat * Task, tasks !! v.1 = Some v.2) vs →
  Forall (fromArray tasks) (feed concurrent debug vs s).1.
Proof.
  revert s. induction vs as [| v vs IH]; intros s Hvs; simpl; [done |].
  apply Forall_cons in Hvs as [Hv Hvs].
  pose proof (next_fromArray tasks concurrent debug v s Hv) as H.
  destruct (next concurrent debug v s) as [t s1].
  specialize (IH s1 Hvs). destruct (feed concurrent debug vs s1). simpl in *.
  by apply Forall_app.
Qed.

Lemma settle_fromArray tasks cfg concurrent debug d choice s :
  placed tasks s → Forall (fromArray tasks) (settle cfg concurrent debug d choice s).1.
Proof.
  intros [Ha Hb]. unfold settle.
  destruct (active s !! _) as [inner |] eqn:Hi; [| done].
  pose proof (Forall_lookup_1 _ _ _ _ Ha Hi) as Hinner.
  destruct (in_waiting inner); [by repeat constructor |].
  destruct (performDownload d _ _) as [result |].
  - unfold notifyComplete. simpl. destruct (buffer s) as [| v held]; simpl.
    + unfold when. destruct debug; repeat constructor.
    + apply Forall_cons in Hb as [Hv _].
      match goal with |- context [next ?c ?b ?v ?s] =>
        pose proof (next_fromArray tasks c b v s Hv) as H; destruct (next c b v s) end.
      simpl in *. do 2 constructor; try done.
      apply Forall_app. split; [| done]. unfold when. destruct debug; repeat constructor.
  - destruct (retryDecision cfg _); repeat constructor.
Qed.

Lemma drive_fromArray tasks cfg concurrent debug d schedule s :
  placed tasks s → Forall (fromArray tasks) (drive cfg concurrent debug d schedule s).1.
Proof.
  revert s. induction schedule as [| choice schedule IH]; intros s Hs; simpl.
  - by destruct (active s), (buffer s).
  - destruct (active s) eqn:Ha; [by destruct (buffer s) |].
    pose proof (settle_fromArray tasks cfg concurrent debug d choice s Hs) as H.
    pose proof (settle_Move cfg concurrent debug d choice s) as Hm.
    rewrite Ha in Hm. specialize (Hm ltac:(done)).
    destruct (settle cfg concurrent debug d choice s) as [t [s' |]]; [| done].
    specialize (IH s' (placed_Move _ _ _ _ _ _ _ Hs Hm)).
    destruct (drive cfg concurrent debug d schedule s'). simpl in *. by apply Forall_app.
Qed.

Lemma downloads_fromArray cfg concurrent debug d tasks schedule :
  Forall (fromArray tasks) (downloads cfg concurrent debug d tasks schedule).1.
Proof.
  unfold downloads.
  pose proof (feed_fromArray tasks concurrent debug (enumerate tasks) initial
                (enumerate_placed tasks)) as H.
  pose proof (start_placed concurrent debug tasks) as Hp.
  destruct (feed concurrent debug (enumerate tasks) initial) as [t0 s0].
  pose proof (drive_fromArray tasks cfg concurrent debug d schedule s0 Hp) as H'.
  destruct (drive cfg concurrent debug d schedule s0). simpl in *.
  constructor; [done |]. by apply Forall_app.
Qed.

(** ** From the command line to the pipeline *)

Lemma configured_other cl env course_url k :
  k ≠ "courseUrl"%string → k ≠ "user"%string → k ≠ "password"%string →
  configured cl env course_url !! k = opts cl !! k.
Proof.
  intros H1 H2 H3. unfold configured.
  destruct (truthy (optional (opt_user cl))), (truthy (optional (opt_password cl)));
    by rewrite ?lookup_insert_ne by done.
Qed.

Lemma configured_user cl env course_url :
  configured cl env course_url !! "user"
  = Some (VStr (credential (opt_user cl) (answerUser env))).
Proof.
  unfold configured, credential.
  assert (Hu : opts cl !! "user" = Some (optional (opt_user cl))) by done.
  destruct (opt_user cl) as [u |]; simpl in *.
  - destruct (negb (String.eqb u "")), (truthy (optional (opt_password cl)));
      rewrite ?lookup_insert_ne by done; rewrite ?lookup_insert_eq; try done;
      by rewrite lookup_insert_ne by done.
  - destruct (truthy (optional (opt_password cl)));
      rewrite ?lookup_insert_ne by done; by rewrite lookup_insert_eq.
Qed.

Lemma configured_password cl env course_url :
  configured cl env course_url !! "password"
  = Some (VStr (credential (opt_password cl) (answerPassword env))).
Proof.
  unfold configured, credential.
  assert (Hp : opts cl !! "password" = Some (optional (opt_password cl))) by done.
  destruct (opt_password cl) as [u |]; simpl in *.
  - destruct (negb (String.eqb u "")), (truthy (optional (opt_user cl)));
      rewrite ?lookup_insert_eq; rewrite ?lookup_insert_ne by done; try done.
  - destruct (truthy (optional (opt_user cl))); by rewrite lookup_insert_eq.
Qed.

(** The debug dump prints a new object and changes no existing one. *)
Lemma debugDump_spec (configuration : loc) (o : Obj) (h : Heap) :
  h !! configuration = Some o →
  debugDump configuration h
  = if truthy (get h configuration "debug")
    then ([Log (Text "Configuration:"); Log (Dump (censor ∪ o))],
          h ++ [censor; censor ∪ o])
    else ([], h).
Proof.
  intros Ho. unfold debugDump. destruct (truthy _); [| done]. unfold alloc.
  rewrite (clone_overwrite _ _ o censor)
    by (apply lookup_snoc_new || by apply lookup_snoc_old).
  rewrite lookup_snoc_new. simpl. by rewrite <- app_assoc.
Qed.

Lemma getConfiguration_Exited cl env t code h :
  getConfiguration cl env [] = (t, Exited code, h) →
  Forall ofStartup t ∧ (code = 1%Z ∨ (code = 0%Z ∧ t = [Help])).
Proof.
  unfold getConfiguration. case_bool_decide.
  { intros [= <- <- <-]. split; [by repeat constructor | by left]. }
  destruct (args cl) as [| course_url [|]].
  - intros [= <- <- <-]. split; [by repeat constructor | by right].
  - destruct (courseUrlPattern course_url).
    + unfold alloc. simpl app. rewrite (clone_default 0 (opts cl)) by done.
      destruct (truthy (get _ _ "user")), (truthy (get _ _ "password")); done.
    + intros [= <- <- <-]. split; [by repeat constructor | by left].
  - intros [= <- <- <-]. split; [by repeat constructor | by right].
Qed.

Lemma getConfiguration_only_prompts cl env t c h :
  getConfiguration cl env [] = (t, Configured c, h) → Forall isPrompt t.
Proof.
  unfold getConfiguration. case_bool_decide; [done |].
  destruct (args cl) as [| course_url [|]]; [done | | done].
  destruct (courseUrlPattern course_url); [| done].
  unfold alloc. simpl app. rewrite (clone_default 0 (opts cl)) by done.
  destruct (truthy (get _ _ "user")), (truthy (get _ _ "password"));
    intros [= <- <- <-]; by repeat constructor.
Qed.

Lemma getConfiguration_prompts cl env t c h :
  getConfiguration cl env [] = (t, Configured c, h) → Forall ofStartup t.
Proof.
  unfold getConfiguration. case_bool_decide; [done |].
  destruct (args cl) as [| course_url [|]]; [done | | done].
  destruct (courseUrlPattern course_url); [| done].
  unfold alloc. simpl app. rewrite (clone_default 0 (opts cl)) by done.
  destruct (truthy (get _ _ "user")), (truthy (get _ _ "password"));
    intros [= <- <- <-]; by repeat constructor.
Qed.

Lemma configured_reads cl env course_url (extra : Heap) :
  let h := [opts cl; ∅; configured cl env course_url] ++ extra in
  truthy (get h 2 "debug") = opt_debug cl
  ∧ toNum (get h 2 "retries") = retriesOf cl
  ∧ toNum (get h 2 "concurrency") = concurrencyOf cl.
Proof.
  unfold get. simpl. rewrite !configured_other by done. done.
Qed.

(** A run either stops in [getConfiguration], or goes on to [orchestrate]
    with the retry budget, the concurrency limit and the debug flag of the
    command line. *)
Lemma main_cases cl env schedule :
  (∃ t code, main cl env schedule = (t, Exit code) ∧ Forall ofStartup t
             ∧ (code = 1%Z ∨ (code = 0%Z ∧ t = [Help])))
  ∨ (∃ t, Forall ofStartup t
          ∧ main cl env schedule
            = after t (orchestrate (backoffConfig (retriesOf cl)) (concurrencyOf cl)
                                   (opt_debug cl) env schedule)).
Proof.
  unfold main. destruct (getConfiguration cl env []) as [[t0 [code | c]] h] eqn:Hg.
  - left. exists t0, code. split; [done |]. by eapply getConfiguration_Exited.
  - right. pose proof (getConfiguration_prompts _ _ _ _ _ Hg) as Ht0.
    apply getConfiguration_Configured in Hg as (course_url & _ & _ & -> & ->).
    rewrite (debugDump_spec 2 (configured cl env course_url)) by done.
    destruct (configured_reads cl env course_url []) as (Hd & Hr & Hc).
    destruct (configured_reads cl env course_url
                [censor; censor ∪ configured cl env course_url]) as (Hd' & Hr' & Hc').
    simpl in Hd, Hr, Hc, Hd', Hr', Hc'. rewrite Hd.
    destruct (opt_debug cl) eqn:Hdebug; unfold pipeline.
    + simpl app. rewrite Hd', Hr', Hc'. eexists. split; [| done].
      apply Forall_app. split; [done |]. by repeat constructor.
    + rewrite Hd, Hr, Hc. exists (t0 ++ []). split; [| done].
      by rewrite app_nil_r.
Qed.

(** ** Reading the trace of a run *)

Lemma login_facts cfg d auth r :
  retryBackoff cfg (loginOnce d) (attempts cfg) 0 = (auth, r) →
  match r with
  | Fulfilled _ =>
      ∃ auth', auth = auth' ++ [Login true; Log (Text "Logged in.")]
               ∧ Forall (λ e, ofLogin e ∧ unsuccessful e) auth'
  | _ => Forall (λ e, ofLogin e ∧ unsuccessful e) auth
  end.
Proof. apply login_chunk. Qed.

Lemma discovery_facts cfg d debug disc r :
  retryBackoff cfg (discoverOnce d debug) (attempts cfg) 0 = (disc, r) →
  match r with
  | Fulfilled tasks =>
      ∃ disc' logs, disc = disc' ++ Discover tasks true :: logs
                    ∧ Forall (λ e, ofDiscovery e ∧ unsuccessful e) disc'
                    ∧ Forall console logs
  | _ => Forall (λ e, ofDiscovery e ∧ unsuccessful e) disc
  end.
Proof. apply discovery_chunk. Qed.

Lemma downloads_facts cfg concurrent debug d tasks schedule down p :
  downloads cfg concurrent debug d tasks schedule = (down, p) →
  Forall (λ e, ofDownload e ∧ fromArray tasks e) down.
Proof.
  intros H. apply Forall_and. split.
  - pose proof (downloads_events cfg concurrent debug d tasks schedule) as He.
    by rewrite H in He.
  - pose proof (downloads_fromArray cfg concurrent debug d tasks schedule) as He.
    by rewrite H in He.
Qed.

(** Replaces the equations of a case of [Orchestrated] by what they say
    about the chunks of the trace. *)
Ltac chunk_facts :=
  repeat match goal with
    | H : retryBackoff _ (loginOnce _) _ _ = (_, Fulfilled _) |- _ =>
        apply login_facts in H as (auth' & -> & ?)
    | H : retryBackoff _ (loginOnce _) _ _ = (_, Rejected) |- _ =>
        apply login_facts in H
    | H : retryBackoff _ (discoverOnce _ _) _ _ = (_, Fulfilled _) |- _ =>
        apply discovery_facts in H as (disc' & logs & -> & ? & ?)
    | H : retryBackoff _ (discoverOnce _ _) _ _ = (_, Rejected) |- _ =>
        apply discovery_facts in H
    | H : downloads _ _ _ _ _ _ = (_, _) |- _ =>
        apply downloads_facts in H
    end.

(** Splits a [Forall] over a trace into one goal per chunk and closes each
    with the fact known about the chunk. *)
Ltac by_chunks :=
  repeat first
    [ apply Forall_nil_2
    | apply Forall_cons; split
    | apply Forall_app; split ];
  try (simpl; done);
  try (eapply Forall_impl; [eassumption |];
       intros [[] | | | | | | | | | | | |]; simpl; naive_solver);
  try solve [simpl; naive_solver].

Lemma finish_cases env results :
  (finish env results = ([Report results; Close; Log (Text "Done.")], Done))
  ∨ (finish env results = ([Report results; Close; ConsoleError; Close], Exit 1))
  ∨ (finish env results = ([Report results; ConsoleError; Close], Exit 1)).
Proof.
  unfold finish, after, catch. simpl.
  destruct (reportResults _ _), (close env); auto.
Qed.

Lemma orchestrate_events cfg concurrent debug env schedule :
  Forall ofPipeline (orchestrate cfg concurrent debug env schedule).1.
Proof.
  destruct (orchestrate_Orchestrated cfg concurrent debug env schedule);
    chunk_facts; try by_chunks.
  destruct (finish_cases env results) as [-> | [-> | ->]]; by_chunks.
Qed.

Lemma censor_user (o : Obj) : (censor ∪ o) !! "user" = Some (VStr "<censored>").
Proof. by apply lookup_union_Some_l. Qed.

Lemma censor_password (o : Obj) : (censor ∪ o) !! "password" = Some (VStr "<censored>").
Proof. by apply lookup_union_Some_l. Qed.

Lemma censor_other (o : Obj) k :
  k ≠ "user"%string → k ≠ "password"%string → (censor ∪ o) !! k = o !! k.
Proof.
  intros H1 H2. rewrite lookup_union_r; [done |].
  unfold censor. by rewrite !lookup_insert_ne by done.
Qed.

(** C10.  When [getConfiguration] has returned the configuration object:
    the debug dump is the only place where an object is printed, in any
    run; in the printed object the properties [user] and [password] are
    the string "<censored>" and every other property is as in the
    configuration; with the debug flag set that object is printed right
    after the line "Configuration:".  The configuration object itself is
    not touched: the pipeline runs on it, with the credentials given on
    the command line or typed at the prompt. *)
Theorem debug_dump_censored cl env t0 configuration h :
  getConfiguration cl env [] = (t0, Configured configuration, h) →
  ∃ t1 h' object,
    debugDump configuration h = (t1, h')
    ∧ h !! configuration = Some object
    ∧ (∀ schedule,
         main cl env schedule = after (t0 ++ t1) (pipeline h' configuration env schedule))
    ∧ (∀ schedule o,
         Log (Dump o) ∈ (main cl env schedule).1 →
         o !! "user" = Some (VStr "<censored>")
         ∧ o !! "password" = Some (VStr "<censored>")
         ∧ ∀ k, k ≠ "user"%string → k ≠ "password"%string → o !! k = object !! k)
    ∧ (opt_debug cl = true →
         ∃ o, t1 = [Log (Text "Configuration:"); Log (Dump o)])
    ∧ h' !! configuration = Some object
    ∧ object !! "user" = Some (VStr (credential (opt_user cl) (answerUser env)))
    ∧ object !! "password"
      = Some (VStr (credential (opt_password cl) (answerPassword env))).
Proof.
  intros Hg. pose proof (getConfiguration_prompts _ _ _ _ _ Hg) as Ht0.
  pose proof Hg as Hg'.
  apply getConfiguration_Configured in Hg' as (course_url & _ & _ & -> & ->).
  pose proof (debugDump_spec 2 (configured cl env course_url)
                [opts cl; ∅; configured cl env course_url] eq_refl) as Hdump.
  destruct (configured_reads cl env course_url []) as (Hd & _). simpl in Hd.
  rewrite Hd in Hdump.
  destruct (debugDump 2 [opts cl; ∅; configured cl env course_url]) as [t1 h'] eqn:Hdd.
  exists t1, h', (configured cl env course_url).
  assert (Hmain : ∀ schedule,
    main cl env schedule = after (t0 ++ t1) (pipeline h' 2 env schedule)).
  { intros schedule. unfold main. by rewrite Hg, Hdd. }
  split_and!; [done | done | done | | | | apply configured_user
               | apply configured_password].
  - intros schedule o. rewrite Hmain. unfold after. simpl.
    rewrite !elem_of_app. intros [[Hin | Hin] | Hin].
    + apply (proj1 (Forall_forall _ _) (getConfiguration_only_prompts _ _ _ _ _ Hg))
        in Hin. done.
    + destruct (opt_debug cl); simplify_eq; [| by apply elem_of_nil in Hin].
      apply elem_of_cons in Hin as [? | Hin]; [done |].
      apply list_elem_of_singleton in Hin. simplify_eq.
      split_and!; [apply censor_user | apply censor_password | apply censor_other].
    + pose proof (orchestrate_events
                    (backoffConfig (toNum (get h' 2 "retries")))
                    (toNum (get h' 2 "concurrency")) (truthy (get h' 2 "debug"))
                    env schedule) as Hev.
      apply (proj1 (Forall_forall _ _) Hev) in Hin. done.
  - intros Hdebug. rewrite Hdebug in Hdump. simplify_eq. by eexists.
  - destruct (opt_debug cl); by simplify_eq.
Qed.

Lemma debug_dump_censored_witness :
  ∃ t1 h' object,
    debugDump 2 (getConfiguration (commandLine (Int 4)) (world reliable) []).2 = (t1, h')
    ∧ (getConfiguration (commandLine (Int 4)) (world reliable) []).2 !! 2 = Some object
    ∧ (∀ schedule,
         main (commandLine (Int 4)) (world reliable) schedule
         = after ((getConfiguration (commandLine (Int 4)) (world reliable) []).1.1 ++ t1)
                 (pipeline h' 2 (world reliable) schedule))
    ∧ (∀ schedule o,
         Log (Dump o) ∈ (main (commandLine (Int 4)) (world reliable) schedule).1 →
         o !! "user" = Some (VStr "<censored>")
         ∧ o !! "password" = Some (VStr "<censored>")
         ∧ ∀ k, k ≠ "user"%string → k ≠ "password"%string → o !! k = object !! k)
    ∧ (opt_debug (commandLine (Int 4)) = true →
         ∃ o, t1 = [Log (Text "Configuration:"); Log (Dump o)])
    ∧ h' !! 2 = Some object
    ∧ object !! "user" = Some (VStr "student@example.org")
    ∧ object !! "password" = Some (VStr "hunter2").
Proof.
  apply (debug_dump_censored (commandLine (Int 4)) (world reliable)
           (getConfiguration (commandLine (Int 4)) (world reliable) []).1.1 2
           (getConfiguration (commandLine (Int 4)) (world reliable) []).2).
  assert (E : (getConfiguration (commandLine (Int 4)) (world reliable) []).1.2
              = Configured 2) by (vm_compute; reflexivity).
  destruct (getConfiguration (commandLine (Int 4)) (world reliable) []) as [[t r] h].
  simpl in E. subst r. reflexivity.
Defined.

Lemma omap_quiet {B} (f : Event → option B) (P : Event → Prop) (l : list Event) :
  Forall P l → (∀ e, P e → f e = None) → omap f l = [].
Proof.
  intros Hl Hf. induction Hl as [| e l He _ IH]; [done |].
  simpl. by rewrite (Hf e He).
Qed.

(** Computes a reading ([logins], [discoveries], [reports], [waits]) of a
    trace given by its chunks. *)
Ltac read_step :=
  rewrite ?omap_app in *; cbn [omap list_omap app] in *.

Ltac read_trace :=
  unfold logins, discoveries, reports, waits in *;
  do 6 read_step;
  repeat match goal with
    | H : Forall ?P ?l |- context [omap ?f ?l] =>
        rewrite (omap_quiet f P l H)
          by (intros [[] | | | | | | | | | | | |]; simpl; naive_solver)
    | H : Forall ?P ?l, H' : context [omap ?f ?l] |- _ =>
        rewrite (omap_quiet f P l H) in H'
          by (intros [[] | | | | | | | | | | | |]; simpl; naive_solver)
    end;
  cbn [omap list_omap app length] in *;
  rewrite ?app_nil_r in *.

Lemma discovery_all_fail cfg d debug fuel index :
  (∀ k, k < attempts cfg → (getDownloadTasks d k).2 = false) →
  fuel + index = attempts cfg → 0 < fuel →
  ∃ disc, retryBackoff cfg (discoverOnce d debug) fuel index = (disc, Rejected)
          ∧ length (discoveries disc) = fuel.
Proof.
  intros Hfail. revert index.
  induction fuel as [| fuel IH]; intros index Hsum Hpos; [lia |].
  cbn [retryBackoff]. rewrite discoverOnce_eq, Hfail by lia.
  pose proof (created_console (getDownloadTasks d index).1) as Hlogs.
  destruct (retryDecision cfg index) as [ms |] eqn:Hd.
  - apply retryDecision_Delay_lt in Hd.
    destruct (IH (S index) ltac:(lia) ltac:(lia)) as (disc & -> & Hlen).
    eexists. split; [done |]. unfold when.
    destruct debug, (bool_decide (index = 0)); read_trace; congruence.
  - apply retryDecision_Exhausted_ge in Hd.
    eexists. split; [done |]. unfold when.
    destruct debug, (bool_decide (index = 0)); read_trace; lia.
Qed.

(** C4.  When every attempt of the discovery budget fails, nothing of the
    download stage happens in the run ([performDownload] is never called,
    the download pipeline is never awaited) and nothing is reported; and
    if discovery was reached at all, it was attempted [maxRetries + 1]
    times ([attempts]), its pipeline was rejected and the run ended with
    exit status 1. *)
Theorem discovery_exhausted_aborts cl env schedule :
  (∀ k, k < attempts (backoffConfig (retriesOf cl)) →
        (getDownloadTasks (downloader env) k).2 = false) →
  Forall (λ e, stageOf e ≠ Some Downloading) (main cl env schedule).1
  ∧ reports (main cl env schedule).1 = []
  ∧ (discoveries (main cl env schedule).1 ≠ [] →
     (main cl env schedule).2 = Exit 1
     ∧ length (discoveries (main cl env schedule).1)
       = attempts (backoffConfig (retriesOf cl))
     ∧ Awaited Discovering false ∈ (main cl env schedule).1).
Proof.
  intros Hfail.
  destruct (main_cases cl env schedule) as [(t & code & -> & Ht & _) | (t & Ht & ->)].
  { simpl. split_and!; [by_chunks | by read_trace | read_trace; intros Hne; by destruct Hne]. }
  unfold after. simpl.
  destruct (discovery_all_fail _ _ (opt_debug cl)
              (attempts (backoffConfig (retriesOf cl))) 0 Hfail
              ltac:(lia) (attempts_pos _)) as (disc0 & Hdisc0 & Hlen).
  destruct (orchestrate_Orchestrated (backoffConfig (retriesOf cl)) (concurrencyOf cl)
              (opt_debug cl) env schedule) as [| auth Hl Hauth | auth disc Hl Hauth Hdisc
                                               | auth disc tasks down s Hl Hauth Hdisc Hdown
                                               | auth disc tasks down Hl Hauth Hdisc Hdown
                                               | auth disc tasks down results
                                                   Hl Hauth Hdisc Hdown];
    try (rewrite Hdisc0 in Hdisc; simplify_eq); chunk_facts.
  - split_and!; [by_chunks | by read_trace | read_trace; intros Hne; by destruct Hne].
  - split_and!; [by_chunks | by read_trace | read_trace; intros Hne; by destruct Hne].
  - split_and!; [by_chunks | by read_trace | ].
    intros _. split_and!; [done | by read_trace | set_solver].
Qed.

Lemma discovery_exhausted_aborts_witness :
  Forall (λ e, stageOf e ≠ Some Downloading)
    (main (commandLine (Int 4)) (world noTaskList) []).1
  ∧ reports (main (commandLine (Int 4)) (world noTaskList) []).1 = []
  ∧ (discoveries (main (commandLine (Int 4)) (world noTaskList) []).1 ≠ [] →
     (main (commandLine (Int 4)) (world noTaskList) []).2 = Exit 1
     ∧ length (discoveries (main (commandLine (Int 4)) (world noTaskList) []).1) = 2
     ∧ Awaited Discovering false ∈ (main (commandLine (Int 4)) (world noTaskList) []).1).
Proof.
  apply (discovery_exhausted_aborts (commandLine (Int 4)) (world noTaskList) []).
  intros k Hk. reflexivity.
Defined.

Lemma discoveries_unsuccessful l :
  Forall (λ e, ofDiscovery e ∧ unsuccessful e) l →
  Forall (λ x : list Task * bool, x.2 = false) (discoveries l).
Proof.
  induction 1 as [| e l [_ He] _ IH]; [done |].
  destruct e; simpl; try done. by constructor.
Qed.

(** Brings both sides of an equation between traces to the same
    bracketing. *)
Ltac same_trace :=
  rewrite ?app_nil_r;
  repeat (rewrite <- !app_assoc || rewrite <- !app_comm_cons);
  simpl; repeat (rewrite <- !app_assoc || rewrite <- !app_comm_cons);
  rewrite ?app_nil_r;
  reflexivity.

(** A premise that something is in an empty chunk. *)
Ltac vacuous := let H := fresh in intros H; by destruct H.

Ltac stage_goal := first [same_trace | solve [by_chunks] | vacuous | done].

(** C5.  The trace of every run splits into five consecutive parts: a
    part before the stages, then authentication, discovery and download,
    each holding no event of another stage, then a part after the stages.
    If anything belongs to the discovery part, the authentication part
    ended with its pipeline fulfilled; if anything belongs to the download
    part, the discovery part ended with its pipeline fulfilled, exactly
    one of its [getDownloadTasks] calls succeeded, the last one, and every
    download is called for a task of the array that call produced, at its
    position. *)
Theorem stages_in_sequence cl env schedule :
  ∃ pre auth disc down post,
    (main cl env schedule).1 = pre ++ auth ++ disc ++ down ++ post
    ∧ Forall (λ e, stageOf e = None) pre
    ∧ Forall (λ e, stageOf e = None ∨ stageOf e = Some Authenticating) auth
    ∧ Forall (λ e, stageOf e = None ∨ stageOf e = Some Discovering) disc
    ∧ Forall (λ e, stageOf e = None ∨ stageOf e = Some Downloading) down
    ∧ Forall (λ e, stageOf e = None) post
    ∧ (disc ≠ [] → last auth = Some (Awaited Authenticating true))
    ∧ (down ≠ [] →
       ∃ tasks failed,
         last disc = Some (Awaited Discovering true)
         ∧ discoveries disc = failed ++ [(tasks, true)]
         ∧ Forall (λ x : list Task * bool, x.2 = false) failed
         ∧ Forall (fromArray tasks) down).
Proof.
  destruct (main_cases cl env schedule) as [(t & code & -> & Ht & _) | (t & Ht & ->)].
  { exists t, [], [], [], []. simpl. rewrite app_nil_r.
    split_and!; stage_goal. }
  unfold after. simpl.
  destruct (orchestrate_Orchestrated (backoffConfig (retriesOf cl)) (concurrencyOf cl)
              (opt_debug cl) env schedule) as [| auth | auth disc | auth disc tasks down s
                                               | auth disc tasks down
                                               | auth disc tasks down results];
    chunk_facts.
  - exists (t ++ [Launch false; ConsoleError]), [], [], [], [].
    split_and!; stage_goal.
  - exists (t ++ [Launch true]), (auth ++ [Awaited Authenticating false]), [], [],
           [ConsoleError; Close].
    split_and!; stage_goal.
  - exists (t ++ [Launch true]),
           (auth' ++ [Login true; Log (Text "Logged in."); Awaited Authenticating true]),
           (disc ++ [Awaited Discovering false]), [], [ConsoleError; Close].
    split_and!; try stage_goal.
    intros _. by rewrite last_app.
  - exists (t ++ [Launch true]),
           (auth' ++ [Login true; Log (Text "Logged in."); Awaited Authenticating true]),
           (disc' ++ Discover tasks true :: logs ++ [Awaited Discovering true]),
           down, [].
    split_and!; try stage_goal.
    + intros _. by rewrite last_app.
    + intros _. exists tasks, (discoveries disc').
      split_and!; [by rewrite last_app, last_cons, last_app
                   | by read_trace | by apply discoveries_unsuccessful | by_chunks].
  - exists (t ++ [Launch true]),
           (auth' ++ [Login true; Log (Text "Logged in."); Awaited Authenticating true]),
           (disc' ++ Discover tasks true :: logs ++ [Awaited Discovering true]),
           (down ++ [Awaited Downloading false]), [ConsoleError; Close].
    split_and!; try stage_goal.
    + intros _. by rewrite last_app.
    + intros _. exists tasks, (discoveries disc').
      split_and!; [by rewrite last_app, last_cons, last_app
                   | by read_trace | by apply discoveries_unsuccessful | by_chunks].
  - exists (t ++ [Launch true]),
           (auth' ++ [Login true; Log (Text "Logged in."); Awaited Authenticating true]),
           (disc' ++ Discover tasks true :: logs ++ [Awaited Discovering true]),
           (down ++ [Awaited Downloading true]), (finish env results).1.
    split_and!; try stage_goal.
    + destruct (finish_cases env results) as [-> | [-> | ->]]; by_chunks.
    + intros _. by rewrite last_app.
    + intros _. exists tasks, (discoveries disc').
      split_and!; [by rewrite last_app, last_cons, last_app
                   | by read_trace | by apply discoveries_unsuccessful | by_chunks].
Qed.

(** Refutes that an event is in a trace given by its chunks. *)
Ltac not_in_trace H e :=
  exfalso;
  repeat (rewrite elem_of_app in H || rewrite elem_of_cons in H
          || rewrite elem_of_nil in H);
  repeat match goal with
    | Hf : Forall _ ?l |- _ =>
        pose proof (proj1 (Forall_forall _ l) Hf e); clear Hf
    end;
  naive_solver.

(** C6.  In every run, either the browser is never acquired, and then
    nothing of any stage happens and there is nothing to close; or the
    trace is: a part with no stage event, the one successful
    [puppeteer.launch()], a body in which the browser is neither launched
    again nor closed, and a tail with no stage event; if the run has ended
    (it is not waiting for a pipeline) the tail starts with
    [browser.close()].  A run in which an awaited pipeline was rejected
    ends with exit status 1, after [browser.close()].  The only exit
    status other than 1 is that of the help text, before anything else. *)
Theorem browser_released cl env schedule :
  ((Forall (λ e, stageOf e = None ∧ e ≠ Close ∧ e ≠ Launch true)
           (main cl env schedule).1
    ∧ (main cl env schedule).2 ≠ Done ∧ (main cl env schedule).2 ≠ Pending)
   ∨ ∃ pre body tail,
       (main cl env schedule).1 = pre ++ Launch true :: body ++ tail
       ∧ Forall (λ e, stageOf e = None ∧ ¬ isLaunch e ∧ e ≠ Close) pre
       ∧ Forall (λ e, ¬ isLaunch e ∧ e ≠ Close) body
       ∧ Forall (λ e, stageOf e = None ∧ ¬ isLaunch e) tail
       ∧ ((main cl env schedule).2 ≠ Pending → ∃ tail', tail = Close :: tail')
       ∧ ((main cl env schedule).2 = Pending → tail = []))
  ∧ (∀ stage, Awaited stage false ∈ (main cl env schedule).1 →
       (main cl env schedule).2 = Exit 1 ∧ Close ∈ (main cl env schedule).1)
  ∧ ((main cl env schedule).2 = Exit 1 ∨ (main cl env schedule).2 = Done
     ∨ (main cl env schedule).2 = Pending
     ∨ ((main cl env schedule).2 = Exit 0 ∧ (main cl env schedule).1 = [Help])).
Proof.
  destruct (main_cases cl env schedule)
    as [(t & code & -> & Ht & Hcode) | (t & Ht & ->)].
  { simpl. split_and!.
    - left. split_and!; [by_chunks | done..].
    - intros stage Hin. not_in_trace Hin (Awaited stage false).
    - destruct Hcode as [-> | [-> ->]]; auto. }
  unfold after. simpl.
  destruct (orchestrate_Orchestrated (backoffConfig (retriesOf cl)) (concurrencyOf cl)
              (opt_debug cl) env schedule) as [| auth | auth disc | auth disc tasks down s
                                               | auth disc tasks down
                                               | auth disc tasks down results];
    chunk_facts.
  - split_and!; [| | auto].
    + left. split_and!; [by_chunks | done..].
    + intros stage Hin. not_in_trace Hin (Awaited stage false).
  - split_and!; [| intros; split; [done | set_solver] | auto].
    right. exists t, (auth ++ [Awaited Authenticating false; ConsoleError]), [Close].
    split_and!; [same_trace | by_chunks | by_chunks | by_chunks | by eexists | done].
  - split_and!; [| intros; split; [done | set_solver] | auto].
    right.
    exists t,
      ((auth' ++ [Login true; Log (Text "Logged in.")])
       ++ Awaited Authenticating true
       :: disc ++ [Awaited Discovering false; ConsoleError]), [Close].
    split_and!; [same_trace | by_chunks | by_chunks | by_chunks | by eexists | done].
  - split_and!; [| | auto].
    + right.
      exists t,
        ((auth' ++ [Login true; Log (Text "Logged in.")])
         ++ Awaited Authenticating true
         :: (disc' ++ Discover tasks true :: logs) ++ Awaited Discovering true :: down),
        [].
      split_and!; [same_trace | by_chunks | by_chunks | done | done | done].
    + intros stage Hin. not_in_trace Hin (Awaited stage false).
  - split_and!; [| intros; split; [done | set_solver] | auto].
    right.
    exists t,
      ((auth' ++ [Login true; Log (Text "Logged in.")])
       ++ Awaited Authenticating true
       :: (disc' ++ Discover tasks true :: logs) ++ Awaited Discovering true
       :: down ++ [Awaited Downloading false; ConsoleError]), [Close].
    split_and!; [same_trace | by_chunks | by_chunks | by_chunks | by eexists | done].
  - destruct (finish_cases env results) as [-> | [-> | ->]]; simpl.
    + split_and!; [| | auto].
      * right.
        exists t,
          ((auth' ++ [Login true; Log (Text "Logged in.")])
           ++ Awaited Authenticating true
           :: (disc' ++ Discover tasks true :: logs) ++ Awaited Discovering true
           :: down ++ [Awaited Downloading true; Report results]),
          [Close; Log (Text "Done.")].
        split_and!; [same_trace | by_chunks | by_chunks | by_chunks | by eexists | done].
      * intros stage Hin. not_in_trace Hin (Awaited stage false).
    + split_and!; [| intros; split; [done | set_solver] | auto].
      right.
      exists t,
        ((auth' ++ [Login true; Log (Text "Logged in.")])
         ++ Awaited Authenticating true
         :: (disc' ++ Discover tasks true :: logs) ++ Awaited Discovering true
         :: down ++ [Awaited Downloading true; Report results]),
        [Close; ConsoleError; Close].
      split_and!; [same_trace | by_chunks | by_chunks | by_chunks | by eexists | done].
    + split_and!; [| intros; split; [done | set_solver] | auto].
      right.
      exists t,
        ((auth' ++ [Login true; Log (Text "Logged in.")])
         ++ Awaited Authenticating true
         :: (disc' ++ Discover tasks true :: logs) ++ Awaited Discovering true
         :: down ++ [Awaited Downloading true; Report results; ConsoleError]),
        [Close].
      split_and!; [same_trace | by_chunks | by_chunks | by_chunks | by eexists | done].
Qed.



(** C7, as the code has it.  In a run whose download pipeline was
    fulfilled, [reportResults] is called exactly once, right after that
    pipeline was awaited, and nothing of any stage happens afterwards; it
    is not called again, whether it returns or throws.  In every other
    run, in particular when the download pipeline was rejected because a
    task used up its retries, [reportResults] is not called at all. *)
Theorem report_once_after_downloads cl env schedule :
  (Awaited Downloading true ∈ (main cl env schedule).1 →
   ∃ before results rest,
     (main cl env schedule).1
     = before ++ Awaited Downloading true :: Report results :: rest
     ∧ reports before = [] ∧ reports rest = []
     ∧ Forall (λ e, stageOf e = None) rest)
  ∧ (Awaited Downloading true ∉ (main cl env schedule).1 →
     reports (main cl env schedule).1 = [])
  ∧ (Awaited Downloading false ∈ (main cl env schedule).1 →
     reports (main cl env schedule).1 = []).
Proof.
  destruct (main_cases cl env schedule) as [(t & code & -> & Ht & _) | (t & Ht & ->)].
  { simpl. split_and!; [| by read_trace..].
    intros Hin. not_in_trace Hin (Awaited Downloading true). }
  unfold after. simpl.
  destruct (orchestrate_Orchestrated (backoffConfig (retriesOf cl)) (concurrencyOf cl)
              (opt_debug cl) env schedule) as [| auth | auth disc | auth disc tasks down s
                                               | auth disc tasks down
                                               | auth disc tasks down results];
    chunk_facts.
  1-5: split_and!; [| by read_trace..];
       intros Hin; not_in_trace Hin (Awaited Downloading true).
  split_and!.
  - intros _.
    exists (t ++ Launch true
              :: (auth' ++ [Login true; Log (Text "Logged in.")])
              ++ Awaited Authenticating true
              :: (disc' ++ Discover tasks true :: logs) ++ Awaited Discovering true
              :: down),
           results, (tl (finish env results).1).
    destruct (finish_cases env results) as [-> | [-> | ->]]; simpl;
      (split_and!; [same_trace | by read_trace | done | by_chunks]).
  - intros Hnot. destruct Hnot. set_solver.
  - intros Hin.
    destruct (finish_cases env results) as [Hf | [Hf | Hf]]; rewrite Hf in Hin;
      simpl in Hin; not_in_trace Hin (Awaited Downloading false).
Qed.

(** C7, as the spec words it, fails: the page at position 1 uses up its
    retries, the download stage ends with its pipeline rejected, and the
    run ends without any call of [reportResults]. *)
Lemma no_report_after_failed_task :
  reports (main (commandLine (Int 4)) (world brokenPage) [1; 1; 1]).1 = []
  ∧ (main (commandLine (Int 4)) (world brokenPage) [1; 1; 1]).2 = Exit 1
  ∧ last (main (commandLine (Int 4)) (world brokenPage) [1; 1; 1]).1 = Some Close
  ∧ omap (λ e, match e with Awaited stage ok => Some (stage, ok) | _ => None end)
         (main (commandLine (Int 4)) (world brokenPage) [1; 1; 1]).1
    = [(Authenticating, true); (Discovering, true); (Downloading, false)].
Proof. by vm_compute. Qed.

(** ** A concurrency limit that is not positive *)

Lemma feed_closed n debug vs s :
  (n ≤ 0)%Z → active s = [] →
  feed (Int n) debug vs s
  = ([], {| active := []; buffer := buffer s ++ vs; collected := collected s |}).
Proof.
  intros Hn. revert s. induction vs as [| v vs IH]; intros s Ha; simpl.
  - rewrite app_nil_r. destruct s. simpl in *. by subst.
  - unfold next. rewrite Ha.
    rewrite num_lt_Int, bool_decide_eq_false_2 by (simpl; lia).
    rewrite IH by done. simpl. by rewrite <- app_assoc.
Qed.

Lemma drive_idle cfg concurrent debug d schedule s :
  active s = [] →
  drive cfg concurrent debug d schedule s
  = ([], match buffer s with [] => Completed (collected s) | _ => Running s end).
Proof. intros Ha. destruct schedule; simpl; rewrite Ha; by destruct (buffer s). Qed.

Lemma downloads_closed cfg n debug d tasks schedule :
  (n ≤ 0)%Z →
  downloads cfg (Int n) debug d tasks schedule
  = ([Log (Text "Downloading...")],
     match tasks with
     | [] => Completed []
     | _ => Running {| active := []; buffer := enumerate tasks; collected := [] |}
     end).
Proof.
  intros Hn. unfold downloads. rewrite feed_closed by done.
  rewrite drive_idle by done. simpl. by destruct tasks.
Qed.

Lemma login_attempted cfg d fuel index auth r :
  0 < fuel → retryBackoff cfg (loginOnce d) fuel index = (auth, r) → logins auth ≠ [].
Proof.
  destruct fuel as [| fuel]; [lia |]. intros _. cbn [retryBackoff].
  rewrite loginOnce_eq. unfold when.
  destruct (login d index), (bool_decide (index = 0)); simpl.
  1-2: intros [= <- <-]; done.
  all: destruct (retryDecision cfg index);
       [destruct (retryBackoff cfg (loginOnce d) fuel (S index)) |];
       intros [= <- <-]; done.
Qed.

Lemma discovery_attempted cfg d debug fuel index disc r :
  0 < fuel → retryBackoff cfg (discoverOnce d debug) fuel index = (disc, r) →
  discoveries disc ≠ [].
Proof.
  destruct fuel as [| fuel]; [lia |]. intros _. cbn [retryBackoff].
  rewrite discoverOnce_eq. unfold when.
  destruct (getDownloadTasks d index) as [emitted ok].
  destruct ok, (bool_decide (index = 0)); simpl.
  1-2: intros [= <- <-]; done.
  all: destruct (retryDecision cfg index);
       [destruct (retryBackoff cfg (discoverOnce d debug) fuel (S index)) |];
       intros [= <- <-]; done.
Qed.

Lemma main_configured cl env schedule t0 c h :
  getConfiguration cl env [] = (t0, Configured c, h) →
  ∃ t, Forall ofStartup t
       ∧ main cl env schedule
         = after t (orchestrate (backoffConfig (retriesOf cl)) (concurrencyOf cl)
                                (opt_debug cl) env schedule).
Proof.
  intros Hg. unfold main. rewrite Hg.
  pose proof (getConfiguration_prompts _ _ _ _ _ Hg) as Ht0.
  apply getConfiguration_Configured in Hg as (course_url & _ & _ & -> & ->).
  rewrite (debugDump_spec 2 (configured cl env course_url)) by done.
  destruct (configured_reads cl env course_url []) as (Hd & Hr & Hc).
  destruct (configured_reads cl env course_url
              [censor; censor ∪ configured cl env course_url]) as (Hd' & Hr' & Hc').
  simpl in Hd, Hr, Hc, Hd', Hr', Hc'. rewrite Hd.
  destruct (opt_debug cl) eqn:Hdebug; unfold pipeline.
  - simpl app. rewrite Hd', Hr', Hc'. eexists. split; [| done].
    apply Forall_app. split; [done |]. by repeat constructor.
  - rewrite Hd, Hr, Hc. exists (t0 ++ []). split; [| done].
    by rewrite app_nil_r.
Qed.

Lemma getConfiguration_accepts cl env course_url :
  from_option parseFormat_ok true (opt_format cl) = true →
  args cl = [course_url] → courseUrlPattern course_url = true →
  ∃ t, getConfiguration cl env []
       = (t, Configured 2, [opts cl; ∅; configured cl env course_url]).
Proof.
  intros Hfmt Hargs Hurl.
  destruct (getConfiguration cl env []) as [[t [code | c]] h] eqn:Hg.
  - exfalso. revert Hg. unfold getConfiguration.
    rewrite bool_decide_eq_false_2 by (by rewrite Hfmt). rewrite Hargs, Hurl.
    unfold alloc. simpl app. rewrite (clone_default 0 (opts cl)) by done.
    destruct (truthy (get _ _ "user")), (truthy (get _ _ "password")); done.
  - apply getConfiguration_Configured in Hg as (url & Hargs' & _ & -> & ->).
    rewrite Hargs in Hargs'. simplify_eq. by exists t.
Qed.

(** A reading of a trace is not empty: it has an element in a known
    place, or a chunk is known to have one. *)
Ltac nonempty_reading :=
  let H := fresh in
  read_trace; intros H;
  first [ done
        | apply (f_equal length) in H; rewrite ?length_app in H; simpl in H; lia ].

(** C8, as the code has it.  A concurrency limit [n <= 0] is not
    rejected: for a command line with an allowed format and one argument
    that matches the course URL pattern, [getConfiguration] returns the
    configuration with [concurrency = n]; once the browser is launched the
    run calls [login], and [getDownloadTasks] when the login pipeline is
    fulfilled; [performDownload] is never called. *)
Theorem nonpositive_concurrency_accepted cl env n course_url :
  opt_concurrency cl = Some (Int n) → (n ≤ 0)%Z →
  from_option parseFormat_ok true (opt_format cl) = true →
  args cl = [course_url] → courseUrlPattern course_url = true →
  (∃ t h, getConfiguration cl env [] = (t, Configured 2, h)
          ∧ get h 2 "concurrency" = VNum (Int n))
  ∧ ∀ schedule,
      launch env = true →
      logins (main cl env schedule).1 ≠ []
      ∧ (Awaited Authenticating true ∈ (main cl env schedule).1 →
         discoveries (main cl env schedule).1 ≠ [])
      ∧ Forall (λ e, ∀ p t, e ≠ Perform p t) (main cl env schedule).1.
Proof.
  intros Hc Hn Hfmt Hargs Hurl.
  destruct (getConfiguration_accepts cl env course_url Hfmt Hargs Hurl) as [t0 Hg].
  split.
  { eexists _, _. split; [exact Hg |]. unfold get. simpl.
    rewrite configured_other by done.
    replace (opts cl !! "concurrency")
      with (Some (VNum (default (Int 4) (opt_concurrency cl)))) by done.
    by rewrite Hc. }
  intros schedule Hlaunch.
  destruct (main_configured cl env schedule _ _ _ Hg) as (t & Ht & ->).
  unfold after. simpl.
  assert (Hcon : concurrencyOf cl = Int n) by (unfold concurrencyOf; by rewrite Hc).
  destruct (orchestrate_Orchestrated (backoffConfig (retriesOf cl)) (concurrencyOf cl)
              (opt_debug cl) env schedule) as [| auth Hl Hauth | auth disc Hl Hauth Hdisc
                                               | auth disc tasks down s Hl Hauth Hdisc Hdown
                                               | auth disc tasks down Hl Hauth Hdisc Hdown
                                               | auth disc tasks down results
                                                   Hl Hauth Hdisc Hdown];
    [congruence | ..];
    pose proof (login_attempted _ _ _ _ _ _ (attempts_pos _) Hauth) as Hla;
    try pose proof (discovery_attempted _ _ _ _ _ _ _ (attempts_pos _) Hdisc) as Hda;
    try (rewrite Hcon, downloads_closed in Hdown by done; simplify_eq);
    chunk_facts.
  - split_and!; [nonempty_reading
                 | intros Hin; not_in_trace Hin (Awaited Authenticating true)
                 | by_chunks].
  - split_and!; [nonempty_reading | intros _; nonempty_reading | by_chunks].
  - split_and!; [nonempty_reading | intros _; nonempty_reading | by_chunks].
  - destruct tasks; done.
  - destruct (finish_cases env results) as [-> | [-> | ->]];
      (split_and!; [nonempty_reading | intros _; nonempty_reading | by_chunks]).
Qed.

Lemma nonpositive_concurrency_accepted_witness :
  (∃ t h, getConfiguration (commandLine (Int 0)) (world reliable) []
          = (t, Configured 2, h)
          ∧ get h 2 "concurrency" = VNum (Int 0))
  ∧ ∀ schedule,
      launch (world reliable) = true →
      logins (main (commandLine (Int 0)) (world reliable) schedule).1 ≠ []
      ∧ (Awaited Authenticating true
           ∈ (main (commandLine (Int 0)) (world reliable) schedule).1 →
         discoveries (main (commandLine (Int 0)) (world reliable) schedule).1 ≠ [])
      ∧ Forall (λ e, ∀ p t, e ≠ Perform p t)
               (main (commandLine (Int 0)) (world reliable) schedule).1.
Proof.
  apply (nonpositive_concurrency_accepted (commandLine (Int 0)) (world reliable) 0
           "https://courses.edx.org/courses/course-v1:X+1+2020/course/");
    [reflexivity | lia | reflexivity | reflexivity | by vm_compute].
Defined.

(** C8, as the spec words it, fails: with [--concurrency 0] the
    configuration step returns the configuration, the run logs in and
    reads the task list, and then waits on the download pipeline. *)
Lemma concurrency_zero_not_rejected :
  (getConfiguration (commandLine (Int 0)) (world reliable) []).1.2 = Configured 2
  ∧ logins (main (commandLine (Int 0)) (world reliable) []).1 = [true]
  ∧ discoveries (main (commandLine (Int 0)) (world reliable) []).1
    = [(sampleTasks, true)]
  ∧ (main (commandLine (Int 0)) (world reliable) []).2 = Pending.
Proof. by vm_compute. Qed.

(** ** A login that succeeds at the second attempt *)

(** With a budget of at least one retry, a [login] that fails when first
    called and succeeds when called again fulfils the login pipeline
    after these two calls and one timer. *)
Lemma login_fulfilled_at_second_call cfg d r :
  maxRetries cfg = Int r → (1 ≤ r)%Z → login d 0 = false → login d 1 = true →
  retryBackoff cfg (loginOnce d) (attempts cfg) 0
  = ([Log (Text "Logging in..."); Login false;
      Wait (Z.min (2 ^ 0 * initialInterval cfg) (maxInterval cfg));
      Login true; Log (Text "Logged in.")], Fulfilled ()).
Proof.
  intros Hr Hr1 H0 H1. unfold attempts. rewrite Hr.
  destruct (Z.to_nat r) as [| fuel] eqn:Hfuel; [lia |].
  cbn [retryBackoff]. rewrite !loginOnce_eq, H0, H1.
  rewrite (retryDecision_Delay cfg r 0) by (done || lia). done.
Qed.

(** Like [chunk_facts], for the discovery and download chunks only. *)
Ltac later_chunk_facts :=
  repeat match goal with
    | H : retryBackoff _ (discoverOnce _ _) _ _ = (_, Fulfilled _) |- _ =>
        apply discovery_facts in H as (disc' & logs & -> & ? & ?)
    | H : retryBackoff _ (discoverOnce _ _) _ _ = (_, Rejected) |- _ =>
        apply discovery_facts in H
    | H : downloads _ _ _ _ _ _ = (_, _) |- _ =>
        apply downloads_facts in H
    end.

(** C9.  For a command line with an allowed format, one argument that
    matches the course URL pattern and a budget of at least one retry,
    and a browser that launches: when [login] fails at its first call and
    succeeds at its second, it is called exactly twice in the run.  The
    trace is a part with no stage event and no timer, then the failed
    call, one timer of 5000 ms, the successful call and the end of the
    authentication stage, then a part with nothing of the authentication
    stage, in which [getDownloadTasks] is called. *)
Theorem login_retried_once cl env schedule course_url r :
  from_option parseFormat_ok true (opt_format cl) = true →
  args cl = [course_url] → courseUrlPattern course_url = true →
  launch env = true →
  retriesOf cl = Int r → (1 ≤ r)%Z →
  login (downloader env) 0 = false → login (downloader env) 1 = true →
  ∃ pre post,
    (main cl env schedule).1
    = pre ++ [Login false; Wait 5000; Login true; Log (Text "Logged in.");
              Awaited Authenticating true] ++ post
    ∧ Forall (λ e, stageOf e = None ∧ ∀ ms, e ≠ Wait ms) pre
    ∧ Forall (λ e, stageOf e ≠ Some Authenticating) post
    ∧ logins (main cl env schedule).1 = [false; true]
    ∧ discoveries post ≠ [].
Proof.
  intros Hfmt Hargs Hurl Hlaunch Hr Hr1 H0 H1.
  destruct (getConfiguration_accepts cl env course_url Hfmt Hargs Hurl) as [t0 Hg].
  destruct (main_configured cl env schedule _ _ _ Hg) as (t & Ht & ->).
  unfold after. cbn [fst].
  pose proof (login_fulfilled_at_second_call (backoffConfig (retriesOf cl))
                (downloader env) r Hr Hr1 H0 H1) as Hlogin.
  change (Z.min (2 ^ 0 * initialInterval (backoffConfig (retriesOf cl)))
                (maxInterval (backoffConfig (retriesOf cl)))) with 5000%Z in Hlogin.
  pose proof (attempts_pos (backoffConfig (retriesOf cl))) as Hpos.
  destruct (orchestrate_Orchestrated (backoffConfig (retriesOf cl)) (concurrencyOf cl)
              (opt_debug cl) env schedule) as [Hl | auth Hl Hauth | auth disc Hl Hauth Hdisc
                                               | auth disc tasks down s Hl Hauth Hdisc Hdown
                                               | auth disc tasks down Hl Hauth Hdisc Hdown
                                               | auth disc tasks down results
                                                   Hl Hauth Hdisc Hdown];
    [congruence | congruence | ..];
    rewrite Hlogin in Hauth; injection Hauth as <-;
    pose proof (discovery_attempted _ _ _ _ _ _ _ Hpos Hdisc) as Hcalled;
    later_chunk_facts.
  - exists (t ++ [Launch true; Log (Text "Logging in...")]),
           (disc ++ [Awaited Discovering false; ConsoleError; Close]).
    split_and!; [same_trace | by_chunks | by_chunks | by read_trace |].
    revert Hcalled. unfold discoveries. rewrite omap_app. by destruct (omap _ disc).
  - exists (t ++ [Launch true; Log (Text "Logging in...")]),
           ((disc' ++ Discover tasks true :: logs) ++ Awaited Discovering true :: down).
    split_and!; [same_trace | by_chunks | by_chunks | by read_trace |].
    revert Hcalled. unfold discoveries. rewrite !omap_app.
    by destruct (omap _ disc').
  - exists (t ++ [Launch true; Log (Text "Logging in...")]),
           ((disc' ++ Discover tasks true :: logs) ++ Awaited Discovering true
            :: down ++ [Awaited Downloading false; ConsoleError; Close]).
    split_and!; [same_trace | by_chunks | by_chunks | by read_trace |].
    revert Hcalled. unfold discoveries. rewrite !omap_app.
    by destruct (omap _ disc').
  - exists (t ++ [Launch true; Log (Text "Logging in...")]),
           ((disc' ++ Discover tasks true :: logs) ++ Awaited Discovering true
            :: down ++ Awaited Downloading true :: (finish env results).1).
    split_and!; [same_trace | by_chunks | | |].
    + destruct (finish_cases env results) as [-> | [-> | ->]]; by_chunks.
    + destruct (finish_cases env results) as [-> | [-> | ->]]; by read_trace.
    + revert Hcalled. unfold discoveries. rewrite !omap_app.
      by destruct (omap _ disc').
Qed.

Lemma login_retried_once_witness :
  ∃ pre post,
    (main (commandLine (Int 4)) (world slowLogin) []).1
    = pre ++ [Login false; Wait 5000; Login true; Log (Text "Logged in.");
              Awaited Authenticating true] ++ post
    ∧ Forall (λ e, stageOf e = None ∧ ∀ ms, e ≠ Wait ms) pre
    ∧ Forall (λ e, stageOf e ≠ Some Authenticating) post
    ∧ logins (main (commandLine (Int 4)) (world slowLogin) []).1 = [false; true]
    ∧ discoveries post ≠ [].
Proof.
  apply (login_retried_once (commandLine (Int 4)) (world slowLogin) []
           "https://courses.edx.org/courses/course-v1:X+1+2020/course/" 1);
    [reflexivity | reflexivity | by vm_compute | reflexivity | reflexivity | lia
    | reflexivity | reflexivity].
Defined.


(** * Further properties *)

(** ** [clone] *)

(** X1.  [clone(object)] returns a location that was free, holding the
    properties of [object]; every object of the store stays as it was, and
    a property written to the copy afterwards does not show in [object]. *)
Theorem clone_is_a_copy (object : loc) (o : Obj) (h : Heap) :
  h !! object = Some o →
  ∃ copy h',
    clone object None h = (copy, h')
    ∧ h !! copy = None
    ∧ h' !! copy = Some o
    ∧ (∀ l x, h !! l = Some x → h' !! l = Some x)
    ∧ (∀ k v k', get (set copy k v h') object k' = get h object k')
    ∧ (∀ k v, get (set copy k v h') copy k = v).
Proof.
  intros Ho. pose proof (lookup_lt_Some _ _ _ Ho) as Hlt.
  exists (S (length h)), (h ++ [∅; o]). split_and!.
  - by apply clone_default.
  - apply lookup_ge_None. lia.
  - rewrite lookup_app_r by lia. by replace (S (length h) - length h) with 1 by lia.
  - intros l x Hl. by apply lookup_app_l_Some.
  - intros k v k'. unfold set, get.
    rewrite (lookup_app_r h) by lia.
    replace (S (length h) - length h) with 1 by lia. simpl.
    rewrite list_lookup_insert_ne by lia.
    by rewrite (lookup_app_l_Some _ _ _ _ Ho), Ho.
  - intros k v. unfold set, get.
    rewrite (lookup_app_r h) by lia.
    replace (S (length h) - length h) with 1 by lia. simpl.
    rewrite list_lookup_insert_eq by (rewrite length_app; simpl; lia).
    by rewrite lookup_insert_eq.
Qed.

Lemma clone_is_a_copy_witness :
  ∃ copy h',
    clone 0 None [opts (commandLine (Int 4))] = (copy, h')
    ∧ [opts (commandLine (Int 4))] !! copy = None
    ∧ h' !! copy = Some (opts (commandLine (Int 4)))
    ∧ (∀ l x, [opts (commandLine (Int 4))] !! l = Some x → h' !! l = Some x)
    ∧ (∀ k v k', get (set copy k v h') 0 k' = get [opts (commandLine (Int 4))] 0 k')
    ∧ (∀ k v, get (set copy k v h') copy k = v).
Proof.
  apply (clone_is_a_copy 0 (opts (commandLine (Int 4))) [opts (commandLine (Int 4))]).
  reflexivity.
Defined.

(** X2.  [clone(object, overwrite)] returns a location that was free; a
    property of the copy is the one of [overwrite] when [overwrite] has
    it, and the one of [object] otherwise; [object] and [overwrite], like
    every other object of the store, stay as they were. *)
Theorem clone_overwrite_wins (object ow : loc) (o w : Obj) (h : Heap) :
  h !! object = Some o → h !! ow = Some w →
  ∃ copy h',
    clone object (Some ow) h = (copy, h')
    ∧ h !! copy = None
    ∧ (∀ k, get h' copy k = match w !! k with
                            | Some v => v
                            | None => get h object k
                            end)
    ∧ (∀ l x, h !! l = Some x → h' !! l = Some x).
Proof.
  intros Ho Hw. exists (length h), (h ++ [w ∪ o]). split_and!.
  - by apply clone_overwrite.
  - by apply lookup_ge_None.
  - intros k. unfold get. rewrite lookup_snoc_new, Ho.
    destruct (w !! k) as [v |] eqn:Hk.
    + by rewrite (lookup_union_Some_l _ _ _ _ Hk).
    + by rewrite lookup_union_r.
  - intros l x Hl. by apply lookup_app_l_Some.
Qed.

Lemma clone_overwrite_wins_witness :
  ∃ copy h',
    clone 0 (Some 1) [opts (commandLine (Int 4)); censor] = (copy, h')
    ∧ [opts (commandLine (Int 4)); censor] !! copy = None
    ∧ (∀ k, get h' copy k = match censor !! k with
                            | Some v => v
                            | None => get [opts (commandLine (Int 4)); censor] 0 k
                            end)
    ∧ (∀ l x, [opts (commandLine (Int 4)); censor] !! l = Some x → h' !! l = Some x).
Proof.
  apply (clone_overwrite_wins 0 1 (opts (commandLine (Int 4))) censor
           [opts (commandLine (Int 4)); censor]); reflexivity.
Defined.

(** ** [parseFormat] and [getConfiguration] *)

Lemma parseFormat_ok_spec value :
  parseFormat_ok value = true ↔ value = "pdf"%string ∨ value = "png"%string.
Proof.
  unfold parseFormat_ok. rewrite bool_decide_eq_true.
  rewrite !elem_of_cons, elem_of_nil. naive_solver.
Qed.

(** X3.  [getConfiguration] checks three things and nothing else: it
    returns a configuration exactly when the format, if given, is "pdf" or
    "png", there is exactly one argument, and that argument matches the
    course URL pattern.  The values of [--retries], [--delay] and
    [--concurrency] play no part. *)
Theorem getConfiguration_checks cl env :
  (∃ t c h, getConfiguration cl env [] = (t, Configured c, h))
  ↔ (opt_format cl = None ∨ opt_format cl = Some "pdf"%string
     ∨ opt_format cl = Some "png"%string)
    ∧ ∃ course_url, args cl = [course_url] ∧ courseUrlPattern course_url = true.
Proof.
  split.
  - intros (t & c & h & Hg). split.
    + revert Hg. unfold getConfiguration. case_bool_decide as Hf; [done |]. intros _.
      destruct (opt_format cl) as [value |]; [| by left]. simpl in Hf.
      apply not_false_is_true, parseFormat_ok_spec in Hf as [-> | ->]; auto.
    + apply getConfiguration_Configured in Hg as (url & ? & ? & _). by exists url.
  - intros [Hf (url & Hargs & Hurl)].
    destruct (getConfiguration_accepts cl env url) as [t Ht]; [| done | done | by eauto].
    destruct Hf as [-> | [-> | ->]]; done.
Qed.

(** X4.  A format other than "pdf" and "png" ends the run with the line
    "invalid format: ..." and exit status 1, before the arguments are
    looked at: nothing is asked, the browser is not launched. *)
Theorem invalid_format_exits cl env schedule value :
  opt_format cl = Some value → value ≠ "pdf"%string → value ≠ "png"%string →
  main cl env schedule = ([Log (Text ("invalid format: " +:+ value))], Exit 1).
Proof.
  intros Hf H1 H2. unfold main, getConfiguration. rewrite Hf. simpl.
  rewrite bool_decide_eq_true_2; [done |].
  apply not_true_is_false. rewrite parseFormat_ok_spec. naive_solver.
Qed.

Lemma invalid_format_exits_witness :
  main {| args := []; opt_user := None; opt_password := None; opt_output := None;
          opt_format := Some "PDF"%string; opt_retries := None; opt_delay := None;
          opt_concurrency := None; opt_debug := false |}
       (world reliable) []
  = ([Log (Text ("invalid format: " +:+ "PDF"))], Exit 1).
Proof.
  apply (invalid_format_exits _ (world reliable) [] "PDF"); done.
Defined.

(** X5.  The configuration [getConfiguration] returns: the course URL is
    the argument; each option has the value given or its declared default
    ('Archive', 'pdf', 3, 1, 4, false); the user name and the password are
    the options when these are non-empty strings, else what was typed;
    there is no other property.  The user name is asked before the
    password, each only when its option is missing or empty.  The object
    [program.opts()] returned is left as it was. *)
Theorem getConfiguration_contents cl env t c h :
  getConfiguration cl env [] = (t, Configured c, h) →
  ∃ course_url,
    args cl = [course_url]
    ∧ t = when (negb (truthy (optional (opt_user cl)))) [Prompt "User: "]
          ++ when (negb (truthy (optional (opt_password cl)))) [Prompt "Password: "]
    ∧ get h c "courseUrl" = VStr course_url
    ∧ get h c "user" = VStr (credential (opt_user cl) (answerUser env))
    ∧ get h c "password" = VStr (credential (opt_password cl) (answerPassword env))
    ∧ get h c "output" = VStr (default "Archive"%string (opt_output cl))
    ∧ get h c "format" = VStr (default "pdf"%string (opt_format cl))
    ∧ get h c "retries" = VNum (default (Int 3) (opt_retries cl))
    ∧ get h c "delay" = VNum (default (Int 1) (opt_delay cl))
    ∧ get h c "concurrency" = VNum (default (Int 4) (opt_concurrency cl))
    ∧ get h c "debug" = VBool (opt_debug cl)
    ∧ (∀ k, k ∉ configurationKeys → get h c k = VUndefined)
    ∧ h !! 0 = Some (opts cl).
Proof.
  intros Hg.
  assert (Ht : t = when (negb (truthy (optional (opt_user cl)))) [Prompt "User: "]
               ++ when (negb (truthy (optional (opt_password cl))))
                    [Prompt "Password: "]).
  { revert Hg. unfold getConfiguration. case_bool_decide; [done |].
    destruct (args cl) as [| course_url [|]]; [done | | done].
    destruct (courseUrlPattern course_url); [| done].
    unfold alloc. simpl app. rewrite (clone_default 0 (opts cl)) by done. simpl app.
    assert (Hu : opts cl !! "user" = Some (optional (opt_user cl))) by done.
    assert (Hp : opts cl !! "password" = Some (optional (opt_password cl))) by done.
    unfold set, get. simpl. rewrite lookup_insert_ne, Hu by done. simpl.
    destruct (truthy (optional (opt_user cl))); simpl;
      rewrite ?lookup_insert_ne by done; rewrite Hp; simpl;
      destruct (truthy (optional (opt_password cl))); simpl;
      intros Heq; by simplify_eq. }
  apply getConfiguration_Configured in Hg as (course_url & Hargs & _ & -> & ->).
  exists course_url. unfold get. simpl.
  rewrite configured_user, configured_password.
  rewrite (configured_other _ _ _ "output"), (configured_other _ _ _ "format"),
    (configured_other _ _ _ "retries"), (configured_other _ _ _ "delay"),
    (configured_other _ _ _ "concurrency"), (configured_other _ _ _ "debug") by done.
  split_and!; try done.
  - unfold configured.
    destruct (truthy (optional (opt_user cl))), (truthy (optional (opt_password cl)));
      rewrite ?lookup_insert_ne by done; by rewrite lookup_insert_eq.
  - intros k Hk. unfold configurationKeys in Hk.
    rewrite !not_elem_of_cons in Hk. destruct Hk as (? & ? & ? & ? & ? & ? & ? & ? & ? & _).
    rewrite configured_other by done. unfold opts.
    by rewrite !lookup_insert_ne, lookup_empty by done.
Qed.

Lemma getConfiguration_contents_witness :
  ∃ course_url,
    args (commandLine (Int 4)) = [course_url]
    ∧ (getConfiguration (commandLine (Int 4)) (world reliable) []).1.1
      = when (negb (truthy (optional None))) [Prompt "User: "]
        ++ when (negb (truthy (optional None))) [Prompt "Password: "]
    ∧ get (getConfiguration (commandLine (Int 4)) (world reliable) []).2 2 "courseUrl"
      = VStr course_url
    ∧ get (getConfiguration (commandLine (Int 4)) (world reliable) []).2 2 "user"
      = VStr "student@example.org"
    ∧ get (getConfiguration (commandLine (Int 4)) (world reliable) []).2 2 "password"
      = VStr "hunter2"
    ∧ get (getConfiguration (commandLine (Int 4)) (world reliable) []).2 2 "output"
      = VStr "Archive"
    ∧ get (getConfiguration (commandLine (Int 4)) (world reliable) []).2 2 "format"
      = VStr "pdf"
    ∧ get (getConfiguration (commandLine (Int 4)) (world reliable) []).2 2 "retries"
      = VNum (Int 1)
    ∧ get (getConfiguration (commandLine (Int 4)) (world reliable) []).2 2 "delay"
      = VNum (Int 1)
    ∧ get (getConfiguration (commandLine (Int 4)) (world reliable) []).2 2 "concurrency"
      = VNum (Int 4)
    ∧ get (getConfiguration (commandLine (Int 4)) (world reliable) []).2 2 "debug"
      = VBool true
    ∧ (∀ k, k ∉ configurationKeys →
         get (getConfiguration (commandLine (Int 4)) (world reliable) []).2 2 k
         = VUndefined)
    ∧ (getConfiguration (commandLine (Int 4)) (world reliable) []).2 !! 0
      = Some (opts (commandLine (Int 4))).
Proof.
  apply (getConfiguration_contents (commandLine (Int 4)) (world reliable)
           (getConfiguration (commandLine (Int 4)) (world reliable) []).1.1 2
           (getConfiguration (commandLine (Int 4)) (world reliable) []).2).
  assert (E : (getConfiguration (commandLine (Int 4)) (world reliable) []).1.2
              = Configured 2) by (vm_compute; reflexivity).
  destruct (getConfiguration (commandLine (Int 4)) (world reliable) []) as [[t r] h].
  simpl in E. subst r. reflexivity.
Defined.

(** ** The course URL pattern *)

Lemma matchAtoms_literal p q s r :
  matchAtoms (literal p ++ q) s = Some r
  ↔ ∃ s', s = p +:+ s' ∧ matchAtoms q s' = Some r.
Proof.
  revert s. induction p as [| c p IH]; intros s.
  - simpl. split; [by exists s | by intros (s' & -> & ?)].
  - change (literal (String c p) ++ q) with (Lit c :: (literal p ++ q)).
    destruct s as [| c0 s]; simpl.
    + split; [done | by intros (s' & ? & ?)].
    + case_bool_decide as Hc.
      * subst c0. rewrite IH. split.
        -- intros (s' & -> & ?). by exists s'.
        -- intros (s' & [= ->] & ?). by exists s'.
      * split; [done |]. intros (s' & [= ? ?] & ?). by subst.
Qed.

Lemma matchAtoms_dot q s r :
  matchAtoms (Dot :: q) s = Some r
  ↔ ∃ c s', s = String c s' ∧ lineTerminator c = false ∧ matchAtoms q s' = Some r.
Proof.
  destruct s as [| c s]; simpl.
  - split; [done | by intros (? & ? & ? & _)].
  - destruct (lineTerminator c) eqn:Hc; simpl.
    + split; [done |]. intros (c' & s' & [= -> ->] & ? & _). congruence.
    + split; [by exists c, s |]. by intros (c' & s' & [= -> ->] & _ & ?).
Qed.

Lemma substring_whole s : substring 0 (String.length s) s = s.
Proof. induction s as [| c s IH]; simpl; [done | by rewrite IH]. Qed.

Lemma substring_append_l a b : substring 0 (String.length a) (a +:+ b) = a.
Proof.
  induction a as [| c a IH]; simpl; [by destruct b | by rewrite IH].
Qed.

Lemma substring_append_r a b :
  substring (String.length a) (String.length b) (a +:+ b) = b.
Proof. induction a as [| c a IH]; simpl; [apply substring_whole | done]. Qed.

Lemma length_append a b :
  String.length (a +:+ b) = String.length a + String.length b.
Proof. induction a as [| c a IH]; simpl; [done | by rewrite IH]. Qed.

Lemma substring_split s k :
  k ≤ String.length s →
  s = substring 0 k s +:+ substring k (String.length s - k) s.
Proof.
  revert k. induction s as [| c s IH]; intros k Hk; simpl in *.
  - by destruct k.
  - destruct k as [| k]; simpl.
    + by rewrite substring_whole.
    + change (String c s
              = String c (substring 0 k s +:+ substring k (String.length s - k) s)).
      f_equal. apply IH. lia.
Qed.

Lemma ends_with_course rest :
  bool_decide (8 ≤ String.length rest)
  && String.eqb (substring (String.length rest - 8) 8 rest) "/course/"
  && forallb (λ c, negb (lineTerminator c))
       (list_ascii_of_string (substring 0 (String.length rest - 8) rest)) = true
  ↔ ∃ mid, rest = mid +:+ "/course/" ∧ sameLine mid.
Proof.
  rewrite !andb_true_iff, bool_decide_eq_true, String.eqb_eq. split.
  - intros [[Hlen Hend] Hmid].
    exists (substring 0 (String.length rest - 8) rest). split; [| done].
    rewrite (substring_split rest (String.length rest - 8)) at 1 by lia.
    replace (String.length rest - (String.length rest - 8)) with 8 by lia.
    by rewrite Hend.
  - intros (mid & -> & Hmid). rewrite length_append. simpl.
    replace (String.length mid + 8 - 8) with (String.length mid) by lia.
    split_and!; [lia | | ].
    + apply (substring_append_r mid "/course/").
    + by rewrite substring_append_l.
Qed.

(** X6.  On strings of one-byte characters, the strings
    [courseUrlPattern] accepts are exactly "https://courses", any
    character, "edx", any character, "org/courses/", any characters,
    "/course/", where "any character" leaves out line feed and carriage
    return: the dots of the host name are not escaped in the pattern, so
    they stand for any character. *)
Theorem courseUrlPattern_accepts s :
  courseUrlPattern s = true
  ↔ ∃ c1 c2 mid,
      s = "https://courses"
          +:+ String c1 ("edx" +:+ String c2 ("org/courses/" +:+ (mid +:+ "/course/")))
      ∧ lineTerminator c1 = false ∧ lineTerminator c2 = false ∧ sameLine mid.
Proof.
  unfold courseUrlPattern.
  set (pattern := literal "https://courses" ++ [Dot] ++ literal "edx" ++ [Dot]
                  ++ literal "org/courses/").
  assert (Hprefix : ∀ rest,
    matchAtoms pattern s = Some rest
    ↔ ∃ c1 c2, s = "https://courses"
                   +:+ String c1 ("edx" +:+ String c2 ("org/courses/" +:+ rest))
               ∧ lineTerminator c1 = false ∧ lineTerminator c2 = false).
  { intros rest. unfold pattern. rewrite matchAtoms_literal. split.
    - intros (s1 & -> & H1). apply matchAtoms_dot in H1 as (c1 & s2 & -> & Hc1 & H2).
      apply matchAtoms_literal in H2 as (s3 & -> & H3).
      apply matchAtoms_dot in H3 as (c2 & s4 & -> & Hc2 & H4).
      rewrite <- (app_nil_r (literal "org/courses/")) in H4.
      apply matchAtoms_literal in H4 as (s5 & -> & [= ->]).
      by exists c1, c2.
    - intros (c1 & c2 & -> & Hc1 & Hc2). eexists. split; [done |].
      apply matchAtoms_dot. eexists _, _. split_and!; [done | done |].
      apply matchAtoms_literal. eexists. split; [done |].
      apply matchAtoms_dot. eexists _, _. split_and!; [done | done |].
      rewrite <- (app_nil_r (literal "org/courses/")).
      apply matchAtoms_literal. by eexists. }
  destruct (matchAtoms pattern s) as [rest |].
  - rewrite ends_with_course.
    destruct (proj1 (Hprefix rest) eq_refl) as (c1 & c2 & Hs & Hc1 & Hc2). split.
    + intros (mid & -> & Hmid). by exists c1, c2, mid.
    + intros (c1' & c2' & mid & Heq & _ & _ & Hmid). rewrite Heq in Hs. simpl in Hs.
      simplify_eq. by exists mid.
  - split; [done |]. intros (c1 & c2 & mid & Hs & Hc1 & Hc2 & _).
    assert (None = Some (mid +:+ "/course/")) as Hsome
      by (apply Hprefix; by exists c1, c2).
    done.
Qed.

(** ** What a run prints and when it waits *)

Lemma retryBackoff_Emitted {A} cfg debug (subscribe : nat → list Event * option A)
    fuel index :
  (∀ k, Forall (Emitted cfg debug) (subscribe k).1) →
  Forall (Emitted cfg debug) (retryBackoff cfg subscribe fuel index).1.
Proof.
  intros Hsub. revert index.
  induction fuel as [| fuel IH]; intros index; cbn [retryBackoff]; [done |].
  specialize (Hsub index). destruct (subscribe index) as [t [a |]]; [done |].
  destruct (retryDecision cfg index) as [ms |] eqn:Hd; [| done].
  specialize (IH (S index)).
  destruct (retryBackoff cfg subscribe fuel (S index)) as [t' r']. simpl in *.
  apply Forall_app. split; [done |]. constructor; [by econstructor | done].
Qed.

Lemma login_Emitted cfg debug d fuel index :
  Forall (Emitted cfg debug) (retryBackoff cfg (loginOnce d) fuel index).1.
Proof.
  apply retryBackoff_Emitted. intros k. rewrite loginOnce_eq. unfold when. simpl.
  case_bool_decide; destruct (login d k); simpl; repeat constructor.
Qed.

Lemma created_Emitted cfg (emitted : list Task) :
  Forall (Emitted cfg true)
    (emitted ≫= λ t, [Log (Text "Created download task:"); Log (DumpTask t)]).
Proof.
  induction emitted as [| t l IH]; [done |]. by do 2 (constructor; [by constructor |]).
Qed.

Lemma discovery_Emitted cfg debug d fuel index :
  Forall (Emitted cfg debug) (retryBackoff cfg (discoverOnce d debug) fuel index).1.
Proof.
  apply retryBackoff_Emitted. intros k. rewrite discoverOnce_eq. unfold when.
  cbn [fst]. apply Forall_app. split; [case_bool_decide; repeat constructor |].
  constructor; [constructor |]. apply Forall_app. split.
  - destruct debug; [apply created_Emitted | done].
  - destruct (getDownloadTasks d k).2; [| done].
    constructor; [constructor |]. destruct debug; [| done]. by repeat constructor.
Qed.

Lemma next_Emitted cfg concurrent debug v s :
  Forall (Emitted cfg debug) (next concurrent debug v s).1.
Proof.
  unfold next, project, when. destruct (num_lt _ _); [| done]. simpl.
  destruct debug; by repeat constructor.
Qed.

Lemma feed_Emitted cfg concurrent debug vs s :
  Forall (Emitted cfg debug) (feed concurrent debug vs s).1.
Proof.
  revert s. induction vs as [| v vs IH]; intros s; simpl; [done |].
  pose proof (next_Emitted cfg concurrent debug v s) as H.
  destruct (next concurrent debug v s) as [t s1].
  specialize (IH s1). destruct (feed concurrent debug vs s1). simpl in *.
  by apply Forall_app.
Qed.

Lemma settle_Emitted cfg concurrent debug d choice s :
  Forall (Emitted cfg debug) (settle cfg concurrent debug d choice s).1.
Proof.
  unfold settle. destruct (active s !! _) as [inner |]; [| done].
  destruct (in_waiting inner); [by repeat constructor |].
  destruct (performDownload d _ _) as [result |].
  - unfold notifyComplete. cbn [buffer active collected].
    assert (Hhead : Forall (Emitted cfg debug)
                      (when debug [Log (DumpResult result)])).
    { unfold when. destruct debug; by repeat constructor. }
    destruct (buffer s) as [| v held].
    + simpl. do 2 (constructor; [constructor |]). by rewrite app_nil_r.
    + match goal with |- context [next ?c ?b ?v ?s] =>
        pose proof (next_Emitted cfg c b v s) as H; destruct (next c b v s) end.
      simpl in *. do 2 (constructor; [constructor |]). by apply Forall_app.
  - destruct (retryDecision cfg _) eqn:Hd.
    + constructor; [constructor |]. constructor; [by econstructor | done].
    + by repeat constructor.
Qed.

Lemma drive_Emitted cfg concurrent debug d schedule s :
  Forall (Emitted cfg debug) (drive cfg concurrent debug d schedule s).1.
Proof.
  revert s. induction schedule as [| choice schedule IH]; intros s; simpl.
  - by destruct (active s), (buffer s).
  - destruct (active s) eqn:Ha; [by destruct (buffer s) |].
    pose proof (settle_Emitted cfg concurrent debug d choice s) as H.
    destruct (settle cfg concurrent debug d choice s) as [t [s' |]]; [| done].
    specialize (IH s'). destruct (drive cfg concurrent debug d schedule s').
    simpl in *. by apply Forall_app.
Qed.

Lemma downloads_Emitted cfg concurrent debug d tasks schedule :
  Forall (Emitted cfg debug) (downloads cfg concurrent debug d tasks schedule).1.
Proof.
  unfold downloads.
  pose proof (feed_Emitted cfg concurrent debug (enumerate tasks) initial) as H.
  destruct (feed concurrent debug (enumerate tasks) initial) as [t0 s0].
  pose proof (drive_Emitted cfg concurrent debug d schedule s0) as H'.
  destruct (drive cfg concurrent debug d schedule s0). simpl in *.
  constructor; [constructor |]. by apply Forall_app.
Qed.

Lemma orchestrate_Emitted cfg concurrent debug env schedule :
  Forall (λ e, Emitted cfg debug e ∨ ofMain e)
    (orchestrate cfg concurrent debug env schedule).1.
Proof.
  assert (Hor : ∀ l, Forall (Emitted cfg debug) l
                     → Forall (λ e, Emitted cfg debug e ∨ ofMain e) l).
  { intros l Hl. eapply Forall_impl; [exact Hl |]. auto. }
  destruct (orchestrate_Orchestrated cfg concurrent debug env schedule)
    as [| auth Hl Hauth | auth disc Hl Hauth Hdisc
        | auth disc tasks down s Hl Hauth Hdisc Hdown
        | auth disc tasks down Hl Hauth Hdisc Hdown
        | auth disc tasks down results Hl Hauth Hdisc Hdown];
    try (pose proof (login_Emitted cfg debug (downloader env) (attempts cfg) 0) as Ha;
         rewrite Hauth in Ha; apply Hor in Ha);
    try (pose proof (discovery_Emitted cfg debug (downloader env) (attempts cfg) 0) as Hb;
         rewrite Hdisc in Hb; apply Hor in Hb);
    try (pose proof (downloads_Emitted cfg concurrent debug (downloader env) tasks
                       schedule) as Hc;
         rewrite Hdown in Hc; apply Hor in Hc);
    simpl in *.
  1-5: repeat first [ apply Forall_nil_2 | apply Forall_cons; split
                    | apply Forall_app; split | done | by right ].
  destruct (finish_cases env results) as [-> | [-> | ->]];
    repeat first [ apply Forall_nil_2 | apply Forall_cons; split
                 | apply Forall_app; split | done | by right ].
Qed.

(** A run stops in [getConfiguration] with one of three traces, or goes
    on to [orchestrate] after the prompts and the debug dump. *)
Lemma main_parts cl env schedule :
  (∃ t code, main cl env schedule = (t, Exit code)
             ∧ ((∃ value, t = [Log (Text ("invalid format: " +:+ value))])
                ∨ t = [Help]
                ∨ t = [Log (Text "Invalid course url.
Course url should look like: https://courses.edx.org/<course_id>/course/")]))
  ∨ (∃ t, Forall (ofConfigured (opt_debug cl)) t
          ∧ main cl env schedule
            = after t (orchestrate (backoffConfig (retriesOf cl)) (concurrencyOf cl)
                                   (opt_debug cl) env schedule)).
Proof.
  destruct (getConfiguration cl env []) as [[t0 [code | c]] h] eqn:Hg.
  - left. exists t0, code. split; [unfold main; by rewrite Hg |].
    revert Hg. unfold getConfiguration. case_bool_decide.
    { intros [= <- <- <-]. left. by eexists. }
    destruct (args cl) as [| course_url [|]]; [intros [= <- <- <-]; auto | |
                                               intros [= <- <- <-]; auto].
    destruct (courseUrlPattern course_url); [| intros [= <- <- <-]; auto].
    unfold alloc. simpl app. rewrite (clone_default 0 (opts cl)) by done.
    destruct (truthy (get _ _ "user")), (truthy (get _ _ "password")); done.
  - right. unfold main. rewrite Hg.
    pose proof (getConfiguration_only_prompts _ _ _ _ _ Hg) as Ht0.
    assert (Ht0' : Forall (ofConfigured (opt_debug cl)) t0).
    { eapply Forall_impl; [exact Ht0 |]. by intros []. }
    apply getConfiguration_Configured in Hg as (course_url & _ & _ & -> & ->).
    rewrite (debugDump_spec 2 (configured cl env course_url)) by done.
    destruct (configured_reads cl env course_url []) as (Hd & Hr & Hc).
    destruct (configured_reads cl env course_url
                [censor; censor ∪ configured cl env course_url]) as (Hd' & Hr' & Hc').
    simpl in Hd, Hr, Hc, Hd', Hr', Hc'. rewrite Hd.
    destruct (opt_debug cl) eqn:Hdebug; unfold pipeline.
    + simpl app. rewrite Hd', Hr', Hc'. eexists. split; [| done].
      apply Forall_app. split; [done |]. by repeat constructor.
    + rewrite Hd, Hr, Hc. exists (t0 ++ []). split; [| done].
      by rewrite app_nil_r.
Qed.

Lemma Emitted_Wait cfg debug ms :
  Emitted cfg debug (Wait ms) → ∃ k, retryDecision cfg k = Delay ms.
Proof. inversion 1. by eexists. Qed.

Lemma backoffConfig_Delay retries k ms :
  retryDecision (backoffConfig retries) k = Delay ms →
  num_lt (Int (Z.of_nat k)) retries = true
  ∧ ms = Z.min (5000 * 2 ^ Z.of_nat k) 60000 ∧ (5000 ≤ ms ≤ 60000)%Z.
Proof.
  unfold retryDecision, getDelay, exponentialBackoffDelay, backoffConfig.
  cbn [maxRetries initialInterval maxInterval].
  destruct (num_lt (Int (Z.of_nat k)) retries); [| done]. intros [= <-].
  assert (0 < 2 ^ Z.of_nat k)%Z by (apply Z.pow_pos_nonneg; lia).
  split_and!; [done | f_equal; lia | lia | lia].
Qed.

Lemma waits_nil l : (∀ ms, Wait ms ∉ l) → waits l = [].
Proof.
  intros H. apply elem_of_nil_inv. intros ms Hin.
  apply list_elem_of_omap in Hin as (e & He & Hf).
  destruct e; simplify_eq. by destruct (H ms).
Qed.

Lemma main_Wait cl env schedule ms :
  Wait ms ∈ (main cl env schedule).1 →
  ∃ k, retryDecision (backoffConfig (retriesOf cl)) k = Delay ms.
Proof.
  destruct (main_parts cl env schedule)
    as [(t & code & -> & [[v ->] | [-> | ->]]) | (t & Ht & ->)]; simpl.
  1-3: intros Hin; apply elem_of_cons in Hin as [? | Hin]; [done |];
       by apply elem_of_nil in Hin.
  rewrite elem_of_app. intros [Hin | Hin].
  - apply (proj1 (Forall_forall _ _) Ht) in Hin. done.
  - apply (proj1 (Forall_forall _ _) (orchestrate_Emitted _ _ _ _ _)) in Hin
      as [Hin | Hin]; [| done].
    by eapply Emitted_Wait.
Qed.

(** X7.  Every timer of a run is one the retry policy prescribes: it
    lasts [min (5000 * 2^k) 60000] ms for a failure counter [k] below
    [--retries], hence between 5 and 60 seconds.  With [--retries] not a
    number, zero or negative, no run ever waits. *)
Theorem timers_follow_policy cl env schedule :
  (∀ ms, Wait ms ∈ (main cl env schedule).1 →
     ∃ k : nat, num_lt (Int (Z.of_nat k)) (retriesOf cl) = true
                ∧ ms = Z.min (5000 * 2 ^ Z.of_nat k) 60000
                ∧ (5000 ≤ ms ≤ 60000)%Z)
  ∧ ((retriesOf cl = NaN ∨ ∃ z, retriesOf cl = Int z ∧ (z ≤ 0)%Z) →
     waits (main cl env schedule).1 = []).
Proof.
  split.
  - intros ms Hin. apply main_Wait in Hin as [k Hk]. exists k.
    by apply backoffConfig_Delay.
  - intros Hr. apply waits_nil. intros ms Hin.
    apply main_Wait in Hin as [k Hk].
    apply backoffConfig_Delay in Hk as [Hlt _].
    destruct Hr as [Hr | (z & Hr & Hz)]; rewrite Hr in Hlt; [done |].
    rewrite num_lt_Int in Hlt. apply bool_decide_eq_true in Hlt. lia.
Qed.

Ltac awaited :=
  repeat first [ apply Forall_nil_2 | apply Forall_cons; split
               | apply Forall_app; split | done | by right ].

Lemma orchestrate_split cfg concurrent debug env schedule :
  ∃ body tail,
    (orchestrate cfg concurrent debug env schedule).1 = body ++ tail
    ∧ Forall (λ e, Emitted cfg debug e ∨ ofAwait e) body
    ∧ Ending env tail (orchestrate cfg concurrent debug env schedule).2.
Proof.
  assert (Hor : ∀ l, Forall (Emitted cfg debug) l
                     → Forall (λ e, Emitted cfg debug e ∨ ofAwait e) l).
  { intros l Hl. eapply Forall_impl; [exact Hl |]. auto. }
  destruct (orchestrate_Orchestrated cfg concurrent debug env schedule)
    as [Hl | auth Hl Hauth | auth disc Hl Hauth Hdisc
        | auth disc tasks down s Hl Hauth Hdisc Hdown
        | auth disc tasks down Hl Hauth Hdisc Hdown
        | auth disc tasks down results Hl Hauth Hdisc Hdown];
    try (pose proof (login_Emitted cfg debug (downloader env) (attempts cfg) 0) as Ha;
         rewrite Hauth in Ha; apply Hor in Ha);
    try (pose proof (discovery_Emitted cfg debug (downloader env) (attempts cfg) 0) as Hb;
         rewrite Hdisc in Hb; apply Hor in Hb);
    try (pose proof (downloads_Emitted cfg concurrent debug (downloader env) tasks
                       schedule) as Hc;
         rewrite Hdown in Hc; apply Hor in Hc);
    cbn [fst snd] in *.
  - exists [Launch false], [ConsoleError].
    split_and!; [done | awaited | by constructor].
  - exists (Launch true :: auth ++ [Awaited Authenticating false]), [ConsoleError; Close].
    split_and!; [same_trace | awaited | by constructor].
  - exists (Launch true :: auth ++ Awaited Authenticating true
              :: disc ++ [Awaited Discovering false]), [ConsoleError; Close].
    split_and!; [same_trace | awaited | by constructor].
  - exists (Launch true :: auth ++ Awaited Authenticating true
              :: disc ++ Awaited Discovering true :: down), [].
    split_and!; [same_trace | awaited | by constructor].
  - exists (Launch true :: auth ++ Awaited Authenticating true
              :: disc ++ Awaited Discovering true
              :: down ++ [Awaited Downloading false]), [ConsoleError; Close].
    split_and!; [same_trace | awaited | by constructor].
  - exists (Launch true :: auth ++ Awaited Authenticating true
              :: disc ++ Awaited Discovering true
              :: down ++ [Awaited Downloading true]), (finish env results).1.
    split_and!; [same_trace | awaited |].
    unfold finish, after, catch.
    destruct (reportResults _ _) eqn:Hreport; [destruct (close env) eqn:Hclose |]; simpl;
      by constructor.
Qed.

(** A run stops in [getConfiguration], or its trace is: the prompts and
    the debug dump, what the pipelines put out, and an ending. *)
Lemma main_split cl env schedule :
  (∃ t code, main cl env schedule = (t, Exit code)
             ∧ ((∃ value, t = [Log (Text ("invalid format: " +:+ value))])
                ∨ t = [Help]
                ∨ t = [Log (Text "Invalid course url.
Course url should look like: https://courses.edx.org/<course_id>/course/")]))
  ∨ (∃ t body tail,
       (main cl env schedule).1 = t ++ body ++ tail
       ∧ Forall (ofConfigured (opt_debug cl)) t
       ∧ Forall (λ e, Emitted (backoffConfig (retriesOf cl)) (opt_debug cl) e ∨ ofAwait e)
                body
       ∧ Ending env tail (main cl env schedule).2).
Proof.
  destruct (main_parts cl env schedule) as [H | (t & Ht & ->)]; [by left | right].
  destruct (orchestrate_split (backoffConfig (retriesOf cl)) (concurrencyOf cl)
              (opt_debug cl) env schedule) as (body & tail & Heq & Hbody & Hend).
  exists t, body, tail. unfold after. cbn [fst snd]. by rewrite Heq.
Qed.

Lemma Emitted_text cfg e : Emitted cfg false e → dumps e = false.
Proof. by inversion 1. Qed.

Lemma Ending_text env tail out : Ending env tail out → Forall (λ e, dumps e = false) tail.
Proof. inversion 1; by repeat constructor. Qed.

(** X8.  Without [--debug] a run prints text lines only: no configuration
    object, no task, no task array and no result is dumped. *)
Theorem text_only_without_debug cl env schedule :
  opt_debug cl = false → Forall (λ e, dumps e = false) (main cl env schedule).1.
Proof.
  intros Hdebug.
  destruct (main_split cl env schedule)
    as [(t & code & -> & [[v ->] | [-> | ->]])
       | (t & body & tail & -> & Ht & Hbody & Hend)]; cbn [fst].
  1-3: by repeat constructor.
  rewrite Hdebug in *. rewrite !Forall_app. split_and!.
  - eapply Forall_impl; [exact Ht |]. intros [[] | | | | | | | | | | | |]; naive_solver.
  - eapply Forall_impl; [exact Hbody |]. intros e [He | He].
    + by eapply Emitted_text.
    + by destruct e.
  - by eapply Ending_text.
Qed.

Lemma text_only_without_debug_witness :
  Forall (λ e, dumps e = false)
    (main {| args := ["https://courses.edx.org/courses/X/course/"%string];
             opt_user := Some "u"%string; opt_password := Some "p"%string;
             opt_output := None; opt_format := None; opt_retries := None;
             opt_delay := None; opt_concurrency := None; opt_debug := false |}
          (world reliable) [0; 0; 0]).1.
Proof.
  apply (text_only_without_debug _ (world reliable) [0; 0; 0]). reflexivity.
Defined.

Lemma Emitted_not_Done cfg debug : ¬ Emitted cfg debug (Log (Text "Done.")).
Proof. inversion 1. Qed.

(** X9.  A run prints "Done." exactly when [main] returns normally:
    after [reportResults] returned and [browser.close()] was fulfilled.
    The line is then the last event of the run. *)
Theorem done_printed_iff_returned cl env schedule :
  (Log (Text "Done.") ∈ (main cl env schedule).1 ↔ (main cl env schedule).2 = Done)
  ∧ ((main cl env schedule).2 = Done →
     ∃ t results,
       (main cl env schedule).1 = t ++ [Report results; Close; Log (Text "Done.")]
       ∧ reportResults (downloader env) results = true ∧ close env = true).
Proof.
  destruct (main_split cl env schedule)
    as [(t & code & -> & Ht) | (t & body & tail & -> & Ht & Hbody & Hend)]; cbn [fst snd].
  - split; [split |]; [| done..].
    destruct Ht as [[v ->] | [-> | ->]]; intros Hin;
      apply elem_of_cons in Hin as [Hin | Hin]; try by apply elem_of_nil in Hin.
    all: simplify_eq.
  - split; [split |].
    + rewrite !elem_of_app. intros [Hin | [Hin | Hin]].
      * apply (proj1 (Forall_forall _ _) Ht) in Hin. simpl in Hin. by destruct Hin.
      * apply (proj1 (Forall_forall _ _) Hbody) in Hin as [Hin | Hin]; [| done].
        by apply Emitted_not_Done in Hin.
      * inversion Hend; subst; try done;
          repeat (apply elem_of_cons in Hin as [Hin | Hin]; [simplify_eq |]);
          by apply elem_of_nil in Hin.
    + intros Hout. rewrite Hout in Hend. inversion Hend; subst.
      rewrite !elem_of_app. right. right. do 2 right. left.
    + intros Hout. rewrite Hout in Hend. inversion Hend; subst.
      exists (t ++ body), results. by rewrite <- app_assoc.
Qed.

Lemma closes_app t1 t2 : closes (t1 ++ t2) = closes t1 + closes t2.
Proof. unfold closes. by rewrite omap_app, length_app. Qed.

Lemma closes_none (P : Event → Prop) t :
  Forall P t → (∀ e, P e → e ≠ Close) → closes t = 0.
Proof.
  intros Ht HP. unfold closes. rewrite (omap_quiet _ P t Ht); [done |].
  intros e He. destruct e; try done. by destruct (HP Close He).
Qed.

(** X10.  [browser.close()] is called at most twice in a run, and twice
    only in one way: [reportResults] returned, the awaited
    [browser.close()] was rejected, and the [catch] block called it
    again. *)
Theorem browser_close_calls cl env schedule :
  closes (main cl env schedule).1 ≤ 2
  ∧ (closes (main cl env schedule).1 = 2 ↔
     ∃ t results,
       (main cl env schedule).1 = t ++ [Report results; Close; ConsoleError; Close]
       ∧ reportResults (downloader env) results = true ∧ close env = false).
Proof.
  destruct (main_split cl env schedule)
    as [(t & code & -> & Ht) | (t & body & tail & -> & Ht & Hbody & Hend)]; cbn [fst snd].
  - assert (Hc : closes t = 0) by (by destruct Ht as [[v ->] | [-> | ->]]).
    rewrite Hc. split; [lia |]. split; [lia |].
    intros (t' & results & -> & _). rewrite closes_app in Hc.
    unfold closes in Hc. simpl in Hc. lia.
  - assert (H0 : closes t = 0).
    { apply (closes_none _ _ Ht). by intros e He ->. }
    assert (H1 : closes body = 0).
    { apply (closes_none _ _ Hbody). intros e [He | He] ->; [inversion He | done]. }
    rewrite !closes_app, H0, H1.
    split; [inversion Hend; subst; unfold closes; simpl; lia |]. split.
    + intros H2. inversion Hend as [| | | | results Hr Hc |]; subst;
        try (unfold closes in H2; simpl in H2; lia).
      exists (t ++ body), results. by rewrite <- app_assoc.
    + intros (t' & results & Heq & _). apply (f_equal closes) in Heq.
      rewrite !closes_app, H0, H1 in Heq.
      inversion Hend; subst; unfold closes in *; simpl in *; lia.
Qed.

Lemma login_calls cfg d fuel index :
  length (logins (retryBackoff cfg (loginOnce d) fuel index).1) ≤ fuel.
Proof.
  revert index. induction fuel as [| fuel IH]; intros index; [done |].
  cbn [retryBackoff]. rewrite loginOnce_eq. specialize (IH (S index)). unfold when.
  destruct (login d index), (bool_decide (index = 0)); cbn [fst];
    try (simpl; lia).
  all: destruct (retryDecision cfg index); [| simpl; lia];
       destruct (retryBackoff cfg (loginOnce d) fuel (S index)) as [t r];
       cbn [fst] in *; unfold logins in *;
       rewrite ?omap_app, ?length_app in *; cbn [omap list_omap app length] in *; lia.
Qed.

Lemma discovery_calls cfg d debug fuel index :
  length (discoveries (retryBackoff cfg (discoverOnce d debug) fuel index).1) ≤ fuel.
Proof.
  revert index. induction fuel as [| fuel IH]; intros index; [done |].
  cbn [retryBackoff]. rewrite discoverOnce_eq. specialize (IH (S index)).
  pose proof (created_console (getDownloadTasks d index).1) as Hlogs.
  destruct (getDownloadTasks d index) as [emitted ok]. cbn [fst snd] in *.
  assert (Hquiet : discoveries
                     (emitted ≫= λ t, [Log (Text "Created download task:");
                                       Log (DumpTask t)]) = []).
  { unfold discoveries. apply (omap_quiet _ _ _ Hlogs). by intros [[] | | | | | | | | | | | |]. }
  unfold when.
  destruct ok, debug, (bool_decide (index = 0)); cbn [fst];
    try (unfold discoveries in *; rewrite ?omap_app, ?length_app, ?Hquiet in *;
         cbn [omap list_omap app length] in *; lia).
  all: destruct (retryDecision cfg index);
       [destruct (retryBackoff _ _ _ _) as [t r] |];
       cbn [fst] in *; unfold discoveries in *;
       rewrite ?omap_app, ?length_app, ?Hquiet in *;
       cbn [omap list_omap app length] in *; lia.
Qed.

Lemma main_logins cl env schedule :
  length (logins (main cl env schedule).1) ≤ attempts (backoffConfig (retriesOf cl)).
Proof.
  set (cfg := backoffConfig (retriesOf cl)).
  pose proof (attempts_pos cfg) as Hpos.
  destruct (main_cases cl env schedule) as [(t & code & -> & Ht & _) | (t & Ht & ->)].
  { cbn [fst]. read_trace. lia. }
  pose proof (login_calls cfg (downloader env) (attempts cfg) 0) as Hn.
  unfold after. cbn [fst]. fold cfg.
  destruct (orchestrate_Orchestrated cfg (concurrencyOf cl) (opt_debug cl) env schedule)
    as [Hl | auth Hl Hauth | auth disc Hl Hauth Hdisc
        | auth disc tasks down s Hl Hauth Hdisc Hdown
        | auth disc tasks down Hl Hauth Hdisc Hdown
        | auth disc tasks down results Hl Hauth Hdisc Hdown];
    try (rewrite Hauth in Hn; cbn [fst] in Hn; clear Hauth);
    later_chunk_facts.
  1-5: read_trace; lia.
  destruct (finish_cases env results) as [-> | [-> | ->]]; read_trace; lia.
Qed.

Lemma main_discoveries cl env schedule :
  length (discoveries (main cl env schedule).1) ≤ attempts (backoffConfig (retriesOf cl)).
Proof.
  set (cfg := backoffConfig (retriesOf cl)).
  pose proof (attempts_pos cfg) as Hpos.
  destruct (main_cases cl env schedule) as [(t & code & -> & Ht & _) | (t & Ht & ->)].
  { cbn [fst]. read_trace. lia. }
  pose proof (discovery_calls cfg (downloader env) (opt_debug cl) (attempts cfg) 0) as Hn.
  unfold after. cbn [fst]. fold cfg.
  destruct (orchestrate_Orchestrated cfg (concurrencyOf cl) (opt_debug cl) env schedule)
    as [Hl | auth Hl Hauth | auth disc Hl Hauth Hdisc
        | auth disc tasks down s Hl Hauth Hdisc Hdown
        | auth disc tasks down Hl Hauth Hdisc Hdown
        | auth disc tasks down results Hl Hauth Hdisc Hdown];
    try (rewrite Hdisc in Hn; cbn [fst] in Hn; clear Hdisc);
    chunk_facts.
  1-5: read_trace; lia.
  destruct (finish_cases env results) as [-> | [-> | ->]]; read_trace; lia.
Qed.

(** X11.  In every run [downloader.login] is called at most
    [retries + 1] times and so is [downloader.getDownloadTasks]; once
    each when [--retries] is not a number, zero or negative. *)
Theorem calls_within_budget cl env schedule :
  (length (logins (main cl env schedule).1) ≤ attempts (backoffConfig (retriesOf cl))
   ∧ length (discoveries (main cl env schedule).1)
     ≤ attempts (backoffConfig (retriesOf cl)))
  ∧ (∀ z, retriesOf cl = Int z → (0 ≤ z)%Z →
          attempts (backoffConfig (retriesOf cl)) = Z.to_nat z + 1)
  ∧ ((retriesOf cl = NaN ∨ ∃ z, retriesOf cl = Int z ∧ (z ≤ 0)%Z) →
     attempts (backoffConfig (retriesOf cl)) = 1).
Proof.
  split_and!.
  - apply main_logins.
  - apply main_discoveries.
  - intros z -> _. unfold attempts, backoffConfig. cbn [maxRetries]. lia.
  - intros [-> | (z & -> & Hz)]; unfold attempts, backoffConfig; cbn [maxRetries];
      [done | lia].
Qed.

(** X12.  With an allowed [--format], a command line that has not
    exactly one argument gets the help text and nothing else; one whose
    argument does not match the course URL pattern gets the two-line
    error message and exit status 1.  In both cases nobody is prompted
    and no browser is launched. *)
Theorem usage_errors cl env schedule :
  from_option parseFormat_ok true (opt_format cl) = true →
  (length (args cl) ≠ 1 → main cl env schedule = ([Help], Exit 0))
  ∧ (∀ course_url,
       args cl = [course_url] → courseUrlPattern course_url = false →
       main cl env schedule
       = ([Log (Text "Invalid course url.
Course url should look like: https://courses.edx.org/<course_id>/course/")], Exit 1)).
Proof.
  intros Hfmt. unfold main, getConfiguration.
  rewrite bool_decide_eq_false_2 by (by rewrite Hfmt). split.
  - intros Hargs. by destruct (args cl) as [| course_url [|]].
  - intros course_url -> Hurl. by rewrite Hurl.
Qed.

Lemma usage_errors_witness :
  main {| args := []; opt_user := None; opt_password := None; opt_output := None;
          opt_format := Some "png"%string; opt_retries := None; opt_delay := None;
          opt_concurrency := None; opt_debug := true |} (world reliable) []
  = ([Help], Exit 0).
Proof.
  apply (usage_errors _ (world reliable) []); [reflexivity | simpl; lia].
Defined.

(** ** A limit that lets nothing through *)

Lemma feed_shut concurrent debug vs s :
  (concurrent = NaN ∨ ∃ n, concurrent = Int n ∧ (n ≤ 0)%Z) → active s = [] →
  feed concurrent debug vs s
  = ([], {| active := []; buffer := buffer s ++ vs; collected := collected s |}).
Proof.
  intros [-> | (n & -> & Hn)]; [| by apply feed_closed].
  revert s. induction vs as [| v vs IH]; intros s Ha; simpl.
  - rewrite app_nil_r. destruct s. simpl in *. by subst.
  - unfold next. rewrite Ha. cbn [length num_lt Z.of_nat].
    rewrite IH by done. simpl. by rewrite <- app_assoc.
Qed.

Lemma downloads_shut cfg concurrent debug d tasks schedule :
  (concurrent = NaN ∨ ∃ n, concurrent = Int n ∧ (n ≤ 0)%Z) →
  downloads cfg concurrent debug d tasks schedule
  = ([Log (Text "Downloading...")],
     match tasks with
     | [] => Completed []
     | _ => Running {| active := []; buffer := enumerate tasks; collected := [] |}
     end).
Proof.
  intros Hc. unfold downloads. rewrite feed_shut by done.
  rewrite drive_idle by done. simpl. by destruct tasks.
Qed.

(** Finds the place of an event in a trace given by its chunks. *)
Ltac in_trace H e :=
  repeat (rewrite elem_of_app in H || rewrite elem_of_cons in H
          || rewrite elem_of_nil in H);
  repeat match goal with
    | Hf : Forall _ ?l |- _ =>
        pose proof (proj1 (Forall_forall _ l) Hf e); clear Hf
    end.

(** X13.  With a concurrency limit that is not a number, zero or
    negative, a run that discovered at least one task never ends:
    whatever the schedule, the download pipeline is never settled, the
    line "Downloading..." stays the last event of the run, the browser is
    not closed and nothing is reported.  With no task discovered the run
    goes on and reports the empty array. *)
Theorem closed_window_stalls cl env schedule tasks :
  (concurrencyOf cl = NaN ∨ ∃ n, concurrencyOf cl = Int n ∧ (n ≤ 0)%Z) →
  Discover tasks true ∈ (main cl env schedule).1 →
  (tasks ≠ [] →
   (main cl env schedule).2 = Pending
   ∧ last (main cl env schedule).1 = Some (Log (Text "Downloading..."))
   ∧ closes (main cl env schedule).1 = 0
   ∧ reports (main cl env schedule).1 = [])
  ∧ (tasks = [] → reports (main cl env schedule).1 = [[]]).
Proof.
  intros Hshut.
  destruct (main_cases cl env schedule)
    as [(t & code & -> & Ht & Hcode) | (t & Ht & ->)].
  { cbn [fst]. intros Hin. not_in_trace Hin (Discover tasks true). }
  unfold after. cbn [fst snd].
  destruct (orchestrate_Orchestrated (backoffConfig (retriesOf cl)) (concurrencyOf cl)
              (opt_debug cl) env schedule)
    as [| auth | auth disc | auth disc tasks0 down s Hl Hauth Hdisc Hdown
        | auth disc tasks0 down Hl Hauth Hdisc Hdown
        | auth disc tasks0 down results Hl Hauth Hdisc Hdown];
    try (rewrite (downloads_shut _ _ _ _ _ _ Hshut) in Hdown);
    chunk_facts; intros Hin.
  1-3: not_in_trace Hin (Discover tasks true).
  - destruct tasks0 as [| task0 tasks0]; [done |]. injection Hdown as <- <-.
    assert (tasks = task0 :: tasks0) as ->.
    { in_trace Hin (Discover tasks true). naive_solver. }
    split; [intros _ | done]. split_and!.
    + done.
    + repeat (rewrite last_app || rewrite last_cons). by simpl.
    + unfold closes. by read_trace.
    + by read_trace.
  - by destruct tasks0.
  - destruct tasks0 as [| task0 tasks0]; [| done]. injection Hdown as <- <-.
    destruct (finish_cases env []) as [Hf | [Hf | Hf]]; rewrite Hf in *;
      cbn [fst] in *.
    all: assert (tasks = []) as -> by (in_trace Hin (Discover tasks true); naive_solver).
    all: split; [done | intros _]; by read_trace.
Qed.

Lemma closed_window_stalls_witness :
  (sampleTasks ≠ [] →
   (main (commandLine (Int 0)) (world reliable) [0; 1; 2]).2 = Pending
   ∧ last (main (commandLine (Int 0)) (world reliable) [0; 1; 2]).1
     = Some (Log (Text "Downloading..."))
   ∧ closes (main (commandLine (Int 0)) (world reliable) [0; 1; 2]).1 = 0
   ∧ reports (main (commandLine (Int 0)) (world reliable) [0; 1; 2]).1 = [])
  ∧ (sampleTasks = [] →
     reports (main (commandLine (Int 0)) (world reliable) [0; 1; 2]).1 = [[]]).
Proof.
  apply (closed_window_stalls (commandLine (Int 0)) (world reliable) [0; 1; 2]).
  - right. exists 0%Z. split; [reflexivity | lia].
  - vm_compute. repeat first [left | right].
Defined.

(** ** Retry sequences *)

Lemma retryDecision_within cfg i :
  S i < attempts cfg → retryDecision cfg i = Delay (delayOf cfg i).
Proof.
  unfold attempts, retryDecision, delayOf. destruct (maxRetries cfg) as [| z]; [lia |].
  intros Hi. rewrite num_lt_Int, bool_decide_eq_true_2; [done | lia].
Qed.

Lemma retryDecision_beyond cfg i :
  attempts cfg ≤ S i → retryDecision cfg i = Exhausted.
Proof.
  unfold attempts, retryDecision. destruct (maxRetries cfg) as [| z]; [done |].
  intros Hi. rewrite num_lt_Int, bool_decide_eq_false_2; [done | lia].
Qed.

Lemma retryBackoff_run {A} cfg (subscribe : nat → list Event * option A) k :
  ∀ fuel index a,
    k < fuel → index + k < attempts cfg →
    (∀ i, i < k → (subscribe (index + i)).2 = None) →
    (subscribe (index + k)).2 = Some a →
    retryBackoff cfg subscribe fuel index = (tries cfg subscribe index k, Fulfilled a).
Proof.
  induction k as [| k IH]; intros fuel index a Hfuel Hidx Hfail Hok;
    (destruct fuel as [| fuel]; [lia |]); cbn [retryBackoff tries].
  - rewrite Nat.add_0_r in Hok. destruct (subscribe index) as [t r]. simpl in *.
    by subst.
  - pose proof (Hfail 0 ltac:(lia)) as H0. rewrite Nat.add_0_r in H0.
    destruct (subscribe index) as [t r]. simpl in *. subst.
    rewrite retryDecision_within by lia.
    rewrite (IH fuel (S index) a); [done | lia | lia | |].
    + intros i Hi. replace (S index + i) with (index + S i) by lia. apply Hfail. lia.
    + by replace (S index + k) with (index + S k) by lia.
Qed.

Lemma retryBackoff_exhausted {A} cfg (subscribe : nat → list Event * option A) k :
  ∀ index,
    index + S k = attempts cfg →
    (∀ i, i ≤ k → (subscribe (index + i)).2 = None) →
    retryBackoff cfg subscribe (S k) index = (tries cfg subscribe index k, Rejected).
Proof.
  induction k as [| k IH]; intros index Hidx Hfail; cbn [retryBackoff tries];
    pose proof (Hfail 0 ltac:(lia)) as H0; rewrite Nat.add_0_r in H0;
    destruct (subscribe index) as [t r]; simpl in *; subst.
  - by rewrite retryDecision_beyond by lia.
  - rewrite retryDecision_within by lia.
    rewrite (IH (S index)); [done | lia |].
    intros i Hi. replace (S index + i) with (index + S i) by lia. apply Hfail. lia.
Qed.

Lemma waits_tries {A} cfg (subscribe : nat → list Event * option A) k :
  (∀ i, waits (subscribe i).1 = []) →
  ∀ index, waits (tries cfg subscribe index k) = delayOf cfg <$> seq index k.
Proof.
  intros Hq. induction k as [| k IH]; intros index; cbn [tries seq fmap list_fmap].
  - apply Hq.
  - unfold waits in *. rewrite omap_app, Hq. cbn [omap list_omap app]. by rewrite IH.
Qed.

Lemma logins_tries cfg d k :
  ∀ index, logins (tries cfg (loginOnce d) index k) = login d <$> seq index (S k).
Proof.
  assert (H1 : ∀ i, logins (loginOnce d i).1 = [login d i]).
  { intros i. rewrite loginOnce_eq. unfold when.
    by destruct (login d i), (bool_decide (i = 0)). }
  induction k as [| k IH]; intros index; cbn [tries].
  - apply H1.
  - specialize (IH (S index)). specialize (H1 index). unfold logins in *.
    rewrite omap_app, H1. cbn [omap list_omap app]. by rewrite IH.
Qed.

Lemma loginOnce_waits d i : waits (loginOnce d i).1 = [].
Proof.
  rewrite loginOnce_eq. unfold when. by destruct (login d i), (bool_decide (i = 0)).
Qed.

Lemma discoverOnce_readings d debug i :
  discoveries (discoverOnce d debug i).1 = [getDownloadTasks d i]
  ∧ waits (discoverOnce d debug i).1 = [].
Proof.
  rewrite discoverOnce_eq.
  pose proof (created_console (getDownloadTasks d i).1) as Hlogs.
  destruct (getDownloadTasks d i) as [emitted ok]. cbn [fst snd] in *. unfold when.
  destruct ok, debug, (bool_decide (i = 0)); cbn [fst]; by read_trace.
Qed.

Lemma discoveries_tries cfg d debug k :
  ∀ index,
    discoveries (tries cfg (discoverOnce d debug) index k)
    = getDownloadTasks d <$> seq index (S k).
Proof.
  induction k as [| k IH]; intros index; cbn [tries].
  - apply discoverOnce_readings.
  - specialize (IH (S index)).
    destruct (discoverOnce_readings d debug index) as [H1 _]. unfold discoveries in *.
    rewrite omap_app, H1. cbn [omap list_omap app]. by rewrite IH.
Qed.

Lemma fmap_seq_const {A} (f : nat → A) (x : A) index k :
  (∀ i, i < k → f (index + i) = x) → f <$> seq index k = replicate k x.
Proof.
  revert index. induction k as [| k IH]; intros index Hf; [done |].
  cbn [seq fmap list_fmap replicate]. f_equal.
  - rewrite <- (Hf 0) by lia. f_equal. lia.
  - apply IH. intros i Hi. replace (S index + i) with (index + S i) by lia.
    apply Hf. lia.
Qed.

Lemma delayOf_backoffConfig retries i :
  delayOf (backoffConfig retries) i = Z.min (5000 * 2 ^ Z.of_nat i) 60000.
Proof.
  unfold delayOf, getDelay, exponentialBackoffDelay, backoffConfig.
  cbn [initialInterval maxInterval]. f_equal. lia.
Qed.

(** X14.  The login pipeline is settled by the first [login] call that
    succeeds: when the calls number [0] to [k - 1] fail and call number
    [k] succeeds within the budget, the pipeline is fulfilled after
    exactly these [k + 1] calls, with one timer after each failure,
    of 5, 10, 20, 40 and then 60 seconds.  When every call of the budget
    fails, the pipeline is rejected after [retries + 1] calls, with a
    timer after each failure but the last. *)
Theorem login_retry_sequence retries d :
  (∀ k, k < attempts (backoffConfig retries) →
        (∀ i, i < k → login d i = false) → login d k = true →
        ∃ auth,
          retryBackoff (backoffConfig retries) (loginOnce d)
                       (attempts (backoffConfig retries)) 0 = (auth, Fulfilled ())
          ∧ logins auth = replicate k false ++ [true]
          ∧ waits auth = (λ i, Z.min (5000 * 2 ^ Z.of_nat i) 60000) <$> seq 0 k)
  ∧ ((∀ i, i < attempts (backoffConfig retries) → login d i = false) →
     ∃ auth,
       retryBackoff (backoffConfig retries) (loginOnce d)
                    (attempts (backoffConfig retries)) 0 = (auth, Rejected)
       ∧ logins auth = replicate (attempts (backoffConfig retries)) false
       ∧ waits auth = (λ i, Z.min (5000 * 2 ^ Z.of_nat i) 60000)
                      <$> seq 0 (attempts (backoffConfig retries) - 1)).
Proof.
  set (cfg := backoffConfig retries). split.
  - intros k Hk Hfail Hok. exists (tries cfg (loginOnce d) 0 k). split_and!.
    + apply retryBackoff_run; [done | done | |].
      * intros i Hi. rewrite loginOnce_eq. cbn [snd]. simpl. by rewrite Hfail.
      * rewrite loginOnce_eq. cbn [snd]. simpl. by rewrite Hok.
    + rewrite logins_tries. replace (S k) with (k + 1) by lia.
      rewrite seq_app, fmap_app. simpl. rewrite Hok. f_equal.
      by apply fmap_seq_const.
    + rewrite waits_tries by apply loginOnce_waits.
      apply list_fmap_ext. intros _ i _. apply delayOf_backoffConfig.
  - intros Hfail. pose proof (attempts_pos cfg) as Hpos.
    destruct (attempts cfg) as [| n] eqn:Hn; [lia |].
    exists (tries cfg (loginOnce d) 0 n). split_and!.
    + apply retryBackoff_exhausted; [lia |].
      intros i Hi. rewrite loginOnce_eq. cbn [snd]. simpl. rewrite Hfail; [done | lia].
    + rewrite logins_tries. by apply fmap_seq_const.
    + rewrite waits_tries by apply loginOnce_waits.
      replace (S n - 1) with n by lia.
      apply list_fmap_ext. intros _ i _. apply delayOf_backoffConfig.
Qed.

(** X15.  The discovery pipeline is settled by the first
    [getDownloadTasks] call that succeeds, and the array it hands on
    holds the tasks of that call only: what a failed call emitted before
    it failed is dropped.  Each failure within the budget is followed by
    one timer of the policy; when every call of the budget fails, the
    pipeline is rejected. *)
Theorem discovery_retry_sequence retries d debug :
  (∀ k, k < attempts (backoffConfig retries) →
        (∀ i, i < k → (getDownloadTasks d i).2 = false) →
        (getDownloadTasks d k).2 = true →
        ∃ disc,
          retryBackoff (backoffConfig retries) (discoverOnce d debug)
                       (attempts (backoffConfig retries)) 0
          = (disc, Fulfilled (getDownloadTasks d k).1)
          ∧ discoveries disc = getDownloadTasks d <$> seq 0 (S k)
          ∧ waits disc = (λ i, Z.min (5000 * 2 ^ Z.of_nat i) 60000) <$> seq 0 k)
  ∧ ((∀ i, i < attempts (backoffConfig retries) → (getDownloadTasks d i).2 = false) →
     ∃ disc,
       retryBackoff (backoffConfig retries) (discoverOnce d debug)
                    (attempts (backoffConfig retries)) 0 = (disc, Rejected)
       ∧ discoveries disc
         = getDownloadTasks d <$> seq 0 (attempts (backoffConfig retries))
       ∧ waits disc = (λ i, Z.min (5000 * 2 ^ Z.of_nat i) 60000)
                      <$> seq 0 (attempts (backoffConfig retries) - 1)).
Proof.
  set (cfg := backoffConfig retries).
  assert (Hq : ∀ i, waits (discoverOnce d debug i).1 = [])
    by (intros i; apply discoverOnce_readings).
  split.
  - intros k Hk Hfail Hok. exists (tries cfg (discoverOnce d debug) 0 k). split_and!.
    + apply retryBackoff_run; [done | done | |].
      * intros i Hi. rewrite discoverOnce_eq. cbn [snd]. simpl. by rewrite Hfail.
      * rewrite discoverOnce_eq. cbn [snd]. simpl. by rewrite Hok.
    + apply discoveries_tries.
    + rewrite waits_tries by done.
      apply list_fmap_ext. intros _ i _. apply delayOf_backoffConfig.
  - intros Hfail. pose proof (attempts_pos cfg) as Hpos.
    destruct (attempts cfg) as [| n] eqn:Hn; [lia |].
    exists (tries cfg (discoverOnce d debug) 0 n). split_and!.
    + apply retryBackoff_exhausted; [lia |].
      intros i Hi. rewrite discoverOnce_eq. cbn [snd]. simpl. rewrite Hfail; [done | lia].
    + apply discoveries_tries.
    + rewrite waits_tries by done.
      replace (S n - 1) with n by lia.
      apply list_fmap_ext. intros _ i _. apply delayOf_backoffConfig.
Qed.

(** ** The order of the downloads and the calls per task *)

Lemma after_prefix_app p s : after_prefix p (p +:+ s) = Some s.
Proof. induction p as [| a p IH]; [done |]. simpl. by rewrite Ascii.eqb_refl. Qed.

Lemma calls_app p t1 t2 : calls p (t1 ++ t2) = calls p t1 + calls p t2.
Proof. unfold calls. by rewrite omap_app, length_app. Qed.

Lemma started_app t1 t2 : started (t1 ++ t2) = started t1 ++ started t2.
Proof. apply omap_app. Qed.

Lemma project_started debug v : started (project debug v).1 = [name v.2].
Proof.
  unfold project, started. cbn [fst omap list_omap]. rewrite after_prefix_app.
  by destruct debug.
Qed.

Lemma project_calls debug v p :
  calls p (project debug v).1 = if bool_decide (v.1 = p) then 1 else 0.
Proof. unfold project, calls. destruct debug; simpl; by case_bool_decide. Qed.

Lemma next_room_eq n debug v s :
  (Z.of_nat (length (active s)) < n)%Z →
  next (Int n) debug v s
  = ((project debug v).1,
     {| active := active s ++ [(project debug v).2];
        buffer := buffer s; collected := collected s |}).
Proof.
  intros H. unfold next. rewrite num_lt_Int, bool_decide_eq_true_2 by done.
  by destruct (project debug v).
Qed.

Lemma next_full_eq n debug v s :
  (n ≤ Z.of_nat (length (active s)))%Z →
  next (Int n) debug v s
  = ([], {| active := active s; buffer := buffer s ++ [v]; collected := collected s |}).
Proof.
  intros H. unfold next. by rewrite num_lt_Int, bool_decide_eq_false_2 by lia.
Qed.

Lemma position_inj (l : list Inner) i j x y :
  NoDup (in_position <$> l) → l !! i = Some x → l !! j = Some y →
  in_position x = in_position y → i = j.
Proof.
  intros Hnd Hi Hj Heq. apply (NoDup_lookup _ i j (in_position x) Hnd).
  - by rewrite list_lookup_fmap, Hi.
  - by rewrite list_lookup_fmap, Hj, Heq.
Qed.

Section order.
Context (cfg : BackoffConfig) (n : Z) (debug : bool) (d : Downloader)
        (tasks : list Task).

Lemma enumerate_lookup k v :
  enumerate tasks !! k = Some v → v.1 = k ∧ tasks !! k = Some v.2.
Proof.
  destruct v as [p task]. unfold enumerate. intros H.
  apply lookup_zip_Some in H as [Hp Ht]. apply lookup_seq in Hp as [-> _]. done.
Qed.

Lemma buffer_head j k v held :
  drop k (take j (enumerate tasks)) = v :: held →
  v.1 = k ∧ tasks !! k = Some v.2 ∧ k < j
  ∧ held = drop (S k) (take j (enumerate tasks)).
Proof.
  intros H. assert (Hl : take j (enumerate tasks) !! k = Some v).
  { rewrite <- (Nat.add_0_r k), <- lookup_drop, H. done. }
  pose proof (drop_S _ _ _ Hl) as HS. rewrite HS in H. injection H as H.
  apply lookup_take_Some in Hl as [Hl Hlt]. apply enumerate_lookup in Hl as [? ?].
  done.
Qed.

(** Starting the first held-back task. *)
Lemma coupled_start j k t pre v held act coll :
  started pre = [] → (∀ p, calls p pre = 0) →
  k ≤ j → started t = name <$> take k tasks →
  drop k (take j (enumerate tasks)) = v :: held →
  Forall (tracked cfg k t) act → NoDup (in_position <$> act) →
  (∀ p, k ≤ p → calls p t = 0) → (∀ p, calls p t ≤ attempts cfg) →
  windowed n {| active := act ++ [(project debug v).2]; buffer := held;
                collected := coll |} →
  coupled cfg n tasks j (S k) (t ++ pre ++ (project debug v).1)
    {| active := act ++ [(project debug v).2]; buffer := held; collected := coll |}.
Proof.
  intros Hpre0 Hpre Hkj Hst Hbuf Htr Hnd Hzero Hle Hw.
  apply buffer_head in Hbuf as (Hv & Htask & Hlt & ->).
  pose proof (attempts_pos cfg) as Hpos.
  assert (Hc : ∀ p, calls p (t ++ pre ++ (project debug v).1)
                    = calls p t + if bool_decide (k = p) then 1 else 0).
  { intros p. by rewrite !calls_app, Hpre, project_calls, Hv. }
  split_and!; cbn [active buffer]; try done.
  - rewrite !started_app, Hpre0, project_started, Hst. simpl.
    by rewrite (take_S_r _ _ _ Htask), fmap_app.
  - apply Forall_app. split.
    + eapply Forall_impl; [exact Htr |]. intros i (Hp & Hi & Hcalls).
      split_and!; [lia | done |]. rewrite Hc.
      rewrite bool_decide_eq_false_2 by lia. lia.
    + constructor; [| done]. unfold tracked, project. cbn [snd in_position in_index in_waiting].
      split_and!; [lia | done |]. rewrite Hc, Hv, Hzero by done.
      by rewrite bool_decide_eq_true_2.
  - rewrite fmap_app. apply NoDup_app. split_and!; [done | | by apply NoDup_singleton].
    intros p Hin Hin'. apply list_elem_of_fmap in Hin as (i & -> & Hin).
    apply (proj1 (Forall_forall _ _) Htr) in Hin as (Hp & _).
    apply list_elem_of_singleton in Hin'. unfold project in Hin'. simpl in Hin'. lia.
  - intros p Hp. rewrite Hc, Hzero by lia. by rewrite bool_decide_eq_false_2 by lia.
  - intros p. rewrite Hc. case_bool_decide; [| specialize (Hle p); lia].
    subst. rewrite Hzero by done. lia.
Qed.

Lemma tracked_quiet k t t1 i :
  (∀ p, calls p t1 = 0) → tracked cfg k t i → tracked cfg k (t ++ t1) i.
Proof. intros Hq (? & ? & ?). split_and!; [done..|]. rewrite calls_app, Hq. lia. Qed.

Lemma coupled_quiet j k t t1 s s1 :
  started t1 = [] → (∀ p, calls p t1 = 0) →
  buffer s1 = buffer s → windowed n s1 →
  Forall (tracked cfg k (t ++ t1)) (active s1) → NoDup (in_position <$> active s1) →
  coupled cfg n tasks j k t s → coupled cfg n tasks j k (t ++ t1) s1.
Proof.
  intros Hst1 Hq Hb Hw1 Htr1 Hnd1 (Hkj & Hst & Hbuf & Hw & Htr & Hnd & Hzero & Hle).
  split_and!; try done.
  - by rewrite started_app, Hst1, app_nil_r.
  - congruence.
  - intros p Hp. rewrite calls_app, Hq, Hzero by done. done.
  - intros p. rewrite calls_app, Hq. specialize (Hle p). lia.
Qed.

(** A move of the subscriber keeps the trace and the subscriber
    coupled. *)
Lemma coupled_settle j k t s choice t1 s1 :
  coupled cfg n tasks j k t s → active s ≠ [] →
  settle cfg (Int n) debug d choice s = (t1, Continue s1) →
  ∃ k', coupled cfg n tasks j k' (t ++ t1) s1.
Proof.
  intros Hc Hne Hs.
  pose proof Hc as (Hkj & Hst & Hbuf & Hw & Htr & Hnd & Hzero & Hle).
  assert (Hw1 : windowed n s1).
  { pose proof (settle_Move cfg (Int n) debug d choice s Hne) as Hm.
    rewrite Hs in Hm. by eapply windowed_Move. }
  revert Hs. unfold settle. cbv zeta.
  destruct (active s !! (choice `mod` length (active s))) as [inner |] eqn:Hi;
    [| intros [= <- <-]; exists k; by rewrite app_nil_r].
  pose proof (Forall_lookup_1 _ _ _ _ Htr Hi) as (Hpos & Hidx & Hcalls).
  pose proof (lookup_lt_Some _ _ _ Hi) as Hlt.
  destruct (in_waiting inner) eqn:Hwait.
  - (* the timer fires *)
    intros [= <- <-]. exists k.
    assert (Hcall : ∀ p, calls p (t ++ [Perform (in_position inner) (in_task inner)])
                         = calls p t + if bool_decide (in_position inner = p) then 1 else 0).
    { intros p. rewrite calls_app. unfold calls at 2. simpl. by case_bool_decide. }
    split_and!; cbn [active buffer]; try done.
    + by rewrite started_app, app_nil_r.
    + apply Forall_lookup. intros i' x Hx.
      apply list_lookup_insert_Some in Hx as [(<- & <- & _) | (Hne' & Hx)].
      * unfold tracked, resume. cbn [in_position in_index in_waiting].
        split_and!; [done..|]. rewrite Hcall, bool_decide_eq_true_2 by done. lia.
      * pose proof (Forall_lookup_1 _ _ _ _ Htr Hx) as (Hp' & Hi' & Hc').
        split_and!; [done..|]. rewrite Hcall, bool_decide_eq_false_2; [lia |].
        intros Heq. apply Hne'. by eapply position_inj.
    + by erewrite fmap_insert_same.
    + intros p Hp. rewrite Hcall, Hzero by done.
      by rewrite bool_decide_eq_false_2 by lia.
    + intros p. rewrite Hcall. case_bool_decide; [subst; lia |].
      specialize (Hle p). lia.
  - destruct (performDownload d (in_position inner) (in_index inner))
      as [result |] eqn:Hp.
    + (* the download is fulfilled *)
      set (pre := [Performed (in_position inner) true;
                   Log (Text ("Download complete: " +:+ name (task result)))]
                  ++ when debug [Log (DumpResult result)]).
      assert (Hpre0 : started pre = []) by (unfold pre; by destruct debug).
      assert (Hpre : ∀ p, calls p pre = 0) by (intros p; unfold pre; by destruct debug).
      assert (Hdel : Forall (tracked cfg k t) (delete (choice `mod` length (active s))
                                                      (active s)))
        by (by apply Forall_delete).
      assert (Hnd' : NoDup (in_position <$> delete (choice `mod` length (active s))
                                                   (active s))).
      { rewrite list_fmap_delete. exact (sublist_NoDup _ _ Hnd (sublist_delete _ _)). }
      unfold notifyComplete. cbn [active buffer collected].
      destruct (buffer s) as [| v held] eqn:Hb.
      * intros [= <- <-]. exists k.
        replace (Performed (in_position inner) true
                 :: Log (Text ("Download complete: " +:+ name (task result)))
                 :: when debug [Log (DumpResult result)] ++ [])
          with pre by (unfold pre; simpl; by rewrite app_nil_r).
        apply (coupled_quiet j k t pre s); cbn [active buffer]; try done.
        eapply Forall_impl; [exact Hdel |]. intros i'. by apply tracked_quiet.
      * rewrite next_room_eq
          by (cbn [active]; rewrite length_delete by eauto;
              destruct Hw as [Hle' _]; lia).
        cbn [active buffer collected]. intros [= <- <-]. exists (S k).
        pose proof (coupled_start j k t pre v held
                      (delete (choice `mod` length (active s)) (active s))
                      (collected s ++ [result]) Hpre0 Hpre Hkj Hst (eq_sym Hbuf)
                      Hdel Hnd' Hzero Hle Hw1) as H.
        unfold pre in H. rewrite <- app_assoc in H. exact H.
    + destruct (retryDecision cfg (in_index inner)) as [ms |] eqn:Hd; [| done].
      (* the download failed and is retried *)
      intros [= <- <-]. exists k.
      apply (coupled_quiet j k t _ s); cbn [active buffer]; try done.
      * apply Forall_lookup. intros i' x Hx.
        apply list_lookup_insert_Some in Hx as [(<- & <- & _) | (Hne' & Hx)].
        -- unfold tracked, backoff. cbn [in_position in_index in_waiting].
           apply retryDecision_Delay_lt in Hd.
           split_and!; [done..|]. rewrite calls_app. unfold calls at 2. simpl. lia.
        -- apply tracked_quiet; [done |]. exact (Forall_lookup_1 _ _ _ _ Htr Hx).
      * by erewrite fmap_insert_same.
Qed.

(** The move that fails the merge leaves the readings as they are. *)
Lemma failed_quiet choice s t1 :
  settle cfg (Int n) debug d choice s = (t1, Failed) →
  started t1 = [] ∧ ∀ p, calls p t1 = 0.
Proof.
  unfold settle. cbv zeta.
  destruct (active s !! (choice `mod` length (active s))) as [inner |]; [| done].
  destruct (in_waiting inner); [done |].
  destruct (performDownload d _ _); [by destruct (notifyComplete _ _ _ _) |].
  destruct (retryDecision cfg _); [done |]. by intros [= <-].
Qed.

Lemma take_snoc_drop j k v :
  enumerate tasks !! j = Some v → k ≤ j →
  drop k (take (S j) (enumerate tasks)) = drop k (take j (enumerate tasks)) ++ [v].
Proof.
  intros Hv Hk. pose proof (lookup_lt_Some _ _ _ Hv) as Hlt.
  rewrite (take_S_r _ _ _ Hv), drop_app_le; [done |].
  rewrite length_take. lia.
Qed.

(** Handing the tasks to the merge keeps the trace and the subscriber
    coupled. *)
Lemma coupled_feed vs :
  ∀ j k t s,
    coupled cfg n tasks j k t s → j ≤ length tasks → drop j (enumerate tasks) = vs →
    ∃ k', coupled cfg n tasks (length tasks) k'
                  (t ++ (feed (Int n) debug vs s).1) (feed (Int n) debug vs s).2.
Proof.
  assert (Hlen : length (enumerate tasks) = length tasks).
  { rewrite <- (length_fmap fst), enumerate_positions. apply length_seq. }
  induction vs as [| v vs IH]; intros j k t s Hc Hj Hvs.
  - simpl. rewrite app_nil_r. exists k.
    assert (j = length tasks) as ->; [| done].
    apply (f_equal length) in Hvs. rewrite length_drop in Hvs. simpl in Hvs. lia.
  - pose proof Hc as (Hkj & Hst & Hbuf & Hw & Htr & Hnd & Hzero & Hle).
    assert (Hv : enumerate tasks !! j = Some v).
    { rewrite <- (Nat.add_0_r j), <- lookup_drop, Hvs. done. }
    assert (Hvs' : drop (S j) (enumerate tasks) = vs).
    { rewrite (drop_S _ _ _ Hv) in Hvs. by injection Hvs. }
    assert (Hj' : S j ≤ length tasks).
    { pose proof (lookup_lt_Some _ _ _ Hv). lia. }
    pose proof (next_windowed n debug v s Hw) as Hw1.
    cbn [feed].
    destruct (decide (Z.of_nat (length (active s)) < n)%Z) as [Hroom | Hfull].
    + rewrite next_room_eq in * by done. cbn [snd] in Hw1.
      assert (Hempty : buffer s = []).
      { destruct (buffer s) eqn:Hb; [done |]. destruct Hw as [_ Hw].
        rewrite Hb in Hw. specialize (Hw ltac:(done)). lia. }
      assert (k = j) as ->.
      { rewrite Hempty in Hbuf. apply (f_equal length) in Hbuf.
        rewrite length_drop, length_take in Hbuf. simpl in Hbuf.
        pose proof (lookup_lt_Some _ _ _ Hv). lia. }
      rewrite Hempty in Hw1.
      assert (Hc1 : coupled cfg n tasks (S j) (S j) (t ++ [] ++ (project debug v).1)
                      {| active := active s ++ [(project debug v).2]; buffer := [];
                         collected := collected s |}).
      { apply coupled_start; try done; [lia |].
        rewrite (take_snoc_drop j j v) by done. by rewrite <- Hbuf, Hempty. }
      destruct (IH (S j) (S j) _ _ Hc1 Hj' Hvs') as [k' Hk'].
      exists k'. rewrite Hempty. destruct (feed (Int n) debug vs _) as [t' s'].
      cbn [fst snd app] in *. by rewrite <- app_assoc in Hk'.
    + rewrite next_full_eq in * by lia. cbn [snd] in Hw1.
      assert (Hc1 : coupled cfg n tasks (S j) k t
                      {| active := active s; buffer := buffer s ++ [v];
                         collected := collected s |}).
      { split_and!; cbn [active buffer]; try done; [lia |].
        by rewrite (take_snoc_drop j k v), Hbuf by done. }
      destruct (IH (S j) k _ _ Hc1 Hj' Hvs') as [k' Hk'].
      exists k'. destruct (feed (Int n) debug vs _) as [t' s']. done.
Qed.

(** Driving the subscriber keeps the trace and the subscriber coupled,
    up to the move that fails the merge. *)
Lemma coupled_drive j schedule :
  ∀ k t s,
    coupled cfg n tasks j k t s →
    ∃ k', k' ≤ j
          ∧ started (t ++ (drive cfg (Int n) debug d schedule s).1)
            = name <$> take k' tasks
          ∧ (∀ p, calls p (t ++ (drive cfg (Int n) debug d schedule s).1)
                  ≤ attempts cfg)
          ∧ (∀ results,
               (drive cfg (Int n) debug d schedule s).2 = Completed results →
               drop k' (take j (enumerate tasks)) = [])
          ∧ (∀ s', (drive cfg (Int n) debug d schedule s).2 = Running s' →
                   buffer s' = drop k' (take j (enumerate tasks))).
Proof.
  assert (Hidle : ∀ schedule k t s,
            coupled cfg n tasks j k t s → active s = [] →
            ∃ k', k' ≤ j
              ∧ started (t ++ (drive cfg (Int n) debug d schedule s).1)
                = name <$> take k' tasks
              ∧ (∀ p, calls p (t ++ (drive cfg (Int n) debug d schedule s).1)
                      ≤ attempts cfg)
              ∧ (∀ results,
                   (drive cfg (Int n) debug d schedule s).2 = Completed results →
                   drop k' (take j (enumerate tasks)) = [])
              ∧ (∀ s', (drive cfg (Int n) debug d schedule s).2 = Running s' →
                       buffer s' = drop k' (take j (enumerate tasks)))).
  { intros sch k t s (Hkj & Hst & Hbuf & Hw & Htr & Hnd & Hzero & Hle) Ha.
    rewrite drive_idle by done. cbn [fst snd]. rewrite app_nil_r. exists k.
    split_and!; [done.. | |].
    - intros results. destruct (buffer s); [by rewrite <- Hbuf | done].
    - intros s'. destruct (buffer s) eqn:Hb; [done |]. intros [= <-]. congruence. }
  induction schedule as [| choice schedule IH]; intros k t s Hc.
  - destruct (active s) as [| i0 l] eqn:Ha; [by eapply Hidle |].
    simpl. rewrite Ha. cbn [fst snd]. rewrite app_nil_r. exists k.
    destruct Hc as (Hkj & Hst & Hbuf & Hw & Htr & Hnd & Hzero & Hle).
    split_and!; [done.. | |]; [done |]. by intros s' [= <-].
  - destruct (active s) as [| i0 l] eqn:Ha; [by eapply Hidle |].
    cbn [drive]. rewrite Ha.
    destruct (settle cfg (Int n) debug d choice s) as [t1 [s1 |]] eqn:Hs.
    + destruct (coupled_settle j k t s choice t1 s1 Hc ltac:(by rewrite Ha) Hs)
        as [k1 Hc1].
      destruct (IH k1 (t ++ t1) s1 Hc1) as (k' & H).
      exists k'. destruct (drive cfg (Int n) debug d schedule s1) as [t' p].
      cbn [fst snd] in *. by rewrite <- app_assoc in H.
    + destruct (failed_quiet _ _ _ Hs) as [Hq0 Hq].
      destruct Hc as (Hkj & Hst & Hbuf & Hw & Htr & Hnd & Hzero & Hle).
      exists k. cbn [fst snd]. split_and!; [done | | | done..].
      * by rewrite started_app, Hq0, app_nil_r.
      * intros p. rewrite calls_app, Hq. specialize (Hle p). lia.
Qed.

Lemma coupled_initial :
  (0 ≤ n)%Z → coupled cfg n tasks 0 0 [Log (Text "Downloading...")] initial.
Proof.
  intros Hn. unfold coupled, windowed.
  split_and!; simpl; try done; try lia; try constructor.
  unfold calls. simpl. lia.
Qed.

Lemma downloads_coupled schedule :
  (1 ≤ n)%Z →
  ∃ k, k ≤ length tasks
       ∧ started (downloads cfg (Int n) debug d tasks schedule).1 = name <$> take k tasks
       ∧ (∀ p, calls p (downloads cfg (Int n) debug d tasks schedule).1 ≤ attempts cfg)
       ∧ (∀ results,
            (downloads cfg (Int n) debug d tasks schedule).2 = Completed results →
            k = length tasks)
       ∧ (∀ s, (downloads cfg (Int n) debug d tasks schedule).2 = Running s →
               buffer s = drop k (enumerate tasks)).
Proof.
  intros Hn.
  assert (Hlen : length (enumerate tasks) = length tasks).
  { rewrite <- (length_fmap fst), enumerate_positions. apply length_seq. }
  destruct (coupled_feed (enumerate tasks) 0 0 _ initial
              (coupled_initial ltac:(lia)) ltac:(lia) eq_refl) as [k0 Hc0].
  unfold downloads.
  destruct (feed (Int n) debug (enumerate tasks) initial) as [t0 s0].
  cbn [fst snd] in Hc0.
  destruct (coupled_drive (length tasks) schedule k0 _ s0 Hc0)
    as (k & Hk & Hst & Hcalls & Hdone & Hrun).
  destruct (drive cfg (Int n) debug d schedule s0) as [t1 p]. cbn [fst snd] in *.
  rewrite <- app_assoc in Hst, Hcalls. exists k. split_and!; try done.
  - intros results Hp. specialize (Hdone results Hp).
    apply (f_equal length) in Hdone. rewrite length_drop, length_take in Hdone.
    simpl in Hdone. lia.
  - intros s Hp. rewrite (Hrun s Hp), take_ge by lia. done.
Qed.

End order.

(** X16.  Whatever the concurrency limit and the schedule, the tasks are
    started in the order of the task array and each at most once: the
    "Downloading task" lines of the download pipeline name the first [k]
    tasks of the array, in order.  While the pipeline runs, the tasks
    held back are the others, in order; when it completes, every task
    was started. *)
Theorem tasks_started_in_order cfg concurrent debug d tasks schedule :
  ∃ k, k ≤ length tasks
       ∧ started (downloads cfg concurrent debug d tasks schedule).1
         = name <$> take k tasks
       ∧ (∀ results,
            (downloads cfg concurrent debug d tasks schedule).2 = Completed results →
            k = length tasks)
       ∧ (∀ s, (downloads cfg concurrent debug d tasks schedule).2 = Running s →
               buffer s = drop k (enumerate tasks)).
Proof.
  assert (Hshut : (∃ n, concurrent = Int n ∧ (1 ≤ n)%Z)
                  ∨ (concurrent = NaN ∨ ∃ n, concurrent = Int n ∧ (n ≤ 0)%Z)).
  { destruct concurrent as [| n]; [by right; left |].
    destruct (decide (1 ≤ n)%Z); [left | right; right]; exists n; split; [done | lia | done | lia]. }
  destruct Hshut as [(n & -> & Hn) | Hshut].
  - destruct (downloads_coupled cfg n debug d tasks schedule Hn)
      as (k & Hk & Hst & _ & Hdone & Hrun).
    by exists k.
  - rewrite (downloads_shut cfg concurrent debug d tasks schedule Hshut). cbn [fst snd].
    exists 0. split_and!; [lia | done | |].
    + by destruct tasks.
    + destruct tasks; [done |]. by intros s [= <-].
Qed.

Lemma downloads_calls cfg concurrent debug d tasks schedule p :
  calls p (downloads cfg concurrent debug d tasks schedule).1 ≤ attempts cfg.
Proof.
  destruct concurrent as [| n].
  - rewrite downloads_shut by (by left). unfold calls. simpl. lia.
  - destruct (decide (1 ≤ n)%Z) as [Hn | Hn].
    + destruct (downloads_coupled cfg n debug d tasks schedule Hn)
        as (k & _ & _ & Hcalls & _).
      apply Hcalls.
    + rewrite downloads_shut by (right; exists n; split; [done | lia]).
      unfold calls. simpl. lia.
Qed.

(** X17.  In every run, [downloader.performDownload] is called at most
    [retries + 1] times for each position of the task array, whatever the
    concurrency limit and the order in which the downloads settle. *)
Theorem downloads_within_budget cl env schedule p :
  calls p (main cl env schedule).1 ≤ attempts (backoffConfig (retriesOf cl)).
Proof.
  set (cfg := backoffConfig (retriesOf cl)).
  pose proof (attempts_pos cfg) as Hpos.
  destruct (main_cases cl env schedule) as [(t & code & -> & Ht & _) | (t & Ht & ->)].
  { cbn [fst]. unfold calls. read_trace. lia. }
  unfold after. cbn [fst]. fold cfg.
  destruct (orchestrate_Orchestrated cfg (concurrencyOf cl) (opt_debug cl) env schedule)
    as [Hl | auth Hl Hauth | auth disc Hl Hauth Hdisc
        | auth disc tasks down s Hl Hauth Hdisc Hdown
        | auth disc tasks down Hl Hauth Hdisc Hdown
        | auth disc tasks down results Hl Hauth Hdisc Hdown];
    try (pose proof (downloads_calls cfg (concurrencyOf cl) (opt_debug cl)
                       (downloader env) tasks schedule p) as Hn;
         rewrite Hdown in Hn; cbn [fst] in Hn; clear Hdown);
    chunk_facts; unfold calls in *.
  1-5: read_trace; lia.
  destruct (finish_cases env results) as [-> | [-> | ->]]; read_trace; lia.
Qed.

(** ** One download at a time *)

Section sequential.
Context (cfg : BackoffConfig) (debug : bool) (d : Downloader).

Lemma inOrder_Move total s s' :
  inOrder cfg d total s → Move cfg (Int 1) debug d s (Continue s') →
  inOrder cfg d total s'.
Proof.
  intros (Hlen & Ha & Hf) Hm.
  inversion Hm as [i inner Hi Hw | i inner result Hi Hw Hp
                   | i inner ms Hi Hw Hp Hd |]; subst;
    pose proof (Forall_lookup_1 _ _ _ _ Ha Hi) as [Hk Hfate].
  - split_and!; cbn [active].
    + by rewrite length_insert.
    + apply Forall_insert; [done |]. by split.
    + rewrite <- Hf. unfold fates. simpl. by erewrite fmap_insert_same.
  - assert (Hr : fate cfg d (in_position inner) = Fulfilled result).
    { rewrite <- Hfate. by apply fateFrom_fulfilled. }
    destruct (active s) as [| a [| b l]] eqn:Hact; [done | | simpl in Hlen; lia].
    destruct i as [| i]; [| done]. injection Hi as ->.
    unfold notifyComplete, inOrder. cbn [active buffer collected delete list_delete].
    rewrite <- Hf.
    destruct (buffer s) as [| v held] eqn:Hbuf.
    + unfold fates. rewrite Hact, Hbuf. cbn [active buffer collected snd].
      split_and!; [simpl; lia | done |].
      rewrite fmap_app. simpl. rewrite Hr. by rewrite <- app_assoc.
    + rewrite (next_room 1 debug v) by (simpl; lia).
      unfold fates. rewrite Hact, Hbuf. cbn [active buffer collected app].
      split_and!.
      * simpl. lia.
      * constructor; [apply project_onTrack | done].
      * rewrite fmap_app. simpl. rewrite Hr. by rewrite <- app_assoc.
  - split_and!; cbn [active].
    + by rewrite length_insert.
    + apply Forall_insert; [done |]. split; simpl.
      * by eapply retryDecision_Delay_lt.
      * by erewrite <- fateFrom_retry.
    + rewrite <- Hf. unfold fates. simpl. by erewrite fmap_insert_same.
Qed.

Lemma feed_fates_eq n vs :
  ∀ s, windowed n s →
       fates cfg d (feed (Int n) debug vs s).2
       = fates cfg d s ++ ((λ v : nat * Task, fate cfg d v.1) <$> vs).
Proof.
  induction vs as [| v vs IH]; intros s Hw; simpl.
  - by rewrite app_nil_r.
  - pose proof (next_windowed n debug v s Hw) as Hw1.
    assert (Hn : fates cfg d (next (Int n) debug v s).2
                 = fates cfg d s ++ [fate cfg d v.1]).
    { destruct (decide (Z.of_nat (length (active s)) < n)%Z) as [Hroom | Hfull].
      - rewrite next_room by done. unfold fates. cbn [active buffer collected].
        assert (Hempty : buffer s = []).
        { destruct (buffer s) eqn:Hb; [done |]. destruct Hw as [_ Hw].
          rewrite Hb in Hw. specialize (Hw ltac:(done)). lia. }
        rewrite Hempty, fmap_app. simpl. by rewrite !app_nil_r, <- app_assoc.
      - rewrite next_full by lia. unfold fates. cbn [active buffer collected].
        rewrite fmap_app. simpl. by rewrite <- !app_assoc. }
    destruct (next (Int n) debug v s) as [t s1]. cbn [snd] in *.
    specialize (IH s1 Hw1). destruct (feed (Int n) debug vs s1). cbn [snd] in *.
    rewrite IH, Hn. by rewrite <- app_assoc.
Qed.

Lemma start_inOrder tasks :
  inOrder cfg d (length tasks) (feed (Int 1) debug (enumerate tasks) initial).2.
Proof.
  split_and!.
  - pose proof (start_windowed 1 debug tasks ltac:(lia)) as [Hle _]. lia.
  - by apply feed_onTrack.
  - rewrite feed_fates_eq by (split; simpl; [lia | done]).
    unfold fates. simpl. by rewrite <- enumerate_positions, <- list_fmap_compose.
Qed.

End sequential.

(** X18.  With [--concurrency 1] the downloads run one after another in
    the order of the task array: when the download pipeline completes,
    the array of results holds, position by position, the result of the
    first fulfilled attempt of the task at that position. *)
Theorem sequential_results_in_order cfg debug d tasks schedule results :
  (downloads cfg (Int 1) debug d tasks schedule).2 = Completed results →
  Fulfilled <$> results = fate cfg d <$> seq 0 (length tasks)
  ∧ ∀ p result,
      results !! p = Some result →
      ∃ k, k < attempts cfg ∧ performDownload d p k = Some result
           ∧ ∀ i, i < k → performDownload d p i = None.
Proof.
  intros Hdone. rewrite downloads_phase in Hdone.
  destruct (drive cfg (Int 1) debug d schedule _) as [t p] eqn:Hd.
  cbn [snd] in Hdone. subst p.
  apply drive_Completed in Hd as (s' & Hr & Hact & Hbuf & <-).
  assert (Hin : inOrder cfg d (length tasks) s').
  { eapply (reachable_invariant cfg (Int 1) debug d (inOrder cfg d (length tasks)));
      [| exact Hr | apply start_inOrder].
    intros ? ?. apply inOrder_Move. }
  destruct Hin as (_ & _ & Hf). unfold fates in Hf. rewrite Hact, Hbuf in Hf.
  simpl in Hf. rewrite app_nil_r in Hf. split; [done |].
  intros p result Hp.
  assert (Hfate : fate cfg d p = Fulfilled result).
  { apply (f_equal (λ l, l !! p)) in Hf.
    rewrite !list_lookup_fmap, Hp in Hf. simpl in Hf.
    destruct (seq 0 (length tasks) !! p) as [q |] eqn:Hq; [| done].
    apply lookup_seq in Hq as [-> _]. simpl in Hf. by injection Hf. }
  destruct (fateFrom_cases cfg d p 0 (attempts_pos cfg))
    as [(k & r & Hk & Hs & Hn & Hfk) | [_ Hfk]];
    unfold fate in Hfate; rewrite Hfate in Hfk; [| done].
  injection Hfk as ->. exists k. split_and!; [lia | done |].
  intros i Hi. apply Hn. lia.
Qed.

Lemma sequential_results_in_order_witness :
  Fulfilled <$> (saved <$> sampleTasks)
  = fate (backoffConfig (Int 1)) reliable <$> seq 0 (length sampleTasks)
  ∧ ∀ p result,
      (saved <$> sampleTasks) !! p = Some result →
      ∃ k, k < attempts (backoffConfig (Int 1))
           ∧ performDownload reliable p k = Some result
           ∧ ∀ i, i < k → performDownload reliable p i = None.
Proof.
  apply (sequential_results_in_order (backoffConfig (Int 1)) false reliable sampleTasks
           [0; 0; 0]).
  reflexivity.
Defined.
